(** * The ARM pack manager cache ([tools/arm_pack_manager/__init__.py])

    A shallow embedding of the [Cache] class: the on-disk descriptor
    cache, the device index built from the cached descriptors and the
    fuzzy device lookup.  Python objects become explicit state (the
    [Cache] record and a [World] holding the file system, the network and
    the two output streams); Python exceptions become the [Raise] case of
    [result].  The libraries the module calls (the XDG data directory, the
    HTML parser, the fuzzy scorer, JSON) are parameters of the methods.
    The methods that fetch pack archives ([pdsc_to_pack],
    [cache_pdsc_and_pack], [cache_pack_list], [cache_everything]) come in
    a part of their own; [get_flash_algorthim_binary], which opens an
    archive, is outside the development.  The worker threads of
    [do_queue] are modelled by one worker that takes the queue in order;
    [generate_index_scheduled] makes the order in which their updates of
    the index land a parameter. *)

From Stdlib Require Import ZArith String Ascii List Lia Sorting.Sorted.
From Stdlib Require Import OrdersEx.
From Equations Require Import Equations.
From stdpp Require Import gmap strings list fin_maps pretty sorting.

Set Warnings "-register-all,-clear-no-such-hyp".

Local Open Scope string_scope.
Local Open Scope Z_scope.

(** ** Python exceptions and the state-and-exception monad *)

Inductive Exn :=
| KeyError (key : string)
| TypeError (msg : string)
| AttributeError (msg : string)
| ValueError (msg : string)
| IOError (errno : Z) (path : string)
| OSError (errno : Z) (path : string).

Inductive result (A : Type) :=
| Ok (a : A)
| Raise (e : Exn).
Arguments Ok {A} a.
Arguments Raise {A} e.

Definition is_ok {A} (r : result A) : bool :=
  match r with Ok _ => true | Raise _ => false end.

(** A computation over a mutable state [S]: the state reached when an
    exception is raised is kept, as Python does not roll mutations back. *)
Definition M (S A : Type) : Type := S -> result A * S.

Definition ret {S A} (a : A) : M S A := fun s => (Ok a, s).
Definition raise {S A} (e : Exn) : M S A := fun s => (Raise e, s).
Definition bind {S A B} (m : M S A) (k : A -> M S B) : M S B :=
  fun s => match m s with
           | (Ok a, s') => k a s'
           | (Raise e, s') => (Raise e, s')
           end.
Definition get {S} : M S S := fun s => (Ok s, s).
Definition modify {S} (f : S -> S) : M S unit := fun s => (Ok tt, f s).
Definition lift {S A} (r : result A) : M S A := fun s => (r, s).

(** [try: m except <classes>: h], where [catches e] says whether the
    except clause names the class of [e]. *)
Definition try_except {S A} (m : M S A) (catches : Exn -> bool) (h : Exn -> M S A) : M S A :=
  fun s => match m s with
           | (Ok a, s') => (Ok a, s')
           | (Raise e, s') => if catches e then h e s' else (Raise e, s')
           end.

Declare Scope py_scope.
Delimit Scope py_scope with py.
Notation "x <- m ;; k" := (bind m (fun x => k))
  (at level 100, m at next level, right associativity) : py_scope.
Notation "m ;; k" := (bind m (fun _ => k))
  (at level 100, right associativity) : py_scope.
Local Open Scope py_scope.

Fixpoint for_each {S A} (f : A -> M S unit) (l : list A) : M S unit :=
  match l with
  | [] => ret tt
  | x :: l' => f x ;; for_each f l'
  end.

Fixpoint map_result {A B} (f : A -> result B) (l : list A) : result (list B) :=
  match l with
  | [] => Ok []
  | x :: l' =>
      match f x with
      | Raise e => Raise e
      | Ok y => match map_result f l' with
                | Raise e => Raise e
                | Ok ys => Ok (y :: ys)
                end
      end
  end.

Definition is_KeyError (e : Exn) : bool := match e with KeyError _ => true | _ => false end.
Definition is_TypeError (e : Exn) : bool := match e with TypeError _ => true | _ => false end.
Definition is_AttributeError (e : Exn) : bool := match e with AttributeError _ => true | _ => false end.
Definition is_IOError (e : Exn) : bool := match e with IOError _ _ => true | _ => false end.

(** [str(e)] for the exceptions the code prints. *)
Definition str_exn (e : Exn) : string :=
  match e with
  | KeyError k => "'" ++ k ++ "'"
  | TypeError m => m
  | AttributeError m => m
  | ValueError m => m
  | IOError _ p => "No such file or directory: '" ++ p ++ "'"
  | OSError _ p => "OSError: '" ++ p ++ "'"
  end.

Definition LF : string := String (ascii_of_nat 10) "".
Definition CR : string := String (ascii_of_nat 13) "".

(** ** [os.path] (posixpath) *)

Definition starts_with_slash (s : string) : bool :=
  match s with
  | String c _ => (c =? "/")%char
  | EmptyString => false
  end.

Fixpoint ends_with_slash (s : string) : bool :=
  match s with
  | EmptyString => false
  | String c EmptyString => (c =? "/")%char
  | String _ s' => ends_with_slash s'
  end.

(** [posixpath.join(a, b)] with one component after [a]. *)
Definition join (a b : string) : string :=
  if starts_with_slash b then b
  else if (String.eqb a "" || ends_with_slash a)%bool then a ++ b
  else a ++ "/" ++ b.

(** [p[:p.rfind('/') + 1]]: everything up to and including the last slash. *)
Fixpoint head_to_last_slash (p : string) : string :=
  match p with
  | EmptyString => EmptyString
  | String c p' =>
      match head_to_last_slash p' with
      | EmptyString => if (c =? "/")%char then String c EmptyString else EmptyString
      | h => String c h
      end
  end.

Fixpoint all_slashes (s : string) : bool :=
  match s with
  | EmptyString => true
  | String c s' => ((c =? "/")%char && all_slashes s')%bool
  end.

(** [s.rstrip('/')]. *)
Fixpoint rstrip_slash (s : string) : string :=
  match s with
  | EmptyString => EmptyString
  | String c s' =>
      match rstrip_slash s' with
      | EmptyString => if (c =? "/")%char then EmptyString else String c EmptyString
      | r => String c r
      end
  end.

Definition dirname (p : string) : string :=
  let head := head_to_last_slash p in
  if (negb (String.eqb head "") && negb (all_slashes head))%bool
  then rstrip_slash head else head.

(** ** [strip_protocol]: [re.compile("\w*://").sub("", str(url))] *)

(** [\w] on a byte string: letters, digits and the underscore. *)
Definition is_word (c : ascii) : bool :=
  let n := nat_of_ascii c in
  ((48 <=? n) && (n <=? 57) || (65 <=? n) && (n <=? 90)
   || (97 <=? n) && (n <=? 122) || (n =? 95))%nat%bool.

(** The greedy [\w*]: what is left after the leading word characters. *)
Fixpoint skip_word (s : string) : string :=
  match s with
  | String c s' => if is_word c then skip_word s' else s
  | EmptyString => EmptyString
  end.

(** An anchored match of [\w*://] at the start of [s]; the result is the
    text after the match.  Backtracking into [\w*] cannot help, since the
    character after a shorter run is a word character, not [:]. *)
Definition match_protocol (s : string) : option string :=
  match skip_word s with
  | String a (String b (String c r)) =>
      if ((a =? ":")%char && (b =? "/")%char && (c =? "/")%char)%bool
      then Some r else None
  | _ => None
  end.

Definition inspect {A} (a : A) : {b | a = b} := exist _ a eq_refl.

(** [pattern.sub("", s)]: scan left to right, drop every leftmost
    non-overlapping match, keep every other character. *)
Equations? sub_protocol (s : string) : string by wf (String.length s) lt :=
  sub_protocol EmptyString := EmptyString;
  sub_protocol (String c s') with inspect (match_protocol (String c s')) => {
    | exist _ (Some r) H := sub_protocol r;
    | exist _ None _ := String c (sub_protocol s') }.
Proof.
  - (* the text after a match is shorter than the text matched against *)
    revert H. unfold match_protocol.
    assert (L : forall t, (String.length (skip_word t) <= String.length t)%nat).
    { induction t as [|a t IH]; simpl; [lia|]. destruct (is_word a); simpl; lia. }
    specialize (L (String c s')).
    destruct (skip_word (String c s')) as [|a [|b [|d t]]]; try discriminate.
    destruct (_ && _)%bool; [|discriminate].
    intros [= <-]. simpl in L |- *. lia.
  - simpl. lia.
Qed.

Definition strip_protocol (url : string) : string := sub_protocol url.

(** [s.startswith(pat)]. *)
Fixpoint startswith (pat s : string) : bool :=
  match pat, s with
  | EmptyString, _ => true
  | String a pat', String b s' => ((a =? b)%char && startswith pat' s')%bool
  | String _ _, EmptyString => false
  end.

(** [pat in s]. *)
Fixpoint contains (pat s : string) : bool :=
  (startswith pat s
   || match s with
      | String _ s' => contains pat s'
      | EmptyString => false
      end)%bool.

(** ** The parsed descriptor (bs4) *)

Declare Scope res_scope.
Delimit Scope res_scope with res.

Definition rbind {A B} (r : result A) (k : A -> result B) : result B :=
  match r with
  | Ok a => k a
  | Raise e => Raise e
  end.
Notation "x <- m ;; k" := (rbind m (fun x => k))
  (at level 100, m at next level, right associativity) : res_scope.

(** An attribute value is a string, or a list of strings for the
    attributes the tree builder treats as multi-valued. *)
Inductive AttrVal :=
| VStr (s : string)
| VList (l : list string).

(** A tag of the parse tree; text nodes are left out, as no method
    modelled here reads text. *)
Inductive Tag := mkTag {
  tag_name : string;
  attrs : gmap string AttrVal;
  contents : list Tag
}.

(** All tags below [t], in document order. *)
Fixpoint descendants (t : Tag) : list Tag :=
  match t with
  | mkTag _ _ cs =>
      (fix go (l : list Tag) : list Tag :=
         match l with
         | [] => []
         | c :: l' => c :: descendants c ++ go l'
         end) cs
  end.

(** [tag(name)], that is [tag.find_all(name)]. *)
Definition find_all (nm : string) (t : Tag) : list Tag :=
  List.filter (fun d => String.eqb (tag_name d) nm) (descendants t).

(** [tag.name], that is [tag.find(name)]: the first such tag or [None]. *)
Definition find (nm : string) (t : Tag) : option Tag := head (find_all nm t).

(** [tag[key]]. *)
Definition getitem (t : Tag) (key : string) : result AttrVal :=
  match attrs t !! key with
  | Some v => Ok v
  | None => Raise (KeyError key)
  end.

(** [tag.get(key)]. *)
Definition get_attr (t : Tag) (key : string) : option AttrVal := attrs t !! key.

(** [x[key]] where [x] is a tag or [None]. *)
Definition getitem_opt (t : option Tag) (key : string) : result AttrVal :=
  match t with
  | Some t => getitem t key
  | None => Raise (TypeError "'NoneType' object has no attribute '__getitem__'")
  end.

Fixpoint replace_char (a b : ascii) (s : string) : string :=
  match s with
  | EmptyString => EmptyString
  | String c s' => String (if (c =? a)%char then b else c) (replace_char a b s')
  end.

(** [v.replace('\\', '/')]. *)
Definition replace_backslash (v : AttrVal) : result string :=
  match v with
  | VStr s => Ok (replace_char "\" "/" s)
  | VList _ => Raise (AttributeError "'list' object has no attribute 'replace'")
  end.

(** [dict(pairs)]: later pairs win; a list is not hashable. *)
Fixpoint dict_from {V} (acc : gmap string V) (pairs : list (AttrVal * V)) : result (gmap string V) :=
  match pairs with
  | [] => Ok acc
  | (VStr k, v) :: ps => dict_from (<[k := v]> acc) ps
  | (VList _, _) :: _ => Raise (TypeError "unhashable type: 'list'")
  end.
Definition dict {V} (pairs : list (AttrVal * V)) : result (gmap string V) :=
  dict_from ∅ pairs.

(** [d[k]]. *)
Definition dict_getitem {V} (d : gmap string V) (k : string) : result V :=
  match d !! k with
  | Some v => Ok v
  | None => Raise (KeyError k)
  end.

(** ** Device records and the index *)

(** The values stored in a device record. *)
Inductive Field :=
| FStr (s : string)
| FAttr (v : AttrVal)
| FMemory (m : gmap string (gmap string AttrVal))
| FCompile (header define : AttrVal).

Abbreviation DeviceRecord := (gmap string Field).
Abbreviation Index := (gmap string (gmap string Field)).

(** ** Ordering of [(score, name)] tuples *)

Definition cmp_tuple (a b : Z * string) : comparison :=
  match a.1 ?= b.1 with
  | Eq => String_as_OT.compare a.2 b.2
  | c => c
  end.

(** [a >= b] on tuples, the order of [sorted(..., reverse=True)]. *)
Definition tuple_ge (a b : Z * string) : Prop := cmp_tuple a b <> Lt.

#[global] Instance comparison_eq_dec' : EqDecision comparison.
Proof. solve_decision. Defined.

#[global] Instance tuple_ge_dec (a b : Z * string) : Decision (tuple_ge a b).
Proof. unfold tuple_ge. apply _. Defined.

(** [a >= b] on the score alone, the order [extract] sorts by. *)
Definition score_ge (a b : string * Z) : Prop := b.2 <= a.2.

#[global] Instance score_ge_dec (a b : string * Z) : Decision (score_ge a b).
Proof. unfold score_ge. apply _. Defined.

(** [itertools.takewhile]. *)
Fixpoint takewhile {A} (p : A -> bool) (l : list A) : list A :=
  match l with
  | [] => []
  | x :: l' => if p x then x :: takewhile p l' else []
  end.

(** ** The outside world *)

Record Response := mkResponse {
  body : string;            (* the bytes written to the file before the transfer ended *)
  error : option string     (* [str(e)] when [perform] raised *)
}.

Record Curl := mkCurl {
  URL : option string;
  FOLLOWLOCATION : bool;
  WRITEDATA : option string;    (* the path of the open file *)
  CONNECTTIMEOUT : option Z;
  LOW_SPEED_LIMIT : option Z;
  LOW_SPEED_TIME : option Z
}.

(** [Curl()]. *)
Definition new_Curl : Curl := mkCurl None false None None None None.

Record World := mkWorld {
  fs : gmap string string;               (* regular files, by path *)
  makedirs_errno : string -> option Z;   (* the errno [os.makedirs] fails with, if it does *)
  open_wb_errno : string -> option Z;    (* the errno [open(path, "wb+")] fails with, if it does *)
  network : Curl -> Response;            (* what [curl.perform()] does *)
  stdout : string;
  stderr : string
}.

Definition EEXIST : Z := 17.
Definition ENOENT : Z := 2.

(** ** The Cache object *)

Record Cache := mkCache {
  silent : bool;
  counter : Z;
  total : Z;
  _index : gmap string (gmap string Field);
  urls : option (list string);
  no_timeouts : bool
}.

(** [Cache(silent, no_timeouts)]. *)
Definition Cache_init (silent no_timeouts : bool) : Cache :=
  mkCache silent 0 1 ∅ None no_timeouts.

Definition set_counter (n : Z) (c : Cache) : Cache :=
  mkCache (silent c) n (total c) (_index c) (urls c) (no_timeouts c).
Definition set_total (n : Z) (c : Cache) : Cache :=
  mkCache (silent c) (counter c) n (_index c) (urls c) (no_timeouts c).
Definition set_index (i : gmap string (gmap string Field)) (c : Cache) : Cache :=
  mkCache (silent c) (counter c) (total c) i (urls c) (no_timeouts c).
Definition set_urls (u : list string) (c : Cache) : Cache :=
  mkCache (silent c) (counter c) (total c) (_index c) (Some u) (no_timeouts c).

Definition set_fs (f : gmap string string) (w : World) : World :=
  mkWorld f (makedirs_errno w) (open_wb_errno w) (network w) (stdout w) (stderr w).
Definition set_stdout (s : string) (w : World) : World :=
  mkWorld (fs w) (makedirs_errno w) (open_wb_errno w) (network w) s (stderr w).
Definition set_stderr (s : string) (w : World) : World :=
  mkWorld (fs w) (makedirs_errno w) (open_wb_errno w) (network w) (stdout w) s.
Definition set_network (n : Curl -> Response) (w : World) : World :=
  mkWorld (fs w) (makedirs_errno w) (open_wb_errno w) n (stdout w) (stderr w).

(** The state every method runs in: [self] and the world. *)
Definition St : Type := Cache * World.

Definition self : M St Cache := fun s => (Ok (fst s), s).
Definition world : M St World := fun s => (Ok (snd s), s).
Definition update_self (f : Cache -> Cache) : M St unit := modify (fun s => (f (fst s), snd s)).
Definition update_world (f : World -> World) : M St unit := modify (fun s => (fst s, f (snd s))).

Definition stdout_write (s : string) : M St unit :=
  update_world (fun w => set_stdout (stdout w ++ s) w).
Definition stderr_write (s : string) : M St unit :=
  update_world (fun w => set_stderr (stderr w ++ s) w).
(** [print(s)]. *)
Definition print (s : string) : M St unit := stdout_write (s ++ LF).

(** [os.makedirs(path)]: directories are not tracked; only the failure is. *)
Definition makedirs (path : string) : M St unit :=
  w <- world ;;
  match makedirs_errno w path with
  | Some errno => raise (OSError errno path)
  | None => ret tt
  end.

(** [open(path, "wb+")]: creates the file or truncates it. *)
Definition open_wb (path : string) : M St unit :=
  w <- world ;;
  match open_wb_errno w path with
  | Some errno => raise (IOError errno path)
  | None => update_world (fun w => set_fs (<[path := ""]> (fs w)) w)
  end.

(** [fd.write(data)] on a file opened by [open_wb]. *)
Definition file_write (path data : string) : M St unit :=
  update_world (fun w => set_fs (<[path := default "" (fs w !! path) ++ data]> (fs w)) w).

(** [open(path, "r")] and reading the whole file. *)
Definition open_read (path : string) : M St string :=
  w <- world ;;
  match fs w !! path with
  | Some data => ret data
  | None => raise (IOError ENOENT path)
  end.

Definition RootPackURL : string := "http://www.keil.com/pack/index.idx".

(** [posixpath.join] on what [tag.get] returned: [None] and lists have
    neither [startswith] nor [endswith]. *)
Definition join_attrs (a b : option AttrVal) : result string :=
  match b with
  | None => Raise (AttributeError "'NoneType' object has no attribute 'startswith'")
  | Some (VList _) => Raise (AttributeError "'list' object has no attribute 'startswith'")
  | Some (VStr b) =>
      if starts_with_slash b then Ok b
      else match a with
           | None => Raise (AttributeError "'NoneType' object has no attribute 'endswith'")
           | Some (VList _) => Raise (AttributeError "'list' object has no attribute 'endswith'")
           | Some (VStr a) => Ok (join a b)
           end
  end.

Fixpoint map_M {S A B} (f : A -> M S B) (l : list A) : M S (list B) :=
  match l with
  | [] => ret []
  | x :: l' => y <- f x ;; ys <- map_M f l' ;; ret (y :: ys)
  end.

(** The four values [_extract_dict] reads from a device element, in the
    order of its assignments. *)
Definition memory_of (device : Tag) : result (gmap string (gmap string AttrVal)) :=
  (pairs <- map_result
              (fun m => (id <- getitem m "id" ;;
                         start <- getitem m "start" ;;
                         size <- getitem m "size" ;;
                         Ok (id, ({["start" := start; "size" := size]}
                                    : gmap string AttrVal)))%res)
              (find_all "memory" device) ;;
   dict pairs)%res.

Definition algorithm_of (device : Tag) : result string :=
  (name <- getitem_opt (find "algorithm" device) "name" ;;
   replace_backslash name)%res.

Definition debug_of (device : Tag) : result AttrVal :=
  getitem_opt (find "debug" device) "svd".

Definition compile_of (device : Tag) : result Field :=
  (header <- getitem_opt (find "compile" device) "header" ;;
   define <- getitem_opt (find "compile" device) "define" ;;
   Ok (FCompile header define))%res.

(** The statements inside the [try] of [_extract_dict], run on [to_ret]. *)
Definition extract_fields (device : Tag) : M (gmap string Field) unit :=
  memory <- lift (memory_of device) ;;
  modify (<["memory" := FMemory memory]>) ;;
  algorithm <- lift (algorithm_of device) ;;
  modify (<["algorithm" := FStr algorithm]>) ;;
  debug <- lift (debug_of device) ;;
  modify (<["debug" := FAttr debug]>) ;;
  compile <- lift (compile_of device) ;;
  modify (<["compile" := compile]>).

(** The classes named by [except (KeyError, TypeError)]. *)
Definition is_KeyError_or_TypeError (e : Exn) : bool := (is_KeyError e || is_TypeError e)%bool.

Definition _extract_dict (device : Tag) (filename : string) : result (gmap string Field) :=
  let to_ret : gmap string Field := {["file" := FStr filename]} in
  match try_except (extract_fields device) is_KeyError_or_TypeError (fun _ => ret tt) to_ret with
  | (Ok _, to_ret) => Ok to_ret
  | (Raise e, _) => Raise e
  end.

(** The devices one descriptor adds to the index: the argument of
    [self._index.update] in [_generate_index_helper]. *)
Definition descriptor_devices (soup : Tag) (d : string) : result (gmap string (gmap string Field)) :=
  (pairs <- map_result
              (fun dev => (dname <- getitem dev "dname" ;;
                           record <- _extract_dict dev d ;;
                           Ok (dname, record))%res)
              (find_all "device" soup) ;;
   dict pairs)%res.

(** The list [get_urls] builds from the parsed root index:
    [[join(pdsc.get('url'), pdsc.get('name')) for pdsc in root_data.find_all("pdsc")]]. *)
Definition pdsc_urls (root_data : Tag) : result (list string) :=
  map_result (fun pdsc => join_attrs (get_attr pdsc "url") (get_attr pdsc "name"))
    (find_all "pdsc" root_data).

Section CacheMethods.

(** The environment and the libraries the module calls. *)
Variable xdg_data_home : string.             (* [$XDG_DATA_HOME] *)
Variable BeautifulSoup : string -> Tag.      (* [BeautifulSoup(fd, "html.parser")] *)
Variable scorer : string -> string -> Z.     (* fuzzywuzzy's score of a choice for a query *)
Variable dump : gmap string (gmap string Field) -> string.           (* [json.dump] *)
Variable load : string -> result (gmap string (gmap string Field)).  (* [json.load] *)

(** [xdg.BaseDirectory.save_data_path(resource)]: the path under
    [$XDG_DATA_HOME].  That the library creates the directory, and that
    it raises [OSError] when it cannot, is not tracked: the methods are
    modelled for calls in which [save_data_path] returns. *)
Definition save_data_path (resource : string) : string := join xdg_data_home resource.

(** [process.extract(query, choices, limit=limit)]: every choice with
    its score, best first, cut at [limit]; scores below the cutoff 0 are
    dropped. *)
Definition extract (query : string) (choices : list string) (limit : nat) : list (string * Z) :=
  take limit
    (merge_sort score_ge
       (List.filter (fun t => 0 <=? t.2) (map (fun c => (c, scorer query c)) choices))).

(** [sorted(l, reverse=True)] on [(score, name)] tuples. *)
Definition sorted_reverse (l : list (Z * string)) : list (Z * string) :=
  merge_sort tuple_ge l.

Definition display_counter (message : string) : M St unit :=
  c <- self ;;
  stdout_write (message ++ " " ++ pretty (counter c) ++ "/" ++ pretty (total c) ++ CR).

(** The destination both [cache_file] and [pull_from_cache] compute. *)
Definition cache_path (url : string) : string :=
  join (save_data_path "arm-pack-manager") (strip_protocol url).

Definition cache_file (curl : Curl) (url : string) : M St Curl :=
  c <- self ;;
  (if negb (silent c) then print ("Caching " ++ url ++ "...") else ret tt) ;;
  let dest := join (save_data_path "arm-pack-manager") (strip_protocol url) in
  try_except (makedirs (dirname dest))
    (fun e => match e with OSError _ _ => true | _ => false end)
    (fun e => match e with
              | OSError errno _ => if errno =? EEXIST then ret tt else raise e
              | _ => raise e
              end) ;;
  open_wb dest ;;
  let curl := mkCurl (Some url) true (Some dest)
                (CONNECTTIMEOUT curl) (LOW_SPEED_LIMIT curl) (LOW_SPEED_TIME curl) in
  let curl := if negb (no_timeouts c)
              then mkCurl (URL curl) (FOLLOWLOCATION curl) (WRITEDATA curl)
                     (Some 2) (Some (50 * 1024)) (Some 2)
              else curl in
  w <- world ;;
  let resp := network w curl in
  file_write dest (body resp) ;;
  match error resp with
  | Some e => stderr_write ("[ ERROR ] file " ++ url ++ " did not download " ++ e ++ LF)
  | None => ret tt
  end ;;
  update_self (fun c => set_counter (counter c + 1) c) ;;
  display_counter "Caching Files" ;;
  ret curl.

Definition pull_from_cache (url : string) : M St Tag :=
  let dest := join (save_data_path "arm-pack-manager") (strip_protocol url) in
  data <- open_read dest ;;
  ret (BeautifulSoup data).

Definition cache_and_parse (url : string) : M St Tag :=
  cache_file new_Curl url ;;
  pull_from_cache url.

Definition get_urls : M St (list string) :=
  c <- self ;;
  match urls c with
  | Some (u :: us) => ret (u :: us)
  | _ =>
      root_data <- try_except (pull_from_cache RootPackURL) is_IOError
                     (fun _ => cache_and_parse RootPackURL) ;;
      l <- lift (pdsc_urls root_data) ;;
      update_self (set_urls l) ;;
      ret l
  end.

Definition _generate_index_helper (d : string) : M St unit :=
  try_except
    (soup <- pull_from_cache d ;;
     new <- lift (descriptor_devices soup d) ;;
     update_self (fun c => set_index (new ∪ _index c) c))
    is_AttributeError
    (fun e => print (str_exn e)) ;;
  update_self (fun c => set_counter (counter c + 1) c) ;;
  display_counter "Generating Index".

(** [do_queue(Reader, function, iterable)]: the worker threads are
    modelled by one worker that takes the items in queue order.  An
    exception that escapes [function] kills the worker that ran it, which
    never calls [task_done], so that [q.join()] does not return; the
    other workers go on.  [do_queue] itself raises nothing: the [Raise]
    case of a run stands for a run that does not return, and the state
    that comes with it is that of the one worker, not of the others. *)
Definition do_queue_Reader (function : string -> M St unit) (iterable : list string) : M St unit :=
  for_each function iterable.

(** [do_queue(Cacher, function, iterable)]: as above; the worker owns
    the [Curl] object it made in [Cacher.__init__]. *)
Fixpoint Cacher_run (function : Curl -> string -> M St Curl) (curl : Curl)
    (iterable : list string) : M St unit :=
  match iterable with
  | [] => ret tt
  | url :: rest => curl' <- function curl url ;; Cacher_run function curl' rest
  end.
Definition do_queue_Cacher (function : Curl -> string -> M St Curl) (iterable : list string) : M St unit :=
  Cacher_run function (mkCurl None true None None None None) iterable.

Definition index_path : string := join (save_data_path "arm-pack-manager") "index.json".

Definition generate_index : M St unit :=
  update_self (set_index ∅) ;;
  update_self (set_counter 0) ;;
  l <- get_urls ;;
  do_queue_Reader _generate_index_helper l ;;
  open_wb index_path ;;
  c <- self ;;
  file_write index_path (dump (_index c)) ;;
  stdout_write LF.

(** [generate_index] when the worker threads apply their updates in the
    order [schedule] puts the queue in.  The threads that [do_queue]
    starts share [_index], and the [self._index.update] of a descriptor
    takes effect as one step; which thread comes first is up to the
    scheduler.  With the identity for [schedule] this is
    [generate_index].  The counter and the progress lines are those of
    the calls made one after the other: nothing is stated about them for
    a scheduled run. *)
Definition generate_index_scheduled (schedule : list string -> list string) : M St unit :=
  update_self (set_index ∅) ;;
  update_self (set_counter 0) ;;
  l <- get_urls ;;
  do_queue_Reader _generate_index_helper (schedule l) ;;
  open_wb index_path ;;
  c <- self ;;
  file_write index_path (dump (_index c)) ;;
  stdout_write LF.

(** The [index] property. *)
Definition index : M St (gmap string (gmap string Field)) :=
  c <- self ;;
  (if decide (_index c = ∅)
   then try_except
          (data <- open_read index_path ;;
           i <- lift (load data) ;;
           update_self (set_index i))
          is_IOError
          (fun _ => generate_index)
   else ret tt) ;;
  c <- self ;;
  ret (_index c).

Definition find_device (match_ : string) : M St (list (string * gmap string Field)) :=
  keys <- (i <- index ;; ret (map_to_list i).*1) ;;
  limit <- (i <- index ;; ret (size i)) ;;
  let choices := extract match_ keys limit in
  let choices := sorted_reverse (map (fun '(k, v) => (v, k)) choices) in
  match choices with
  | [] => ret []
  | top :: _ =>
      let choices := takewhile (fun t => t.1 =? top.1) choices in
      map_M (fun '(k, v) => i <- index ;; r <- lift (dict_getitem i v) ;; ret (v, r)) choices
  end.

Definition dump_index_to_file (file : string) : M St unit :=
  open_wb file ;;
  i <- index ;;
  file_write file (dump i).

Definition cache_descriptor_list (list : list string) : M St unit :=
  update_self (set_total (Z.of_nat (length list))) ;;
  display_counter "Caching Files" ;;
  do_queue_Cacher cache_file list ;;
  stdout_write LF.

Definition cache_descriptors : M St unit :=
  l <- get_urls ;;
  cache_descriptor_list l ;;
  generate_index.

End CacheMethods.

(** * The pack archives

    [largest_version], [pdsc_to_pack], [cache_pdsc_and_pack],
    [cache_pack_list] and [cache_everything].  These methods read the
    text of elements and can raise [IndexError], which the methods above
    do not. *)

(** ** Text nodes

    [Tag] has no constructor for the strings of a document.  Where a
    method reads text, a string of the document is a childless node with
    the empty name, which no element has, holding its text under the
    empty attribute key.  [find] and [find_all] are never called with the
    empty name, so that they skip these nodes as bs4 skips strings. *)
Definition text_node (s : string) : Tag := mkTag "" {["" := VStr s]} [].

Definition is_text (t : Tag) : bool := String.eqb (tag_name t) "".

Definition text_of (t : Tag) : string :=
  match attrs t !! "" with
  | Some (VStr s) => s
  | _ => ""
  end.

(** [tag.get_text()]: the strings below the tag, joined in document order. *)
Definition get_text (t : Tag) : string :=
  String.concat "" (map text_of (List.filter is_text (descendants t))).

(** ** Exceptions and outcomes of the pack methods *)

Inductive PackExn :=
| Builtin (e : Exn)
| IndexError (msg : string).

Inductive outcome (A : Type) :=
| Returned (a : A)
| Raised (e : PackExn).
Arguments Returned {A} a.
Arguments Raised {A} e.

Definition outcome_of {A} (r : result A) : outcome A :=
  match r with
  | Ok a => Returned a
  | Raise e => Raised (Builtin e)
  end.

Definition obind {A B} (o : outcome A) (k : A -> outcome B) : outcome B :=
  match o with
  | Returned a => k a
  | Raised e => Raised e
  end.

(** A pack method: a computation on [St] that ends in an [outcome]. *)
Definition MP (A : Type) : Type := St -> outcome A * St.

Definition ret_p {A} (a : A) : MP A := fun s => (Returned a, s).
Definition bind_p {A B} (m : MP A) (k : A -> MP B) : MP B :=
  fun s => match m s with
           | (Returned a, s') => k a s'
           | (Raised e, s') => (Raised e, s')
           end.
(** A method of the first part, run as a pack method. *)
Definition lift_p {A} (m : M St A) : MP A :=
  fun s => match m s with (r, s') => (outcome_of r, s') end.
Definition pure_p {A} (o : outcome A) : MP A := fun s => (o, s).
Definition try_except_p {A} (m : MP A) (catches : PackExn -> bool) (h : PackExn -> MP A) : MP A :=
  fun s => match m s with
           | (Returned a, s') => (Returned a, s')
           | (Raised e, s') => if catches e then h e s' else (Raised e, s')
           end.

Declare Scope pack_scope.
Delimit Scope pack_scope with pack.
Notation "x <- m ;; k" := (bind_p m (fun x => k))
  (at level 100, m at next level, right associativity) : pack_scope.
Notation "m ;; k" := (bind_p m (fun _ => k))
  (at level 100, right associativity) : pack_scope.

Declare Scope outcome_scope.
Delimit Scope outcome_scope with out.
Notation "x <- m ;; k" := (obind m (fun x => k))
  (at level 100, m at next level, right associativity) : outcome_scope.

(** The class named by [except AttributeError]. *)
Definition is_AttributeError_p (e : PackExn) : bool :=
  match e with
  | Builtin e => is_AttributeError e
  | IndexError _ => false
  end.

(** ** Python 2 comparison of attribute values

    Strings compare by code point, lists element by element, and a list
    is smaller than any string (objects of different types compare by
    the name of their type). *)
Fixpoint cmp_list (a b : list string) : comparison :=
  match a, b with
  | [], [] => Eq
  | [], _ :: _ => Lt
  | _ :: _, [] => Gt
  | x :: a', y :: b' =>
      match String_as_OT.compare x y with
      | Eq => cmp_list a' b'
      | c => c
      end
  end.

Definition cmp_attr (a b : AttrVal) : comparison :=
  match a, b with
  | VStr a, VStr b => String_as_OT.compare a b
  | VList a, VList b => cmp_list a b
  | VList _, VStr _ => Lt
  | VStr _, VList _ => Gt
  end.

(** [a >= b] on attribute values, the order of [sorted(..., reverse=True)]. *)
Definition attr_ge (a b : AttrVal) : Prop := cmp_attr a b <> Lt.

#[global] Instance attr_ge_dec (a b : AttrVal) : Decision (attr_ge a b).
Proof. unfold attr_ge. apply _. Defined.

(** [x.child], that is [x.find(child)], where [x] is a tag or [None]. *)
Definition getattr_opt (x : option Tag) (child : string) : outcome (option Tag) :=
  match x with
  | Some t => Returned (find child t)
  | None =>
      Raised (Builtin (AttributeError ("'NoneType' object has no attribute '" ++ child ++ "'")))
  end.

(** [x.find(child)] where [x] is a tag or [None]. *)
Definition find_opt (x : option Tag) (child : string) : outcome (option Tag) :=
  match x with
  | Some t => Returned (find child t)
  | None => Raised (Builtin (AttributeError "'NoneType' object has no attribute 'find'"))
  end.

(** [x.get_text()] where [x] is a tag or [None]. *)
Definition get_text_opt (x : option Tag) : outcome string :=
  match x with
  | Some t => Returned (get_text t)
  | None => Raised (Builtin (AttributeError "'NoneType' object has no attribute 'get_text'"))
  end.

(** [x(name)], that is [x.find_all(name)], where [x] is a tag or [None]. *)
Definition call_opt (x : option Tag) (nm : string) : outcome (list Tag) :=
  match x with
  | Some t => Returned (find_all nm t)
  | None => Raised (Builtin (TypeError "'NoneType' object is not callable"))
  end.

(** The versions of the releases:
    [[t['version'] for t in content.package.releases('release')]]. *)
Definition release_versions (content : Tag) : outcome (list AttrVal) :=
  (releases <- getattr_opt (find "package" content) "releases" ;;
   release <- call_opt releases "release" ;;
   outcome_of (map_result (fun t => getitem t "version") release))%out.

Definition largest_version (content : Tag) : outcome AttrVal :=
  (versions <- release_versions content ;;
   match merge_sort attr_ge versions with
   | v :: _ => Returned v
   | [] => Raised (IndexError "list index out of range")
   end)%out.

(** [s + v] where [s] is a string. *)
Definition str_add (s : string) (v : AttrVal) : outcome string :=
  match v with
  | VStr v => Returned (s ++ v)
  | VList _ => Raised (Builtin (TypeError "coercing to Unicode: need string or buffer, list found"))
  end.

(** The body of [pdsc_to_pack] after the descriptor has been read. *)
Definition pack_url (content : Tag) : outcome string :=
  (url <- getattr_opt (find "package" content) "url" ;;
   new_url <- get_text_opt url ;;
   let new_url := if negb (ends_with_slash new_url) then new_url ++ "/" else new_url in
   vendor <- getattr_opt (find "package" content) "vendor" ;;
   vendor <- get_text_opt vendor ;;
   name <- find_opt (find "package" content) "name" ;;
   name <- get_text_opt name ;;
   version <- largest_version content ;;
   s <- str_add (new_url ++ vendor ++ "." ++ name ++ ".") version ;;
   Returned (s ++ ".pack"))%out.

Section PackMethods.

Variable xdg_data_home : string.
Variable BeautifulSoup : string -> Tag.
Variable dump : gmap string (gmap string Field) -> string.

Definition pdsc_to_pack (url : string) : MP string :=
  (content <- lift_p (pull_from_cache xdg_data_home BeautifulSoup url) ;;
   pure_p (pack_url content))%pack.

Definition cache_pdsc_and_pack (curl : Curl) (url : string) : MP Curl :=
  (curl <- lift_p (cache_file xdg_data_home curl url) ;;
   try_except_p
     (pack <- pdsc_to_pack url ;;
      lift_p (cache_file xdg_data_home curl pack))
     is_AttributeError_p
     (fun _ =>
        lift_p (stderr_write ("[ ERROR ] " ++ url
                              ++ " does not appear to be a conforming .pdsc file" ++ LF)) ;;
        lift_p (update_self (fun c => set_counter (counter c + 1) c)) ;;
        ret_p curl))%pack.

(** [Cacher.run] over the queue, as [Cacher_run], for a pack method. *)
Fixpoint Cacher_run_p (function : Curl -> string -> MP Curl) (curl : Curl)
    (iterable : list string) : MP unit :=
  match iterable with
  | [] => ret_p tt
  | url :: rest => (curl' <- function curl url ;; Cacher_run_p function curl' rest)%pack
  end.
Definition do_queue_Cacher_p (function : Curl -> string -> MP Curl) (iterable : list string)
    : MP unit :=
  Cacher_run_p function (mkCurl None true None None None None) iterable.

Definition cache_pack_list (list : list string) : MP unit :=
  (lift_p (update_self (set_total (Z.of_nat (length list) * 2))) ;;
   lift_p (display_counter "Caching Files") ;;
   do_queue_Cacher_p cache_pdsc_and_pack list ;;
   lift_p (stdout_write LF))%pack.

Definition cache_everything : MP unit :=
  (l <- lift_p (get_urls xdg_data_home BeautifulSoup) ;;
   cache_pack_list l ;;
   lift_p (generate_index xdg_data_home BeautifulSoup dump))%pack.

End PackMethods.

(** ** Definitions used to state the properties *)

(** The options [cache_file] leaves on the [Curl] object. *)
Definition curl_options (xdg_data_home : string) (c : Cache) (curl : Curl) (url : string) : Curl :=
  if no_timeouts c
  then mkCurl (Some url) true (Some (cache_path xdg_data_home url))
         (CONNECTTIMEOUT curl) (LOW_SPEED_LIMIT curl) (LOW_SPEED_TIME curl)
  else mkCurl (Some url) true (Some (cache_path xdg_data_home url))
         (Some 2) (Some (50 * 1024)) (Some 2).

(** What [cache_file] writes to the two streams. *)
Definition cache_file_stdout (c : Cache) (url : string) : string :=
  (if silent c then "" else "Caching " ++ url ++ "..." ++ LF)
  ++ ("Caching Files " ++ pretty (counter c + 1) ++ "/" ++ pretty (total c) ++ CR).
Definition cache_file_stderr (url : string) (resp : Response) : string :=
  match error resp with
  | Some e => "[ ERROR ] file " ++ url ++ " did not download " ++ e ++ LF
  | None => ""
  end.

(** The operating system lets [cache_file] create the file [dest]. *)
Definition can_write (w : World) (dest : string) : Prop :=
  (makedirs_errno w (dirname dest) = None \/ makedirs_errno w (dirname dest) = Some EEXIST)
  /\ open_wb_errno w dest = None.

(** The progress line [_generate_index_helper] writes. *)
Definition helper_progress (c : Cache) : string :=
  "Generating Index " ++ pretty (counter c + 1) ++ "/" ++ pretty (total c) ++ CR.

(** What the helper adds to the index for the descriptor [d], read from
    the files [files]: its devices, nothing when reading them raises
    [AttributeError], and [None] when the helper raises. *)
Definition contribution (xdg_data_home : string) (BeautifulSoup : string -> Tag)
    (files : gmap string string) (d : string) : option (gmap string (gmap string Field)) :=
  match files !! cache_path xdg_data_home d with
  | None => None
  | Some data =>
      match descriptor_devices (BeautifulSoup data) d with
      | Ok new => Some new
      | Raise e => if is_AttributeError e then Some ∅ else None
      end
  end.

(** The parts of the world no method changes. *)
Definition same_env (w w' : World) : Prop :=
  makedirs_errno w = makedirs_errno w'
  /\ open_wb_errno w = open_wb_errno w'
  /\ network w = network w'.

(** The strict order on [(score, name)] tuples. *)
Definition tuple_lt (a b : Z * string) : Prop :=
  a.1 < b.1 \/ (a.1 = b.1 /\ String_as_OT.lt a.2 b.2).

(** The [(score, name)] tuples [find_device] keeps, for the keys in the
    order [keys]: the body of [find_device] between the two reads of the
    index and the final lookups. *)
Definition best_matches (scorer : string -> string -> Z) (query : string) (keys : list string)
    : list (Z * string) :=
  let choices :=
    sorted_reverse (map (fun '(k, v) => (v, k)) (extract scorer query keys (length keys))) in
  match choices with
  | [] => []
  | top :: _ => takewhile (fun t => t.1 =? top.1) choices
  end.

(** Every key with its score. *)
Definition scored (scorer : string -> string -> Z) (query : string) (keys : list string)
    : list (Z * string) :=
  map (fun k => (scorer query k, k)) keys.

(** Every character of [s] is a word character. *)
Fixpoint all_word (s : string) : bool :=
  match s with
  | EmptyString => true
  | String c s' => (is_word c && all_word s')%bool
  end.

(** The strict order [cmp_list] and [cmp_attr] decide. *)
Fixpoint list_lt (a b : list string) : Prop :=
  match a, b with
  | [], _ :: _ => True
  | x :: a', y :: b' => String_as_OT.lt x y \/ (x = y /\ list_lt a' b')
  | _, [] => False
  end.

Definition attr_lt (a b : AttrVal) : Prop :=
  match a, b with
  | VStr a, VStr b => String_as_OT.lt a b
  | VList a, VList b => list_lt a b
  | VList _, VStr _ => True
  | VStr _, VList _ => False
  end.

(** * A concrete environment

    A small world to evaluate the methods in: the root index and two
    descriptors that download, URLs that do not, and a table that stands
    for the parser on the file contents used. *)

Definition demo_home : string := "/home/user/.local/share".

Definition memory_tag : Tag :=
  mkTag "memory"
    {["id" := VStr "IROM1"; "start" := VStr "0x00000000"; "size" := VStr "0x80000"]} [].
Definition algorithm_tag : Tag :=
  mkTag "algorithm" {["name" := VStr "Flash\LPC_IAP_512.FLM"]} [].
Definition debug_tag : Tag := mkTag "debug" {["svd" := VStr "SVD/LPC176x5x.svd"]} [].
Definition compile_tag : Tag :=
  mkTag "compile"
    {["header" := VStr "Device/Include/LPC17xx.h"; "define" := VStr "LPC175x_6x"]} [].

Definition device_full : Tag :=
  mkTag "device" {["dname" := VStr "LPC1768"]}
    [memory_tag; algorithm_tag; debug_tag; compile_tag].
(** An algorithm element without its [name]. *)
Definition device_no_algorithm_name : Tag :=
  mkTag "device" {["dname" := VStr "LPC1769"]}
    [memory_tag; mkTag "algorithm" ∅ []; debug_tag].
(** An algorithm name the tree builder split into a list. *)
Definition device_list_algorithm : Tag :=
  mkTag "device" {["dname" := VStr "LPC1770"]}
    [memory_tag; mkTag "algorithm" {["name" := VList ["a"; "b"]]} []].
(** A device element without [Dname]. *)
Definition device_no_dname : Tag := mkTag "device" ∅ [memory_tag; algorithm_tag].

Definition document (devices : list Tag) : Tag :=
  mkTag "[document]" ∅ [mkTag "package" ∅ [mkTag "devices" ∅ devices]].

Definition url_lpc : string := "http://www.keil.com/pack/Keil.LPC1700_DFP.pdsc".
Definition url_stm : string := "http://www.keil.com/pack/Keil.STM32F4xx_DFP.pdsc".
Definition url_gone : string := "http://unreachable.example/pack/Gone.pdsc".
Definition url_nodname : string := "http://www.keil.com/pack/Keil.NoDname.pdsc".
Definition url_multi : string := "http://www.keil.com/pack/Keil.Multi.pdsc".

Definition root_document : Tag :=
  mkTag "[document]" ∅
    [mkTag "index" ∅
       [mkTag "pdsc" {["url" := VStr "http://www.keil.com/pack/";
                       "name" := VStr "Keil.LPC1700_DFP.pdsc"]} []]].

Definition demo_soup (data : string) : Tag :=
  if String.eqb data "<index><pdsc Keil.LPC1700_DFP/></index>" then root_document
  else if String.eqb data "<package>LPC1700</package>"
       then document [device_full; device_no_algorithm_name]
  else if String.eqb data "<package>STM32F4</package>"
       then document [mkTag "device" {["dname" := VStr "STM32F407"]} [memory_tag]]
  else if String.eqb data "<package>NoDname</package>" then document [device_no_dname]
  else if String.eqb data "<package>Multi</package>" then document [device_list_algorithm]
  else mkTag "[document]" ∅ [].

Definition demo_network (curl : Curl) : Response :=
  match URL curl with
  | Some u =>
      if String.eqb u RootPackURL
      then mkResponse "<index><pdsc Keil.LPC1700_DFP/></index>" None
      else if String.eqb u url_lpc then mkResponse "<package>LPC1700</package>" None
      else if String.eqb u url_stm then mkResponse "<package>STM32F4</package>" None
      else mkResponse "" (Some "(6, 'Could not resolve host')")
  | None => mkResponse "" (Some "(3, 'No URL set')")
  end.

(** An empty cache on a disk that accepts every write. *)
Definition demo_world : World :=
  mkWorld ∅ (fun _ => None) (fun _ => None) demo_network "" "".

Definition demo_dump (i : gmap string (gmap string Field)) : string :=
  "{" ++ String.concat ", " (map_to_list i).*1 ++ "}".
Definition demo_load (data : string) : result (gmap string (gmap string Field)) :=
  if String.eqb data "{}" then Ok ∅ else Raise (ValueError "No JSON object could be decoded").

Fixpoint common_prefix (a b : string) : nat :=
  match a, b with
  | String x a', String y b' => if (x =? y)%char then S (common_prefix a' b') else O
  | _, _ => O
  end.
(** A stand-in scorer: 100 for an exact match, else 10 per common leading
    character, at most 90. *)
Definition demo_scorer (query choice : string) : Z :=
  if String.eqb query choice then 100
  else Z.min 90 (10 * Z.of_nat (common_prefix query choice)).

(** The record of the LPC1768, as in the docstring of [index]. *)
Definition lpc1768_record : gmap string Field :=
  <["compile" := FCompile (VStr "Device/Include/LPC17xx.h") (VStr "LPC175x_6x")]>
  (<["debug" := FAttr (VStr "SVD/LPC176x5x.svd")]>
  (<["algorithm" := FStr "Flash/LPC_IAP_512.FLM"]>
  (<["memory" := FMemory {["IROM1" := {["start" := VStr "0x00000000"; "size" := VStr "0x80000"]}]}]>
  {["file" := FStr url_lpc]}))).

(** A world in which three descriptors are cached: one whose device has a
    list-valued algorithm name, one whose device has no [Dname], and a
    well-formed one. *)
Definition demo_cached : World :=
  set_fs (<[cache_path demo_home url_multi := "<package>Multi</package>"]>
          (<[cache_path demo_home url_nodname := "<package>NoDname</package>"]>
           (<[cache_path demo_home url_lpc := "<package>LPC1700</package>"]> ∅)))
    demo_world.

Definition demo_index : gmap string (gmap string Field) :=
  {["LPC1768" := lpc1768_record;
    "LPC1769" := {["file" := FStr url_lpc]};
    "STM32F407" := {["file" := FStr url_stm]}]}.

Definition demo_cache : Cache := set_index demo_index (Cache_init true false).

(** ** Further worlds and documents *)

(** A disk on which no file can be opened for writing (errno 13, EACCES). *)
Definition demo_readonly : World :=
  mkWorld ∅ (fun _ => None) (fun _ => Some 13) demo_network "" "".

(** A network that is down. *)
Definition demo_offline : World :=
  set_network (fun _ => mkResponse "" (Some "(7, 'Failed to connect')")) demo_world.

(** A root index whose second entry has no [name]. *)
Definition root_document_no_name : Tag :=
  mkTag "[document]" ∅
    [mkTag "index" ∅
       [mkTag "pdsc" {["url" := VStr "http://www.keil.com/pack/";
                       "name" := VStr "Keil.LPC1700_DFP.pdsc"]} [];
        mkTag "pdsc" {["url" := VStr "http://www.keil.com/pack/"]} []]].

(** The index the two devices of the LPC1700 descriptor give. *)
Definition demo_lpc_index : gmap string (gmap string Field) :=
  {["LPC1768" := lpc1768_record;
    "LPC1769" := <["memory" := FMemory {["IROM1" := {["start" := VStr "0x00000000";
                                                      "size" := VStr "0x80000"]}]}]>
                 {["file" := FStr url_lpc]}]}.

(** A [load] that reads back what [demo_dump] writes for that index. *)
Definition demo_load_lpc (data : string) : result (gmap string (gmap string Field)) :=
  if String.eqb data "{LPC1769, LPC1768}" then Ok demo_lpc_index else demo_load data.

(** A descriptor with the elements [pdsc_to_pack] reads, and three
    releases. *)
Definition release_tag (version : string) : Tag :=
  mkTag "release" {["version" := VStr version]} [text_node "Release notes."].

Definition pack_document (releases : list Tag) : Tag :=
  mkTag "[document]" ∅
    [mkTag "package" ∅
       [mkTag "vendor" ∅ [text_node "Keil"];
        mkTag "name" ∅ [text_node "LPC1700_DFP"];
        mkTag "url" ∅ [text_node "http://www.keil.com/pack"];
        mkTag "releases" ∅ releases;
        mkTag "devices" ∅ [device_full]]].

Definition demo_releases : list Tag :=
  [release_tag "9.0.0"; release_tag "10.0.0"; release_tag "1.2.3"].

Definition url_lpc_pack : string := "http://www.keil.com/pack/Keil.LPC1700_DFP.9.0.0.pack".

(** A second descriptor that defines the LPC1768, with its memory only. *)
Definition url_lpc_old : string := "http://www.keil.com/pack/Keil.LPC1700_old.pdsc".

Definition demo_pack_soup (data : string) : Tag :=
  if String.eqb data "<package>Keil.LPC1700_DFP</package>" then pack_document demo_releases
  else if String.eqb data "<package>no release</package>" then pack_document []
  else if String.eqb data "<package>LPC1700 old</package>"
       then document [mkTag "device" {["dname" := VStr "LPC1768"]} [memory_tag]]
  else demo_soup data.

Definition demo_pack_network (curl : Curl) : Response :=
  match URL curl with
  | Some u =>
      if String.eqb u url_lpc then mkResponse "<package>Keil.LPC1700_DFP</package>" None
      else if String.eqb u url_stm then mkResponse "<package>no release</package>" None
      else if String.eqb u url_lpc_pack then mkResponse "PK" None
      else demo_network curl
  | None => demo_network curl
  end.

Definition demo_pack_world : World := set_network demo_pack_network demo_world.

(** A cache that holds the two descriptors of the LPC1768. *)
Definition demo_cached_twice : World :=
  set_fs (<[cache_path demo_home url_lpc_old := "<package>LPC1700 old</package>"]>
          (<[cache_path demo_home url_lpc := "<package>LPC1700</package>"]> ∅))
    demo_world.





(** * Properties *)

(** ** [strip_protocol] *)

Lemma skip_word_length (s : string) :
  (String.length (skip_word s) <= String.length s)%nat.
Proof.
  induction s as [|c s IH]; simpl; [lia|].
  destruct (is_word c); simpl; lia.
Qed.

Lemma match_protocol_length (s r : string) :
  match_protocol s = Some r -> (String.length r < String.length s)%nat.
Proof.
  unfold match_protocol. intros H.
  pose proof (skip_word_length s) as L.
  destruct (skip_word s) as [|a [|b [|c t]]]; try discriminate.
  destruct (_ && _)%bool; [|discriminate].
  injection H as <-. simpl in L. lia.
Qed.

Lemma sub_protocol_cons (c : ascii) (s' : string) :
  sub_protocol (String c s') =
  match match_protocol (String c s') with
  | Some r => sub_protocol r
  | None => String c (sub_protocol s')
  end.
Proof.
  simp sub_protocol.
  set (x := inspect _).
  change (match_protocol (String c s')) with (proj1_sig x) at 1.
  clearbody x. destruct x as [[r|] e]; simpl; reflexivity.
Qed.

Lemma match_protocol_word (c : ascii) (s : string) :
  is_word c = true -> match_protocol (String c s) = match_protocol s.
Proof. intros H. unfold match_protocol. simpl. rewrite H. reflexivity. Qed.

Lemma match_protocol_nonword (c : ascii) (s : string) :
  is_word c = false ->
  match_protocol (String c s) =
  match s with
  | String b (String d r) =>
      if ((c =? ":")%char && (b =? "/")%char && (d =? "/")%char)%bool then Some r else None
  | _ => None
  end.
Proof. intros H. unfold match_protocol. simpl. rewrite H. reflexivity. Qed.

Lemma contains_cons (pat : string) (c : ascii) (s : string) :
  contains pat s = true -> contains pat (String c s) = true.
Proof. intros H. simpl. rewrite H. apply orb_true_r. Qed.

(** What follows a match is a suffix of the input. *)
Lemma match_protocol_suffix (pat s r : string) :
  match_protocol s = Some r -> contains pat r = true -> contains pat s = true.
Proof.
  induction s as [|c s IH]; [discriminate|].
  destruct (is_word c) eqn:W.
  - rewrite match_protocol_word by exact W. intros H1 H2.
    apply contains_cons. auto.
  - rewrite match_protocol_nonword by exact W.
    destruct s as [|b [|d t]]; try discriminate.
    destruct (_ && _)%bool; [|discriminate].
    intros [= <-] H. do 3 apply contains_cons. exact H.
Qed.

Lemma ascii_eqb_true (a b : ascii) : (a =? b)%char = true -> a = b.
Proof. apply Ascii.eqb_eq. Qed.

(** A match contains the separator, ... *)
Lemma match_protocol_contains (s r : string) :
  match_protocol s = Some r -> contains "://" s = true.
Proof.
  induction s as [|c s IH]; [discriminate|].
  destruct (is_word c) eqn:W.
  - rewrite match_protocol_word by exact W. intros H.
    apply contains_cons. auto.
  - rewrite match_protocol_nonword by exact W.
    destruct s as [|b [|d t]]; try discriminate.
    destruct (c =? ":")%char eqn:E1; [|discriminate].
    destruct (b =? "/")%char eqn:E2; [|discriminate].
    destruct (d =? "/")%char eqn:E3; [|discriminate].
    apply ascii_eqb_true in E1, E2, E3. subst. intros _. reflexivity.
Qed.

(** ... and a match followed by a slash contains [":///"]. *)
Lemma match_protocol_then_slash (s r : string) :
  match_protocol s = Some r -> starts_with_slash r = true -> contains ":///" s = true.
Proof.
  induction s as [|c s IH]; [discriminate|].
  destruct (is_word c) eqn:W.
  - rewrite match_protocol_word by exact W. intros H1 H2.
    apply contains_cons. auto.
  - rewrite match_protocol_nonword by exact W.
    destruct s as [|b [|d t]]; try discriminate.
    destruct (c =? ":")%char eqn:E1; [|discriminate].
    destruct (b =? "/")%char eqn:E2; [|discriminate].
    destruct (d =? "/")%char eqn:E3; [|discriminate].
    apply ascii_eqb_true in E1, E2, E3. subst. intros [= <-] H.
    destruct t as [|e t]; [discriminate|]. simpl in H.
    apply ascii_eqb_true in H. subst. reflexivity.
Qed.

(** A string that starts with the separator matches at once. *)
Lemma prefix_sep_match (s : string) :
  startswith "://" s = true -> exists r, match_protocol s = Some r.
Proof.
  destruct s as [|a [|b [|c r]]]; cbn [startswith]; intros H;
    repeat (apply andb_true_iff in H as [? H]); try discriminate.
  repeat match goal with E : (_ =? _)%char = true |- _ => apply ascii_eqb_true in E end.
  subst. exists r. reflexivity.
Qed.

Lemma sub_protocol_no_separator (s : string) :
  contains "://" s = false -> sub_protocol s = s.
Proof.
  induction s as [|c s IH]; [reflexivity|].
  intros H. rewrite sub_protocol_cons.
  destruct (match_protocol (String c s)) as [r|] eqn:E.
  - apply match_protocol_contains in E. congruence.
  - simpl in H. apply orb_false_elim in H as [_ H]. rewrite IH by exact H. reflexivity.
Qed.

Lemma sub_protocol_length (n : nat) :
  forall s, (String.length s <= n)%nat -> (String.length (sub_protocol s) <= String.length s)%nat.
Proof.
  induction n as [|n IH]; intros [|c s] L; simpl in L; try lia; try reflexivity.
  rewrite sub_protocol_cons.
  destruct (match_protocol (String c s)) as [r|] eqn:E.
  - apply match_protocol_length in E. simpl in E.
    specialize (IH r ltac:(lia)). simpl. lia.
  - specialize (IH s ltac:(lia)). simpl. lia.
Qed.

Lemma sub_protocol_separator_shrinks (s : string) :
  contains "://" s = true -> (String.length (sub_protocol s) < String.length s)%nat.
Proof.
  induction s as [|c s IH]; [discriminate|].
  intros H. rewrite sub_protocol_cons.
  destruct (match_protocol (String c s)) as [r|] eqn:E.
  - pose proof (match_protocol_length _ _ E) as L.
    pose proof (sub_protocol_length _ r (Nat.le_refl _)). lia.
  - change (contains "://" (String c s))
      with (startswith "://" (String c s) || contains "://" s)%bool in H.
    apply orb_true_iff in H as [H|H].
    + apply prefix_sep_match in H as [r H]. congruence.
    + specialize (IH H). simpl. lia.
Qed.

(** A second application changes the result exactly when the first
    result still contains a separator. *)
Lemma strip_protocol_twice_iff (s : string) :
  strip_protocol (strip_protocol s) = strip_protocol s <->
  contains "://" (strip_protocol s) = false.
Proof.
  unfold strip_protocol. split.
  - intros H. destruct (contains "://" (sub_protocol s)) eqn:E; [|reflexivity].
    apply sub_protocol_separator_shrinks in E. rewrite H in E. lia.
  - apply sub_protocol_no_separator.
Qed.

(** When the text after a match is stripped to something that starts
    with a slash, a match in the input is directly followed by a slash. *)
Lemma sub_protocol_slash_after_match (n : nat) :
  forall s r, (String.length s <= n)%nat ->
    match_protocol s = Some r ->
    starts_with_slash (sub_protocol r) = true ->
    contains ":///" s = true.
Proof.
  induction n as [|n IH]; intros s r L E H.
  - destruct s; [discriminate|simpl in L; lia].
  - pose proof (match_protocol_length _ _ E) as Lr.
    destruct r as [|c r']; [discriminate|].
    rewrite sub_protocol_cons in H.
    destruct (match_protocol (String c r')) as [r2|] eqn:E2.
    + apply (match_protocol_suffix _ _ _ E).
      apply (IH _ r2); [lia|exact E2|exact H].
    + apply (match_protocol_then_slash _ _ E). exact H.
Qed.

Lemma startswith_sep_cons (c : ascii) (s : string) :
  startswith "://" (String c s) = true -> c = ":"%char /\ startswith "//" s = true.
Proof.
  cbn [startswith]. intros H. apply andb_true_iff in H as [H1 H2].
  apply ascii_eqb_true in H1. subst. split; [reflexivity|exact H2].
Qed.

(** The only way for the output to contain a separator is to be glued
    together from the text before a match and a slash after it. *)
Lemma sub_protocol_keeps_no_separator (n : nat) :
  forall s, (String.length s <= n)%nat ->
    contains ":///" s = false -> contains "://" (sub_protocol s) = false.
Proof.
  induction n as [|n IH]; intros [|c s] L H; try reflexivity; simpl in L; try lia.
  assert (Hs : contains ":///" s = false).
  { destruct (contains ":///" s) eqn:E; [|reflexivity].
    rewrite (contains_cons _ c _ E) in H. discriminate. }
  rewrite sub_protocol_cons.
  destruct (match_protocol (String c s)) as [r|] eqn:E.
  - pose proof (match_protocol_length _ _ E) as Lr. simpl in Lr.
    apply IH; [lia|].
    destruct (contains ":///" r) eqn:Er; [|reflexivity].
    rewrite (match_protocol_suffix _ _ _ E Er) in H. discriminate.
  - change (contains "://" (String c (sub_protocol s)))
      with (startswith "://" (String c (sub_protocol s)) || contains "://" (sub_protocol s))%bool.
    rewrite (IH s ltac:(lia) Hs), orb_false_r.
    destruct (startswith "://" (String c (sub_protocol s))) eqn:P; [exfalso|reflexivity].
    apply startswith_sep_cons in P as [-> P].
    (* the output after [:] starts with two slashes *)
    destruct s as [|c1 s1]; [discriminate|].
    rewrite sub_protocol_cons in P.
    destruct (match_protocol (String c1 s1)) as [r1|] eqn:E1.
    { assert (S1 : starts_with_slash (sub_protocol r1) = true).
      { destruct (sub_protocol r1); [discriminate|].
        cbn [startswith] in P. apply andb_true_iff in P as [P _].
        rewrite Ascii.eqb_sym in P. exact P. }
      rewrite (sub_protocol_slash_after_match _ _ _ (Nat.le_refl _) E1 S1) in Hs.
      discriminate. }
    cbn [startswith] in P. apply andb_true_iff in P as [P1 P].
    apply ascii_eqb_true in P1. subst c1.
    destruct s1 as [|c2 s2]; [discriminate|].
    rewrite sub_protocol_cons in P.
    destruct (match_protocol (String c2 s2)) as [r2|] eqn:E2.
    { assert (S2 : starts_with_slash (sub_protocol r2) = true).
      { destruct (sub_protocol r2); [discriminate|].
        cbn [startswith] in P. apply andb_true_iff in P as [P _].
        rewrite Ascii.eqb_sym in P. exact P. }
      pose proof (sub_protocol_slash_after_match _ _ _ (Nat.le_refl _) E2 S2) as C.
      rewrite (contains_cons _ "/" _ C) in Hs. discriminate. }
    cbn [startswith] in P. apply andb_true_iff in P as [P2 _].
    apply ascii_eqb_true in P2. subst c2.
    discriminate E.
Qed.

(** ** [cache_file] *)

Section CacheFile.
Variable xdg_data_home : string.

Lemma string_app_nil_r (s : string) : s ++ "" = s.
Proof.
  induction s as [|a s IH]; [reflexivity|].
  change (String a (s ++ "") = String a s). f_equal. exact IH.
Qed.

Lemma string_app_assoc (a b c : string) : (a ++ b) ++ c = a ++ (b ++ c).
Proof.
  induction a as [|x a IH]; [reflexivity|].
  change (String x ((a ++ b) ++ c) = String x (a ++ (b ++ c))). f_equal. exact IH.
Qed.

(** One call of [cache_file], when the file can be created: the state
    afterwards, whether or not the download failed. *)
Lemma cache_file_run (c : Cache) (w : World) (curl : Curl) (url : string) :
  can_write w (cache_path xdg_data_home url) ->
  let curl' := curl_options xdg_data_home c curl url in
  let resp := network w curl' in
  cache_file xdg_data_home curl url (c, w) =
    (Ok curl',
     (set_counter (counter c + 1) c,
      mkWorld (<[cache_path xdg_data_home url := body resp]> (fs w))
        (makedirs_errno w) (open_wb_errno w) (network w)
        (stdout w ++ cache_file_stdout c url)
        (stderr w ++ cache_file_stderr url resp))).
Proof.
  intros [Hmk Hop]. unfold cache_file, cache_path in *.
  set (dest := join (save_data_path xdg_data_home "arm-pack-manager") (strip_protocol url)) in *.
  unfold curl_options, cache_file_stdout, cache_file_stderr, cache_path. fold dest.
  destruct c as [sil cnt tot idx us nt]; destruct w as [f mk op net out err]; simpl in *.
  cbv beta iota delta [bind try_except makedirs open_wb file_write print stdout_write
    stderr_write display_counter update_self update_world self world modify ret raise
    fst snd negb makedirs_errno open_wb_errno fs stdout stderr network set_fs set_stdout
    set_stderr set_counter counter total silent no_timeouts _index urls].
  destruct sil; destruct Hmk as [-> | ->];
    cbv beta iota delta [Z.eqb EEXIST Pos.eqb]; rewrite Hop; cbv beta iota;
    rewrite lookup_insert_eq, insert_insert_eq; cbv beta iota delta [default id].
  all: destruct nt; cbv beta iota.
  all: destruct (error (net _)); cbv beta iota.
  all: rewrite ?string_app_nil_r, ?string_app_assoc.
  all: reflexivity.
Qed.

(** When the operating system refuses to create the file, [cache_file]
    raises and downloads nothing. *)
Lemma cache_file_open_fails (c : Cache) (w : World) (curl : Curl) (url : string) (errno : Z) :
  makedirs_errno w (dirname (cache_path xdg_data_home url)) = None ->
  open_wb_errno w (cache_path xdg_data_home url) = Some errno ->
  fst (cache_file xdg_data_home curl url (c, w)) = Raise (IOError errno (cache_path xdg_data_home url))
  /\ fs (snd (snd (cache_file xdg_data_home curl url (c, w)))) = fs w.
Proof.
  intros Hmk Hop. unfold cache_file, cache_path in *.
  set (dest := join (save_data_path xdg_data_home "arm-pack-manager") (strip_protocol url)) in *.
  destruct c as [sil cnt tot idx us nt]; destruct w as [f mk op net out err]; simpl in *.
  cbv beta iota delta [bind try_except makedirs open_wb file_write print stdout_write
    stderr_write display_counter update_self update_world self world modify ret raise
    fst snd negb makedirs_errno open_wb_errno fs stdout stderr network set_fs set_stdout
    set_stderr set_counter counter total silent no_timeouts _index urls].
  destruct sil; rewrite Hmk; cbv beta iota; rewrite Hop; split; reflexivity.
Qed.
End CacheFile.

(** ** [_extract_dict] *)

Lemma map_result_exn {A B} (f : A -> result B) (P : Exn -> Prop) (l : list A) (e : Exn) :
  (forall x e, f x = Raise e -> P e) -> map_result f l = Raise e -> P e.
Proof.
  intros Hf. induction l as [|x l IH]; simpl; [discriminate|].
  destruct (f x) as [y|e'] eqn:E.
  - destruct (map_result f l); [discriminate|]. intros [= <-]. auto.
  - intros [= <-]. eauto.
Qed.

Lemma getitem_exn (t : Tag) (k : string) (e : Exn) :
  getitem t k = Raise e -> is_KeyError e = true.
Proof. unfold getitem. destruct (attrs t !! k); [discriminate|]. intros [= <-]. reflexivity. Qed.

Lemma getitem_opt_exn (t : option Tag) (k : string) (e : Exn) :
  getitem_opt t k = Raise e -> is_KeyError_or_TypeError e = true.
Proof.
  destruct t as [t|]; simpl.
  - intros H. apply getitem_exn in H. unfold is_KeyError_or_TypeError. rewrite H. reflexivity.
  - intros [= <-]. reflexivity.
Qed.

Lemma dict_from_exn {V} (pairs : list (AttrVal * V)) (acc : gmap string V) (e : Exn) :
  dict_from acc pairs = Raise e -> is_TypeError e = true.
Proof.
  revert acc. induction pairs as [|[[k|l] v] ps IH]; intros acc; simpl.
  - discriminate.
  - apply IH.
  - intros [= <-]. reflexivity.
Qed.

(** Reading the memory regions, the debug file or the compile pair fails
    only with the classes [_extract_dict] catches. *)
Lemma memory_of_exn (device : Tag) (e : Exn) :
  memory_of device = Raise e -> is_KeyError_or_TypeError e = true.
Proof.
  unfold memory_of, rbind. destruct (map_result _ _) as [pairs|e'] eqn:E.
  - intros H. apply dict_from_exn in H. unfold is_KeyError_or_TypeError.
    rewrite H. apply orb_true_r.
  - intros [= <-]. revert E.
    apply (map_result_exn _ (fun e => is_KeyError_or_TypeError e = true)). clear. intros m e.
    unfold rbind.
    destruct (getitem m "id") eqn:E1;
      [|intros [= <-]; apply getitem_exn in E1; unfold is_KeyError_or_TypeError; rewrite E1; reflexivity].
    destruct (getitem m "start") eqn:E2;
      [|intros [= <-]; apply getitem_exn in E2; unfold is_KeyError_or_TypeError; rewrite E2; reflexivity].
    destruct (getitem m "size") eqn:E3;
      [|intros [= <-]; apply getitem_exn in E3; unfold is_KeyError_or_TypeError; rewrite E3; reflexivity].
    discriminate.
Qed.

Lemma debug_of_exn (device : Tag) (e : Exn) :
  debug_of device = Raise e -> is_KeyError_or_TypeError e = true.
Proof. apply getitem_opt_exn. Qed.

Lemma compile_of_exn (device : Tag) (e : Exn) :
  compile_of device = Raise e -> is_KeyError_or_TypeError e = true.
Proof.
  unfold compile_of, rbind.
  destruct (getitem_opt _ "header") eqn:E1; [|intros [= <-]; exact (getitem_opt_exn _ _ _ E1)].
  destruct (getitem_opt _ "define") eqn:E2; [|intros [= <-]; exact (getitem_opt_exn _ _ _ E2)].
  discriminate.
Qed.

(** The algorithm name can also be a list, which has no [replace]. *)
Lemma algorithm_of_exn (device : Tag) (e : Exn) :
  algorithm_of device = Raise e ->
  is_KeyError_or_TypeError e = true \/ is_AttributeError e = true.
Proof.
  unfold algorithm_of, rbind.
  destruct (getitem_opt _ "name") as [[s|l]|e'] eqn:E1; simpl.
  - discriminate.
  - intros [= <-]. right. reflexivity.
  - intros [= <-]. left. exact (getitem_opt_exn _ _ _ E1).
Qed.

(** [_extract_dict], stage by stage: each assignment is kept once made,
    and the first stage that fails ends the [try] block. *)
Lemma extract_dict_stages (device : Tag) (filename : string) :
  _extract_dict device filename =
  let r0 : gmap string Field := {["file" := FStr filename]} in
  match memory_of device with
  | Raise e => if is_KeyError_or_TypeError e then Ok r0 else Raise e
  | Ok m =>
      let r1 := <["memory" := FMemory m]> r0 in
      match algorithm_of device with
      | Raise e => if is_KeyError_or_TypeError e then Ok r1 else Raise e
      | Ok a =>
          let r2 := <["algorithm" := FStr a]> r1 in
          match debug_of device with
          | Raise e => if is_KeyError_or_TypeError e then Ok r2 else Raise e
          | Ok d =>
              let r3 := <["debug" := FAttr d]> r2 in
              match compile_of device with
              | Raise e => if is_KeyError_or_TypeError e then Ok r3 else Raise e
              | Ok cp => Ok (<["compile" := cp]> r3)
              end
          end
      end
  end.
Proof.
  unfold _extract_dict, extract_fields, try_except, bind, lift, modify, ret.
  destruct (memory_of device) as [m|e]; [|destruct (is_KeyError_or_TypeError e); reflexivity].
  destruct (algorithm_of device) as [a|e]; [|destruct (is_KeyError_or_TypeError e); reflexivity].
  destruct (debug_of device) as [d|e]; [|destruct (is_KeyError_or_TypeError e); reflexivity].
  destruct (compile_of device) as [cp|e]; [|destruct (is_KeyError_or_TypeError e); reflexivity].
  reflexivity.
Qed.

Ltac stage_exn :=
  match goal with
  | E : memory_of _ = Raise ?e, C : is_KeyError_or_TypeError ?e = false |- _ =>
      rewrite (memory_of_exn _ _ E) in C; discriminate
  | E : debug_of _ = Raise ?e, C : is_KeyError_or_TypeError ?e = false |- _ =>
      rewrite (debug_of_exn _ _ E) in C; discriminate
  | E : compile_of _ = Raise ?e, C : is_KeyError_or_TypeError ?e = false |- _ =>
      rewrite (compile_of_exn _ _ E) in C; discriminate
  end.

Ltac record_goal :=
  intros; simplify_map_eq; try done;
  try (match goal with H : is_Some None |- _ => by apply is_Some_None in H end);
  try set_solver.

(** C4 (as amended).  A missing attribute or child element never makes
    [_extract_dict] raise: the only exception that escapes is the
    [AttributeError] of a list-valued algorithm name.  The record returned
    always holds [file]; it holds [memory], [algorithm], [debug] and
    [compile] exactly up to the first of them that cannot be read, so it
    holds [file] alone exactly when the memory regions cannot be read. *)
Theorem extract_dict_partial_record (device : Tag) (filename : string) :
  (forall e, _extract_dict device filename = Raise e ->
     is_AttributeError e = true /\ algorithm_of device = Raise e)
  /\ (forall r, _extract_dict device filename = Ok r ->
        r !! "file" = Some (FStr filename)
        /\ (is_Some (r !! "memory") <-> is_ok (memory_of device) = true)
        /\ (is_Some (r !! "algorithm") <->
            is_ok (memory_of device) && is_ok (algorithm_of device) = true)
        /\ (is_Some (r !! "debug") <->
            is_ok (memory_of device) && is_ok (algorithm_of device)
            && is_ok (debug_of device) = true)
        /\ (is_Some (r !! "compile") <->
            is_ok (memory_of device) && is_ok (algorithm_of device)
            && is_ok (debug_of device) && is_ok (compile_of device) = true)
        /\ dom r ⊆ {["file"; "memory"; "algorithm"; "debug"; "compile"]}
        /\ (dom r = {["file"]} <-> is_ok (memory_of device) = false)).
Proof.
  rewrite extract_dict_stages. cbv zeta. split.
  - intros e.
    destruct (memory_of device) as [m|e1] eqn:E1;
      [|destruct (is_KeyError_or_TypeError e1) eqn:C; [discriminate|stage_exn]].
    destruct (algorithm_of device) as [a|e2] eqn:E2.
    + destruct (debug_of device) as [d|e3] eqn:E3;
        [|destruct (is_KeyError_or_TypeError e3) eqn:C; [discriminate|stage_exn]].
      destruct (compile_of device) as [cp|e4] eqn:E4;
        [discriminate|destruct (is_KeyError_or_TypeError e4) eqn:C; [discriminate|stage_exn]].
    + destruct (is_KeyError_or_TypeError e2) eqn:C; [discriminate|].
      intros [= <-]. split; [|reflexivity].
      destruct (algorithm_of_exn _ _ E2) as [H|H]; [congruence|exact H].
  - intros r.
    destruct (memory_of device) as [m|e1] eqn:E1; simpl.
    2:{ destruct (is_KeyError_or_TypeError e1); [|discriminate]. intros [= <-].
        rewrite dom_singleton_L.
        repeat split; record_goal. }
    destruct (algorithm_of device) as [a|e2] eqn:E2; simpl.
    2:{ destruct (is_KeyError_or_TypeError e2); [|discriminate]. intros [= <-].
        rewrite !dom_insert_L, dom_singleton_L.
        repeat split; record_goal. }
    destruct (debug_of device) as [d|e3] eqn:E3; simpl.
    2:{ destruct (is_KeyError_or_TypeError e3); [|discriminate]. intros [= <-].
        rewrite !dom_insert_L, dom_singleton_L.
        repeat split; record_goal. }
    destruct (compile_of device) as [cp|e4] eqn:E4; simpl.
    2:{ destruct (is_KeyError_or_TypeError e4); [|discriminate]. intros [= <-].
        rewrite !dom_insert_L, dom_singleton_L.
        repeat split; record_goal. }
    intros [= <-]. rewrite !dom_insert_L, dom_singleton_L.
    repeat split; record_goal.
Qed.

(** ** [pull_from_cache] and [_generate_index_helper] *)

Ltac run_methods :=
  cbv beta iota delta [bind try_except makedirs open_wb open_read file_write print stdout_write
    stderr_write display_counter update_self update_world self world modify ret raise lift
    fst snd negb makedirs_errno open_wb_errno fs stdout stderr network set_fs set_stdout
    set_stderr set_counter set_index set_urls set_total counter total silent no_timeouts
    _index urls].

Section Helper.
Variable xdg_data_home : string.
Variable BeautifulSoup : string -> Tag.

Lemma pull_from_cache_hit (c : Cache) (w : World) (url data : string) :
  fs w !! cache_path xdg_data_home url = Some data ->
  pull_from_cache xdg_data_home BeautifulSoup url (c, w) = (Ok (BeautifulSoup data), (c, w)).
Proof.
  intros H. unfold pull_from_cache, cache_path in *.
  destruct c, w; simpl in H. run_methods. rewrite H. reflexivity.
Qed.

Lemma pull_from_cache_miss (c : Cache) (w : World) (url : string) :
  fs w !! cache_path xdg_data_home url = None ->
  pull_from_cache xdg_data_home BeautifulSoup url (c, w) =
    (Raise (IOError ENOENT (cache_path xdg_data_home url)), (c, w)).
Proof.
  intros H. unfold pull_from_cache, cache_path in *.
  destruct c, w; simpl in H. run_methods. rewrite H. reflexivity.
Qed.

(** One call of the helper on a descriptor that is in the cache. *)
Lemma helper_run (c : Cache) (w : World) (d data : string) :
  fs w !! cache_path xdg_data_home d = Some data ->
  _generate_index_helper xdg_data_home BeautifulSoup d (c, w) =
  match descriptor_devices (BeautifulSoup data) d with
  | Ok new =>
      (Ok tt, (set_counter (counter c + 1) (set_index (new ∪ _index c) c),
               set_stdout (stdout w ++ helper_progress c) w))
  | Raise e =>
      if is_AttributeError e
      then (Ok tt, (set_counter (counter c + 1) c,
                    set_stdout ((stdout w ++ str_exn e ++ LF) ++ helper_progress c) w))
      else (Raise e, (c, w))
  end.
Proof.
  intros H. unfold _generate_index_helper.
  unfold bind at 1. unfold try_except. unfold bind at 1.
  rewrite (pull_from_cache_hit _ _ _ _ H).
  unfold helper_progress. destruct c, w. run_methods.
  destruct (descriptor_devices (BeautifulSoup data) d) as [new|e].
  - reflexivity.
  - destruct (is_AttributeError e); reflexivity.
Qed.

(** The helper on a descriptor that is not in the cache: the [IOError]
    is no [AttributeError], so it escapes, before anything is changed. *)
Lemma helper_miss (c : Cache) (w : World) (d : string) :
  fs w !! cache_path xdg_data_home d = None ->
  _generate_index_helper xdg_data_home BeautifulSoup d (c, w) =
    (Raise (IOError ENOENT (cache_path xdg_data_home d)), (c, w)).
Proof.
  intros H. unfold _generate_index_helper.
  unfold bind at 1. unfold try_except. unfold bind at 1.
  rewrite (pull_from_cache_miss _ _ _ H). reflexivity.
Qed.
End Helper.

(** ** [get_urls] and [generate_index] *)

Lemma same_env_refl (w : World) : same_env w w.
Proof. repeat split. Qed.

Lemma same_env_trans (w1 w2 w3 : World) : same_env w1 w2 -> same_env w2 w3 -> same_env w1 w3.
Proof. unfold same_env. intros (-> & -> & ->) (-> & -> & ->). repeat split. Qed.

Lemma string_app_inv_head (p a b : string) : p ++ a = p ++ b -> a = b.
Proof.
  induction p as [|x p IH]; [exact (fun H => H)|].
  change (String x (p ++ a) = String x (p ++ b) -> a = b).
  intros [= H]. auto.
Qed.

(** Two relative names under the same directory give different paths. *)
Lemma join_relative_inj (dir a b : string) :
  starts_with_slash a = false -> starts_with_slash b = false ->
  join dir a = join dir b -> a = b.
Proof.
  unfold join. intros -> ->.
  destruct (_ || _)%bool; intros H.
  - exact (string_app_inv_head _ _ _ H).
  - apply string_app_inv_head in H. exact (string_app_inv_head "/" _ _ H).
Qed.

Section GenerateIndex.
Variable xdg_data_home : string.
Variable BeautifulSoup : string -> Tag.
Variable dump : gmap string (gmap string Field) -> string.

(** The root index is never cached under the path of the snapshot. *)
Lemma root_path_not_index_path :
  cache_path xdg_data_home RootPackURL <> index_path xdg_data_home.
Proof.
  unfold cache_path, index_path. intros H.
  apply join_relative_inj in H; [discriminate H|reflexivity|reflexivity].
Qed.

(** [get_urls] when the list is already known. *)
Lemma get_urls_known (c : Cache) (w : World) (u : string) (us : list string) :
  urls c = Some (u :: us) ->
  get_urls xdg_data_home BeautifulSoup (c, w) = (Ok (u :: us), (c, w)).
Proof.
  intros H. unfold get_urls. unfold bind at 1. unfold self. simpl. rewrite H. reflexivity.
Qed.

(** [get_urls] when the list is not known and the root index is cached. *)
Lemma get_urls_cached (c : Cache) (w : World) (data : string) :
  (urls c = None \/ urls c = Some []) ->
  fs w !! cache_path xdg_data_home RootPackURL = Some data ->
  get_urls xdg_data_home BeautifulSoup (c, w) =
  match pdsc_urls (BeautifulSoup data) with
  | Ok l => (Ok l, (set_urls l c, w))
  | Raise e => (Raise e, (c, w))
  end.
Proof.
  intros Hu H. unfold get_urls. unfold bind at 1. unfold self. simpl.
  assert (E : forall k : M St (list string),
             match urls c with Some (u :: us) => ret (u :: us) | _ => k end = k).
  { intros k. destruct Hu as [-> | ->]; reflexivity. }
  rewrite E. unfold bind at 1. unfold try_except.
  rewrite (pull_from_cache_hit _ _ _ _ _ _ H).
  unfold bind, lift, update_self, modify, ret. simpl.
  destruct (pdsc_urls (BeautifulSoup data)); reflexivity.
Qed.

(** [cache_file] returns only when the file could be created. *)
Lemma cache_file_ok_inv (c : Cache) (w : World) (curl curl' : Curl) (url : string) (s : St) :
  cache_file xdg_data_home curl url (c, w) = (Ok curl', s) ->
  can_write w (cache_path xdg_data_home url).
Proof.
  unfold can_write, cache_file, cache_path.
  set (dest := join (save_data_path xdg_data_home "arm-pack-manager") (strip_protocol url)).
  destruct c as [sil cnt tot idx us nt]; destruct w as [f mk op net out err].
  run_methods.
  destruct (op dest) as [eo|] eqn:Eo; destruct (mk (dirname dest)) as [em|] eqn:Em.
  - destruct sil; cbv beta iota; rewrite Em; cbv beta iota;
      destruct (em =? EEXIST); cbv beta iota; try rewrite Eo; discriminate.
  - destruct sil; cbv beta iota; rewrite Em, Eo; discriminate.
  - destruct (em =? EEXIST) eqn:E.
    + apply Z.eqb_eq in E. subst. intros _. split; [right|]; reflexivity.
    + destruct sil; cbv beta iota; rewrite Em; cbv beta iota; rewrite E; discriminate.
  - intros _. split; [left|]; reflexivity.
Qed.

(** [get_urls] when the list is not known and the root index is not
    cached: it is downloaded first. *)
Lemma get_urls_fetched (c : Cache) (w : World) :
  (urls c = None \/ urls c = Some []) ->
  fs w !! cache_path xdg_data_home RootPackURL = None ->
  can_write w (cache_path xdg_data_home RootPackURL) ->
  let resp := network w (curl_options xdg_data_home c new_Curl RootPackURL) in
  let c' := set_counter (counter c + 1) c in
  let w' := mkWorld (<[cache_path xdg_data_home RootPackURL := body resp]> (fs w))
              (makedirs_errno w) (open_wb_errno w) (network w)
              (stdout w ++ cache_file_stdout c RootPackURL)
              (stderr w ++ cache_file_stderr RootPackURL resp) in
  get_urls xdg_data_home BeautifulSoup (c, w) =
  match pdsc_urls (BeautifulSoup (body resp)) with
  | Ok l => (Ok l, (set_urls l c', w'))
  | Raise e => (Raise e, (c', w'))
  end.
Proof.
  intros Hu H Hw. unfold get_urls. unfold bind at 1. unfold self. simpl.
  assert (E : forall k : M St (list string),
             match urls c with Some (u :: us) => ret (u :: us) | _ => k end = k).
  { intros k. destruct Hu as [-> | ->]; reflexivity. }
  rewrite E. unfold bind at 1. unfold try_except.
  rewrite (pull_from_cache_miss _ _ _ _ _ H). simpl.
  unfold cache_and_parse. unfold bind at 1.
  rewrite (cache_file_run _ _ _ _ _ Hw).
  erewrite pull_from_cache_hit by (simpl; apply lookup_insert_eq).
  unfold bind, lift, update_self, modify, ret. simpl.
  destruct (pdsc_urls _); reflexivity.
Qed.

(** What a successful [get_urls] leaves behind. *)
Lemma get_urls_post (c : Cache) (w : World) (l : list string) (c1 : Cache) (w1 : World) :
  get_urls xdg_data_home BeautifulSoup (c, w) = (Ok l, (c1, w1)) ->
  _index c1 = _index c
  /\ same_env w w1
  /\ (forall p, p <> cache_path xdg_data_home RootPackURL -> fs w1 !! p = fs w !! p)
  /\ urls c1 = Some l
  /\ (l <> [] \/ exists data, fs w1 !! cache_path xdg_data_home RootPackURL = Some data
                           /\ pdsc_urls (BeautifulSoup data) = Ok l).
Proof.
  intros H.
  destruct (urls c) as [[|u us]|] eqn:Eu.
  2:{ rewrite (get_urls_known _ _ _ _ Eu) in H. injection H as <- <- <-.
      repeat split; [apply Eu|left; discriminate]. }
  all: assert (Hu : urls c = None \/ urls c = Some []) by (rewrite Eu; auto).
  all: destruct (fs w !! cache_path xdg_data_home RootPackURL) as [data|] eqn:Ef.
  all: try (rewrite (get_urls_cached _ _ _ Hu Ef) in H;
            destruct (pdsc_urls (BeautifulSoup data)) as [l'|] eqn:Ep; [|discriminate];
            injection H as <- <- <-; destruct c;
            repeat split; right; exists data; split; assumption).
  all: destruct (get_urls xdg_data_home BeautifulSoup (c, w)) as [r s] eqn:G.
  all: assert (Hw : can_write w (cache_path xdg_data_home RootPackURL)).
  all: try (revert G; unfold get_urls; unfold bind at 1; unfold self; simpl; rewrite Eu;
            unfold bind at 1; unfold try_except;
            rewrite (pull_from_cache_miss _ _ _ _ _ Ef); simpl;
            unfold cache_and_parse; unfold bind at 1;
            destruct (cache_file xdg_data_home new_Curl RootPackURL (c, w)) as [[k|e] s'] eqn:Ec;
            [intros _; exact (cache_file_ok_inv _ _ _ _ _ _ Ec)
            |intros G; rewrite <- G in H; discriminate]).
  all: rewrite (get_urls_fetched _ _ Hu Ef Hw) in G; rewrite <- G in H; clear G.
  all: destruct (pdsc_urls _) as [l'|] eqn:Ep; [|discriminate].
  all: injection H as <- <- <-; destruct c, w.
  all: repeat split; simpl;
       [intros p Hp; apply lookup_insert_ne; congruence
       |right; eexists; split; [apply lookup_insert_eq|exact Ep]].
Qed.


(** The helper reads one file and changes only the index, the counter
    and the output: started from another state with the same index and
    the same file, it ends the same way. *)
Lemma helper_sim (d : string) (c : Cache) (w : World) (r : result unit) (c1 : Cache) (w1 : World) :
  _generate_index_helper xdg_data_home BeautifulSoup d (c, w) = (r, (c1, w1)) ->
  forall c' w', _index c' = _index c ->
    fs w' !! cache_path xdg_data_home d = fs w !! cache_path xdg_data_home d ->
    exists c1' w1',
      _generate_index_helper xdg_data_home BeautifulSoup d (c', w') = (r, (c1', w1'))
      /\ _index c1' = _index c1 /\ fs w1' = fs w' /\ same_env w' w1' /\ urls c1' = urls c'.
Proof.
  intros H c' w' Hi Hf.
  destruct (fs w !! cache_path xdg_data_home d) as [data|] eqn:E.
  - rewrite (helper_run _ _ _ _ _ _ E) in H. rewrite (helper_run _ _ _ _ _ _ Hf).
    destruct (descriptor_devices (BeautifulSoup data) d) as [new|e].
    + injection H as <- <- <-. do 2 eexists. split; [reflexivity|].
      destruct c, c', w'; simpl in *. subst. repeat split.
    + destruct (is_AttributeError e); injection H as <- <- <-;
        do 2 eexists; (split; [reflexivity|]);
        destruct c, c', w'; simpl in *; subst; repeat split.
  - rewrite (helper_miss _ _ _ _ _ E) in H. rewrite (helper_miss _ _ _ _ _ Hf).
    injection H as <- <- <-. do 2 eexists. split; [reflexivity|]. repeat split. exact Hi.
Qed.

Lemma for_each_helper_sim (l : list string) :
  forall (c : Cache) (w : World) (r : result unit) (c1 : Cache) (w1 : World),
  for_each (_generate_index_helper xdg_data_home BeautifulSoup) l (c, w) = (r, (c1, w1)) ->
  forall c' w', _index c' = _index c ->
    (forall d, In d l -> fs w' !! cache_path xdg_data_home d = fs w !! cache_path xdg_data_home d) ->
    exists c1' w1',
      for_each (_generate_index_helper xdg_data_home BeautifulSoup) l (c', w') = (r, (c1', w1'))
      /\ _index c1' = _index c1 /\ fs w1' = fs w' /\ same_env w' w1' /\ urls c1' = urls c'.
Proof.
  induction l as [|d l IH]; intros c w r c1 w1 H c' w' Hi Hf.
  - injection H as <- <- <-. exists c', w'. repeat split. exact Hi.
  - simpl in H. unfold bind in H.
    destruct (_generate_index_helper xdg_data_home BeautifulSoup d (c, w)) as [r0 [c0 w0]] eqn:E.
    destruct (helper_sim _ _ _ _ _ _ E c w eq_refl eq_refl) as (c0a & w0a & E0 & _ & F0 & _ & _).
    rewrite E in E0. injection E0 as <- <-.
    destruct (helper_sim _ _ _ _ _ _ E c' w' Hi (Hf d (or_introl eq_refl)))
      as (c0' & w0' & E' & Hi' & Hf' & He' & Hu').
    simpl. unfold bind. rewrite E'.
    destruct r0 as [[]|e].
    + destruct (IH _ _ _ _ _ H c0' w0' Hi') as (c1' & w1' & R & ? & ? & ? & ?).
      { intros d' Hd. rewrite Hf', F0. apply Hf. right. exact Hd. }
      exists c1', w1'. split; [exact R|].
      split; [congruence|]. split; [congruence|].
      split; [eapply same_env_trans; eassumption|congruence].
    + injection H as <- <- <-. exists c0', w0'. split; [reflexivity|]. auto.
Qed.

(** The index after the helper has run over a queue: the contributions
    of the descriptors, each laid over what was there. *)
Lemma for_each_helper_index (l : list string) :
  forall (c : Cache) (w : World),
  match for_each (_generate_index_helper xdg_data_home BeautifulSoup) l (c, w) with
  | (Ok _, (c1, w1)) =>
      Forall (fun d => is_Some (contribution xdg_data_home BeautifulSoup (fs w) d)) l
      /\ _index c1
         = foldl (fun m d => default ∅ (contribution xdg_data_home BeautifulSoup (fs w) d) ∪ m)
             (_index c) l
  | (Raise _, _) =>
      Exists (fun d => contribution xdg_data_home BeautifulSoup (fs w) d = None) l
  end.
Proof.
  induction l as [|d l IH]; intros c w; [split; [constructor|reflexivity]|].
  cbn [for_each foldl]. unfold bind at 1. unfold contribution at 1 3 4.
  destruct (fs w !! cache_path xdg_data_home d) as [data|] eqn:E.
  - rewrite (helper_run _ _ _ _ _ _ E).
    destruct (descriptor_devices (BeautifulSoup data) d) as [new|e] eqn:D.
    + specialize (IH (set_counter (counter c + 1) (set_index (new ∪ _index c) c))
                     (set_stdout (stdout w ++ helper_progress c) w)).
      destruct (for_each _ l _) as [[[]|e'] [c1 w1]].
      * destruct IH as [F I]. split.
        -- constructor; [|exact F]. unfold contribution. rewrite E, D. eauto.
        -- rewrite I. destruct c, w; reflexivity.
      * apply Exists_cons_tl. exact IH.
    + destruct (is_AttributeError e) eqn:A.
      * specialize (IH (set_counter (counter c + 1) c)
                       (set_stdout ((stdout w ++ str_exn e ++ LF) ++ helper_progress c) w)).
        destruct (for_each _ l _) as [[[]|e'] [c1 w1]].
        -- destruct IH as [F I]. split.
           ++ constructor; [|exact F]. unfold contribution. rewrite E, D, A. eauto.
           ++ rewrite I. simpl. rewrite (left_id_L ∅ (∪)). destruct c, w; reflexivity.
        -- apply Exists_cons_tl. exact IH.
      * apply Exists_cons_hd. unfold contribution. rewrite E, D, A. reflexivity.
  - rewrite (helper_miss _ _ _ _ _ E).
    apply Exists_cons_hd. unfold contribution. rewrite E. reflexivity.
Qed.



(** [generate_index] in terms of its three steps. *)
Lemma generate_index_steps (c : Cache) (w : World) :
  generate_index xdg_data_home BeautifulSoup dump (c, w) =
  match get_urls xdg_data_home BeautifulSoup (set_counter 0 (set_index ∅ c), w) with
  | (Raise e, s) => (Raise e, s)
  | (Ok l, s) =>
      match for_each (_generate_index_helper xdg_data_home BeautifulSoup) l s with
      | (Raise e, s') => (Raise e, s')
      | (Ok _, (ch, wh)) =>
          match open_wb_errno wh (index_path xdg_data_home) with
          | Some errno => (Raise (IOError errno (index_path xdg_data_home)), (ch, wh))
          | None =>
              (Ok tt, (ch, mkWorld (<[index_path xdg_data_home := dump (_index ch)]> (fs wh))
                             (makedirs_errno wh) (open_wb_errno wh) (network wh)
                             (stdout wh ++ LF) (stderr wh)))
          end
      end
  end.
Proof.
  unfold generate_index. unfold bind at 1. unfold update_self at 1. unfold modify at 1.
  unfold bind at 1. unfold update_self at 1. unfold modify at 1.
  unfold bind at 1. cbn [fst snd].
  destruct (get_urls _ _ _) as [[l|e] s]; [|reflexivity].
  unfold do_queue_Reader. unfold bind at 1.
  destruct (for_each _ l s) as [[[]|e] [ch wh]]; [|reflexivity].
  destruct ch, wh. run_methods.
  destruct (open_wb_errno0 _); [reflexivity|].
  cbv beta iota. rewrite lookup_insert_eq, insert_insert_eq. reflexivity.
Qed.

(** The index and the counter the object holds on entry are discarded. *)
Lemma generate_index_ignores_index (c : Cache) (w : World)
    (i : gmap string (gmap string Field)) (n : Z) :
  generate_index xdg_data_home BeautifulSoup dump (set_index i (set_counter n c), w) =
  generate_index xdg_data_home BeautifulSoup dump (c, w).
Proof. rewrite !generate_index_steps. destruct c; reflexivity. Qed.

End GenerateIndex.

(** ** [generate_index] under a schedule of its workers *)

Section Schedules.
Variable xdg_data_home : string.
Variable BeautifulSoup : string -> Tag.
Variable dump : gmap string (gmap string Field) -> string.

Lemma generate_index_in_order (s : St) :
  generate_index_scheduled xdg_data_home BeautifulSoup dump (fun l => l) s
  = generate_index xdg_data_home BeautifulSoup dump s.
Proof. reflexivity. Qed.




End Schedules.

(** ** The order on [(score, name)] tuples *)

Lemma cmp_tuple_spec (a b : Z * string) : CompSpec eq tuple_lt a b (cmp_tuple a b).
Proof.
  destruct a as [x s], b as [y t]. unfold cmp_tuple, tuple_lt. simpl.
  destruct (Z.compare_spec x y) as [->|H|H].
  - destruct (String_as_OT.compare_spec s t) as [->|H|H]; constructor; simpl; auto.
  - constructor. simpl. auto.
  - constructor. simpl. auto.
Qed.

Lemma tuple_lt_irrefl (a : Z * string) : ~ tuple_lt a a.
Proof.
  intros [H|[_ H]]; [lia|].
  exact (StrictOrder_Irreflexive (R := String_as_OT.lt) _ H).
Qed.

Lemma tuple_lt_trans (a b c : Z * string) : tuple_lt a b -> tuple_lt b c -> tuple_lt a c.
Proof.
  unfold tuple_lt. intros [H1|[E1 H1]] [H2|[E2 H2]]; try (left; lia).
  right. split; [lia|].
  exact (StrictOrder_Transitive (R := String_as_OT.lt) _ _ _ H1 H2).
Qed.

Lemma tuple_ge_iff (a b : Z * string) : tuple_ge a b <-> a = b \/ tuple_lt b a.
Proof.
  unfold tuple_ge. destruct (cmp_tuple_spec a b) as [E|L|G]; split; intros H;
    try congruence; auto.
  exfalso. destruct H as [->|H].
  - exact (tuple_lt_irrefl _ L).
  - exact (tuple_lt_irrefl _ (tuple_lt_trans _ _ _ L H)).
Qed.

#[global] Instance tuple_ge_total : Total tuple_ge.
Proof.
  intros a b. rewrite !tuple_ge_iff.
  destruct (cmp_tuple_spec a b); auto.
Qed.

#[global] Instance tuple_ge_trans : Transitive tuple_ge.
Proof.
  intros a b c. rewrite !tuple_ge_iff.
  intros [->|H1] [->|H2]; auto. right. exact (tuple_lt_trans _ _ _ H2 H1).
Qed.

#[global] Instance tuple_ge_antisymm : AntiSymm (=) tuple_ge.
Proof.
  intros a b. rewrite !tuple_ge_iff.
  intros [->|H1] [E|H2]; auto.
  destruct (tuple_lt_irrefl _ (tuple_lt_trans _ _ _ H1 H2)).
Qed.

Lemma tuple_ge_score (a b : Z * string) : tuple_ge a b -> b.1 <= a.1.
Proof.
  rewrite tuple_ge_iff. intros [->|[H|[H _]]]; lia.
Qed.

#[global] Instance score_ge_total : Total score_ge.
Proof. intros a b. unfold score_ge. lia. Qed.

(** ** Lists: [takewhile] on a sorted list *)

Lemma filter_all_false {A} (p : A -> bool) (l : list A) :
  (forall y, In y l -> p y = false) -> List.filter p l = [].
Proof.
  induction l as [|x l IH]; intros H; [reflexivity|]. simpl.
  rewrite (H x (or_introl eq_refl)). apply IH. intros y Hy. apply H. right. exact Hy.
Qed.

Lemma filter_all_true {A} (p : A -> bool) (l : list A) :
  (forall y, In y l -> p y = true) -> List.filter p l = l.
Proof.
  induction l as [|x l IH]; intros H; [reflexivity|]. simpl.
  rewrite (H x (or_introl eq_refl)). f_equal. apply IH. intros y Hy. apply H. right. exact Hy.
Qed.

Lemma takewhile_top (s : Z) (l : list (Z * string)) :
  StronglySorted tuple_ge l ->
  Forall (fun t => t.1 <= s) l ->
  takewhile (fun t => t.1 =? s) l = List.filter (fun t => t.1 =? s) l.
Proof.
  induction 1 as [|x l Hs IH Hx]; intros Hle; [reflexivity|].
  apply Forall_cons in Hle as [Hxs Hle]. simpl.
  destruct (x.1 =? s) eqn:E; [rewrite IH by exact Hle; reflexivity|].
  apply Z.eqb_neq in E. symmetry.
  apply filter_all_false.
  intros y Hy. apply Z.eqb_neq.
  rewrite Forall_forall in Hx, Hle.
  apply list_elem_of_In in Hy. specialize (Hx y Hy).
  apply tuple_ge_score in Hx. lia.
Qed.

(** ** [find_device]: the list computed from the keys *)

Section BestMatches.
Variable scorer : string -> string -> Z.
Hypothesis scorer_range : forall query choice, 0 <= scorer query choice <= 100.

(** With the limit [len(index)], [extract] returns every key. *)
Lemma extract_all (query : string) (keys : list string) :
  map (fun '(k, v) => (v, k)) (extract scorer query keys (length keys)) ≡ₚ scored scorer query keys.
Proof.
  unfold extract, scored.
  rewrite filter_all_true.
  2:{ intros [k v] H. apply in_map_iff in H as (k' & [= <- <-] & _). simpl.
      apply Z.leb_le. apply scorer_range. }
  rewrite take_ge.
  2:{ rewrite (Permutation_length (merge_sort_Permutation _ _)), length_map. lia. }
  rewrite merge_sort_Permutation.
  rewrite map_map. reflexivity.
Qed.

Lemma sorted_scored (query : string) (keys : list string) :
  let l := sorted_reverse (map (fun '(k, v) => (v, k)) (extract scorer query keys (length keys))) in
  StronglySorted tuple_ge l /\ l ≡ₚ scored scorer query keys.
Proof.
  unfold sorted_reverse. split.
  - apply StronglySorted_merge_sort; apply _.
  - rewrite merge_sort_Permutation. apply extract_all.
Qed.

(** The order in which the dictionary lists its keys does not matter. *)
Lemma best_matches_permutation (query : string) (keys keys' : list string) :
  keys ≡ₚ keys' -> best_matches scorer query keys = best_matches scorer query keys'.
Proof.
  intros H. unfold best_matches.
  destruct (sorted_scored query keys) as [S1 P1].
  destruct (sorted_scored query keys') as [S2 P2].
  cbv zeta in *.
  rewrite (Sorted_unique tuple_ge _ _
             (StronglySorted_Sorted S1) (StronglySorted_Sorted S2)); [reflexivity|].
  rewrite P1, P2. unfold scored. rewrite H. reflexivity.
Qed.

(** [takewhile] keeps the whole band of top-scoring tuples. *)
Lemma best_matches_filter (query : string) (keys : list string) :
  exists l, StronglySorted tuple_ge l /\ l ≡ₚ scored scorer query keys
    /\ match l with
       | [] => best_matches scorer query keys = []
       | top :: _ =>
           Forall (fun t => t.1 <= top.1) l
           /\ best_matches scorer query keys = List.filter (fun t => t.1 =? top.1) l
       end.
Proof.
  destruct (sorted_scored query keys) as [S P]. cbv zeta in *.
  eexists. split; [exact S|]. split; [exact P|].
  unfold best_matches.
  destruct (sorted_reverse _) as [|top l] eqn:E; [reflexivity|].
  assert (F : Forall (fun t => t.1 <= top.1) (top :: l)).
  { apply StronglySorted_inv in S as [_ S]. constructor; [lia|].
    eapply Forall_impl; [exact S|]. intros t. apply tuple_ge_score. }
  split; [exact F|]. apply takewhile_top; assumption.
Qed.

(** The tuples kept are those of the keys whose score is the maximum. *)
Lemma best_matches_spec (query : string) (keys : list string) (t : Z * string) :
  t ∈ best_matches scorer query keys <->
  t ∈ scored scorer query keys /\ forall k, k ∈ keys -> scorer query k <= t.1.
Proof.
  destruct (best_matches_filter query keys) as (l & S & P & H).
  assert (Hin : forall k, k ∈ keys -> (scorer query k, k) ∈ l).
  { intros k Hk. rewrite P. unfold scored. apply list_elem_of_fmap. exists k. auto. }
  destruct l as [|top l].
  - rewrite H. split; [intros C; inversion C|].
    intros [C _]. rewrite <- P in C. inversion C.
  - destruct H as [F ->]. rewrite Forall_forall in F.
    rewrite list_elem_of_In, filter_In, <- list_elem_of_In, P, Z.eqb_eq.
    split; intros [Ht Hs]; (split; [exact Ht|]).
    + intros k Hk. rewrite Hs. exact (F _ (Hin k Hk)).
    + assert (Htop : top ∈ scored scorer query keys) by (rewrite <- P; left).
      apply list_elem_of_fmap in Htop as (k0 & -> & Hk0). simpl.
      specialize (Hs k0 Hk0). rewrite <- P in Ht. specialize (F t Ht). simpl in F. lia.
Qed.

Lemma best_matches_sorted (query : string) (keys : list string) :
  StronglySorted tuple_ge (best_matches scorer query keys).
Proof.
  destruct (best_matches_filter query keys) as (l & S & P & H).
  destruct l as [|top l]; [rewrite H; constructor|].
  destruct H as [_ ->].
  clear P. induction S as [|x l' S IH Hx]; simpl; [constructor|].
  destruct (x.1 =? top.1); [|exact IH]. constructor; [exact IH|].
  rewrite Forall_forall in *. intros y Hy.
  apply list_elem_of_In, filter_In in Hy as [Hy _]. apply Hx, list_elem_of_In, Hy.
Qed.

Lemma best_matches_nil (query : string) : best_matches scorer query [] = [].
Proof. reflexivity. Qed.

Lemma best_matches_scored (query : string) (keys : list string) (t : Z * string) :
  t ∈ best_matches scorer query keys -> t = (scorer query t.2, t.2) /\ t.2 ∈ keys.
Proof.
  intros H. apply best_matches_spec in H as [H _].
  apply list_elem_of_fmap in H as (k & -> & Hk). split; [reflexivity|exact Hk].
Qed.

Lemma best_matches_same_score (query : string) (keys : list string) (t t' : Z * string) :
  t ∈ best_matches scorer query keys -> t' ∈ best_matches scorer query keys -> t.1 = t'.1.
Proof.
  intros H H'.
  destruct (best_matches_scored _ _ _ H) as [E K].
  destruct (best_matches_scored _ _ _ H') as [E' K'].
  apply best_matches_spec in H as [_ H]. apply best_matches_spec in H' as [_ H'].
  specialize (H _ K'). specialize (H' _ K). rewrite E, E' in *. simpl in *. lia.
Qed.

Lemma NoDup_map_filter {A B} (f : A -> B) (p : A -> bool) (l : list A) :
  NoDup (map f l) -> NoDup (map f (List.filter p l)).
Proof.
  induction l as [|x l IH]; simpl; [auto|].
  intros H. apply NoDup_cons in H as [Hx H].
  destruct (p x); [|auto]. simpl. apply NoDup_cons. split; [|auto].
  intros C. apply Hx. apply list_elem_of_fmap in C as (y & -> & Hy).
  apply list_elem_of_fmap. exists y. split; [reflexivity|].
  apply list_elem_of_In. apply list_elem_of_In, filter_In in Hy as [Hy _]. exact Hy.
Qed.

Lemma scored_names (query : string) (keys : list string) : (scored scorer query keys).*2 = keys.
Proof. induction keys as [|k keys IH]; simpl; [reflexivity|]. f_equal. exact IH. Qed.

(** No name is returned twice. *)
Lemma best_matches_names_NoDup (query : string) (keys : list string) :
  NoDup keys -> NoDup (best_matches scorer query keys).*2.
Proof.
  intros Hk. destruct (best_matches_filter query keys) as (l & _ & P & H).
  assert (Hl : NoDup l.*2).
  { rewrite P, scored_names. exact Hk. }
  destruct l as [|top l]; [rewrite H; constructor|].
  destruct H as [_ ->]. apply NoDup_map_filter. exact Hl.
Qed.

(** The names come out in strictly descending order. *)
Lemma best_matches_names_sorted (query : string) (keys : list string) :
  NoDup keys ->
  StronglySorted (fun a b => String_as_OT.lt b a) (best_matches scorer query keys).*2.
Proof.
  intros Hk.
  pose proof (best_matches_sorted query keys) as S.
  pose proof (best_matches_names_NoDup query keys Hk) as N.
  pose proof (best_matches_same_score query keys) as E.
  induction S as [|x l S IH Hx]; [constructor|].
  simpl in N. apply NoDup_cons in N as [Nx N].
  simpl. constructor.
  - apply IH; [exact N|]. intros t t' Ht Ht'. apply E; right; assumption.
  - apply Forall_fmap, Forall_forall. intros y Hy. simpl.
    rewrite Forall_forall in Hx. specialize (Hx y Hy).
    apply tuple_ge_iff in Hx as [->|[Hlt|[_ Hlt]]].
    + destruct Nx. apply list_elem_of_fmap. exists y. auto.
    + specialize (E x y ltac:(left) ltac:(right; exact Hy)). lia.
    + exact Hlt.
Qed.
End BestMatches.

(** ** The [index] property *)

Section IndexProperty.
Variable xdg_data_home : string.
Variable BeautifulSoup : string -> Tag.
Variable dump : gmap string (gmap string Field) -> string.
Variable load : string -> result (gmap string (gmap string Field)).

(** An index in memory is returned as it is. *)
Lemma index_loaded (c : Cache) (w : World) :
  _index c <> ∅ ->
  index xdg_data_home BeautifulSoup dump load (c, w) = (Ok (_index c), (c, w)).
Proof.
  intros H. unfold index. unfold bind at 1. unfold self at 1. cbn [fst snd].
  destruct (decide (_index c = ∅)) as [Hd|Hd]; [contradiction|]. reflexivity.
Qed.

(** Without one, the snapshot is loaded when it is there. *)
Lemma index_from_snapshot (c : Cache) (w : World) (data : string)
    (i : gmap string (gmap string Field)) :
  _index c = ∅ ->
  fs w !! index_path xdg_data_home = Some data ->
  load data = Ok i ->
  index xdg_data_home BeautifulSoup dump load (c, w) = (Ok i, (set_index i c, w)).
Proof.
  intros H Hf Hl. unfold index. unfold bind at 1. unfold self at 1. cbn [fst snd].
  destruct (decide (_index c = ∅)) as [Hd|Hd]; [|contradiction].
  destruct c, w; simpl in *. run_methods. rewrite Hf. cbv beta iota. rewrite Hl. reflexivity.
Qed.

(** Without a snapshot, [generate_index] runs and its index is returned. *)
Lemma index_regenerated (c : Cache) (w : World) :
  _index c = ∅ ->
  fs w !! index_path xdg_data_home = None ->
  index xdg_data_home BeautifulSoup dump load (c, w) =
  match generate_index xdg_data_home BeautifulSoup dump (c, w) with
  | (Ok _, (c', w')) => (Ok (_index c'), (c', w'))
  | (Raise e, s) => (Raise e, s)
  end.
Proof.
  intros H Hf. unfold index. unfold bind at 1. unfold self at 1. cbn [fst snd].
  destruct (decide (_index c = ∅)) as [Hd|Hd]; [|contradiction].
  unfold bind at 1. unfold try_except. unfold bind at 1.
  assert (E : open_read (index_path xdg_data_home) (c, w)
              = (Raise (IOError ENOENT (index_path xdg_data_home)), (c, w))).
  { unfold open_read, bind, world. cbn [fst snd]. rewrite Hf. reflexivity. }
  rewrite E. cbn [is_IOError].
  destruct (generate_index _ _ _ (c, w)) as [[[]|e] [c' w']]; reflexivity.
Qed.

(** Whatever [generate_index] does after a download of the root index,
    the downloaded file stays in the cache. *)
Lemma generate_index_fetches_root (c : Cache) (w : World) :
  (urls c = None \/ urls c = Some []) ->
  fs w !! cache_path xdg_data_home RootPackURL = None ->
  can_write w (cache_path xdg_data_home RootPackURL) ->
  fs (snd (snd (generate_index xdg_data_home BeautifulSoup dump (c, w))))
    !! cache_path xdg_data_home RootPackURL
  = Some (body (network w (curl_options xdg_data_home (set_counter 0 (set_index ∅ c))
                             new_Curl RootPackURL))).
Proof.
  intros Hu Hf Hw. rewrite generate_index_steps.
  assert (Hu' : urls (set_counter 0 (set_index ∅ c)) = None
                \/ urls (set_counter 0 (set_index ∅ c)) = Some []) by (destruct c; exact Hu).
  rewrite (get_urls_fetched _ _ _ _ Hu' Hf Hw). cbv zeta.
  set (resp := network w _).
  destruct (pdsc_urls _) as [l|e]; [|simpl; apply lookup_insert_eq].
  match goal with |- context [for_each ?f l ?s] =>
    destruct (for_each f l s) as [r [ch wh]] eqn:F end.
  destruct (for_each_helper_sim _ _ _ _ _ _ _ _ F _ _ eq_refl (fun _ _ => eq_refl))
    as (ch0 & wh0 & F0 & _ & Ff & _ & _).
  rewrite F in F0. injection F0 as <- <-.
  destruct r as [[]|e]; [|simpl; rewrite Ff; simpl; apply lookup_insert_eq].
  destruct (open_wb_errno wh _); simpl.
  - rewrite Ff. simpl. apply lookup_insert_eq.
  - rewrite lookup_insert_ne by (apply not_eq_sym, root_path_not_index_path).
    rewrite Ff. simpl. apply lookup_insert_eq.
Qed.

(** C10.  Read with no index in memory, the [index] property returns
    the snapshot [index.json] when the file is there and loads; when the
    file is missing, the [IOError] of the failed [open] is caught and
    [generate_index] runs instead: the property returns what
    [generate_index] built, or raises what [generate_index] raised, and
    a root index that was neither known nor cached has been downloaded
    on the way. *)
Theorem index_missing_snapshot (c : Cache) (w : World) :
  _index c = ∅ ->
  (forall data i, fs w !! index_path xdg_data_home = Some data -> load data = Ok i ->
     index xdg_data_home BeautifulSoup dump load (c, w) = (Ok i, (set_index i c, w)))
  /\ (fs w !! index_path xdg_data_home = None ->
      index xdg_data_home BeautifulSoup dump load (c, w) =
        match generate_index xdg_data_home BeautifulSoup dump (c, w) with
        | (Ok _, (c', w')) => (Ok (_index c'), (c', w'))
        | (Raise e, s) => (Raise e, s)
        end
      /\ ((urls c = None \/ urls c = Some []) ->
          fs w !! cache_path xdg_data_home RootPackURL = None ->
          can_write w (cache_path xdg_data_home RootPackURL) ->
          fs (snd (snd (index xdg_data_home BeautifulSoup dump load (c, w))))
            !! cache_path xdg_data_home RootPackURL
          = Some (body (network w (curl_options xdg_data_home (set_counter 0 (set_index ∅ c))
                                     new_Curl RootPackURL))))).
Proof.
  intros H. split.
  - intros data i Hf Hl. exact (index_from_snapshot _ _ _ _ H Hf Hl).
  - intros Hf. split; [exact (index_regenerated _ _ H Hf)|].
    intros Hu Hr Hw. rewrite (index_regenerated _ _ H Hf).
    rewrite <- (generate_index_fetches_root _ _ Hu Hr Hw).
    destruct (generate_index _ _ _ (c, w)) as [[[]|e] [c' w']]; reflexivity.
Qed.
End IndexProperty.

(** ** [find_device] *)

Section FindDevice.
Variable xdg_data_home : string.
Variable BeautifulSoup : string -> Tag.
Variable scorer : string -> string -> Z.
Variable dump : gmap string (gmap string Field) -> string.
Variable load : string -> result (gmap string (gmap string Field)).
Hypothesis scorer_range : forall query choice, 0 <= scorer query choice <= 100.

(** The final comprehension [[(v, self.index[v]) for k, v in choices]],
    when every read of the property gives [idx]. *)
Lemma lookups_run (c : Cache) (w : World) (idx : gmap string (gmap string Field))
    (l : list (Z * string)) :
  index xdg_data_home BeautifulSoup dump load (c, w) = (Ok idx, (c, w)) ->
  Forall (fun t => is_Some (idx !! t.2)) l ->
  exists res,
    map_M (fun '(k, v) =>
             i <- index xdg_data_home BeautifulSoup dump load ;;
             r <- lift (dict_getitem i v) ;; ret (v, r)) l (c, w)
    = (Ok res, (c, w))
    /\ res.*1 = l.*2
    /\ Forall (fun x => idx !! x.1 = Some x.2) res.
Proof.
  intros Hi.
  set (f := fun '((k, v) : Z * string) =>
              i <- index xdg_data_home BeautifulSoup dump load ;;
              r <- lift (dict_getitem i v) ;; ret (v, r)).
  induction 1 as [|[k v] l [r Hr] Hl (res & IH & IH1 & IH2)].
  - exists []. repeat split. constructor.
  - exists ((v, r) :: res). simpl in Hr.
    split; [|split; [simpl; f_equal; exact IH1|constructor; [exact Hr|exact IH2]]].
    assert (Hf : f (k, v) (c, w) = (Ok (v, r), (c, w))).
    { unfold f, bind. rewrite Hi. unfold lift, dict_getitem. rewrite Hr. reflexivity. }
    cbn [map_M]. unfold bind at 1. rewrite Hf.
    unfold bind at 1. rewrite IH. reflexivity.
Qed.

(** [find_device] for an index the property keeps returning. *)
Lemma find_device_run (match_ : string) (c c' : Cache) (w w' : World)
    (idx : gmap string (gmap string Field)) :
  index xdg_data_home BeautifulSoup dump load (c, w) = (Ok idx, (c', w')) ->
  index xdg_data_home BeautifulSoup dump load (c', w') = (Ok idx, (c', w')) ->
  exists res,
    find_device xdg_data_home BeautifulSoup scorer dump load match_ (c, w) = (Ok res, (c', w'))
    /\ res.*1 = (best_matches scorer match_ (map_to_list idx).*1).*2
    /\ Forall (fun x => idx !! x.1 = Some x.2) res.
Proof.
  intros H1 H2. unfold find_device.
  unfold bind at 1. unfold bind at 1. rewrite H1. unfold ret at 1.
  unfold bind at 1. unfold bind at 1. rewrite H2. unfold ret at 1.
  assert (Hsz : size idx = length (map_to_list idx).*1)
    by (rewrite length_fmap, length_map_to_list; reflexivity).
  rewrite Hsz.
  pose proof (best_matches_spec scorer scorer_range match_ (map_to_list idx).*1) as Spec.
  unfold best_matches in *.
  destruct (sorted_reverse _) as [|top l] eqn:E.
  - exists []. repeat split. constructor.
  - apply lookups_run; [exact H2|].
    apply Forall_forall. intros t Ht. apply Spec in Ht as [Ht _].
    apply list_elem_of_fmap in Ht as (k & -> & Hk). simpl.
    apply list_elem_of_fmap in Hk as ([k' r] & -> & Hk). simpl.
    apply elem_of_map_to_list in Hk. eauto.
Qed.

(** A snapshot loaded on demand is, like an index in memory, a case in
    which the property keeps returning the same index. *)
Lemma index_stable_snapshot (c : Cache) (w : World) (data : string)
    (i : gmap string (gmap string Field)) :
  _index c = ∅ ->
  fs w !! index_path xdg_data_home = Some data ->
  load data = Ok i ->
  index xdg_data_home BeautifulSoup dump load (c, w) = (Ok i, (set_index i c, w))
  /\ index xdg_data_home BeautifulSoup dump load (set_index i c, w) = (Ok i, (set_index i c, w)).
Proof.
  intros H Hf Hl. split; [exact (index_from_snapshot _ _ _ _ _ _ _ _ H Hf Hl)|].
  destruct (decide (i = ∅)) as [->|Hi].
  - assert (E : _index (set_index ∅ c) = ∅) by (destruct c; reflexivity).
    rewrite (index_from_snapshot _ _ _ _ _ _ _ _ E Hf Hl). destruct c; reflexivity.
  - assert (E : _index (set_index i c) <> ∅) by (destruct c; exact Hi).
    rewrite (index_loaded _ _ _ _ _ _ E). destruct c; reflexivity.
Qed.

Lemma keys_elem_of (idx : gmap string (gmap string Field)) (k : string) :
  k ∈ (map_to_list idx).*1 <-> is_Some (idx !! k).
Proof.
  rewrite list_elem_of_fmap. split.
  - intros ([k' r] & -> & H). apply elem_of_map_to_list in H. eauto.
  - intros [r H]. exists (k, r). split; [reflexivity|]. apply elem_of_map_to_list, H.
Qed.

(** C2.  Whatever index the property returns, and goes on returning
    once read, [find_device] returns exactly its entries whose score is
    the highest score of any key, every one of them once, and nothing for
    the empty index. *)
Theorem find_device_top_band (match_ : string) (c c' : Cache) (w w' : World)
    (idx : gmap string (gmap string Field)) :
  index xdg_data_home BeautifulSoup dump load (c, w) = (Ok idx, (c', w')) ->
  index xdg_data_home BeautifulSoup dump load (c', w') = (Ok idx, (c', w')) ->
  exists res,
    find_device xdg_data_home BeautifulSoup scorer dump load match_ (c, w) = (Ok res, (c', w'))
    /\ (forall name record,
          (name, record) ∈ res <->
          idx !! name = Some record
          /\ forall k, is_Some (idx !! k) -> scorer match_ k <= scorer match_ name)
    /\ NoDup res.*1
    /\ (idx = ∅ -> res = []).
Proof.
  intros H1 H2. destruct (find_device_run match_ c c' w w' idx H1 H2) as (res & R & Hn & Hf).
  exists res. split; [exact R|]. rewrite Forall_forall in Hf.
  split; [|split].
  - intros name record. split.
    + intros Hin. split; [exact (Hf _ Hin)|].
      assert (Hname : name ∈ res.*1) by (apply list_elem_of_fmap; exists (name, record); auto).
      rewrite Hn in Hname. apply list_elem_of_fmap in Hname as (t & -> & Ht).
      destruct (best_matches_scored _ scorer_range _ _ _ Ht) as [Et _].
      apply best_matches_spec in Ht as [_ Ht]; [|exact scorer_range].
      intros k Hk. apply keys_elem_of in Hk. specialize (Ht k Hk).
      rewrite Et in Ht. exact Ht.
    + intros [Hl Hmax].
      assert (Ht : (scorer match_ name, name) ∈ best_matches scorer match_ (map_to_list idx).*1).
      { apply best_matches_spec; [exact scorer_range|]. split.
        - apply list_elem_of_fmap. exists name. split; [reflexivity|].
          apply keys_elem_of. eauto.
        - intros k Hk. apply Hmax, keys_elem_of, Hk. }
      assert (Hname : name ∈ res.*1).
      { rewrite Hn. apply list_elem_of_fmap. eexists. split; [|exact Ht]. reflexivity. }
      apply list_elem_of_fmap in Hname as ([n r] & -> & Hx).
      pose proof (Hf _ Hx) as Hr. simpl in *. rewrite Hl in Hr. injection Hr as <-. exact Hx.
  - rewrite Hn. apply best_matches_names_NoDup; [exact scorer_range|].
    apply NoDup_fst_map_to_list.
  - intros ->. rewrite map_to_list_empty in Hn. simpl in Hn.
    destruct res; [reflexivity|discriminate].
Qed.

End FindDevice.

(** * The claims *)

Lemma demo_scorer_range (query choice : string) : 0 <= demo_scorer query choice <= 100.
Proof. unfold demo_scorer. destruct (String.eqb query choice); lia. Qed.

Example extract_dict_full : _extract_dict device_full url_lpc = Ok lpc1768_record.
Proof. vm_compute. reflexivity. Qed.

(** ** The cache path and re-fetching (C1) *)

Lemma startswith_app (a x : string) : startswith a (a ++ x) = true.
Proof.
  induction a as [|c a IH]; [reflexivity|].
  change (String c a ++ x) with (String c (a ++ x)).
  cbn [startswith]. rewrite Ascii.eqb_refl. exact IH.
Qed.

Lemma data_directory_no_slash (xdg_data_home : string) :
  ends_with_slash (save_data_path xdg_data_home "arm-pack-manager") = false
  /\ save_data_path xdg_data_home "arm-pack-manager" <> "".
Proof.
  assert (H : forall a, ends_with_slash (a ++ "arm-pack-manager") = false
                        /\ a ++ "arm-pack-manager" <> "").
  { induction a as [|c a [IH1 IH2]]; [split; [reflexivity|discriminate]|].
    change (String c a ++ "arm-pack-manager") with (String c (a ++ "arm-pack-manager")).
    split; [|discriminate]. cbn [ends_with_slash].
    destruct (a ++ "arm-pack-manager"); [congruence|exact IH1]. }
  unfold save_data_path, join. cbn [starts_with_slash Ascii.eqb Bool.eqb].
  destruct (_ || _)%bool; [apply H|].
  rewrite <- string_app_assoc. apply H.
Qed.

(** C1 (as amended).  The file [cache_file] writes is at a path that is
    a function of the URL alone, whatever the [Cache] object, the [Curl]
    object or the world: for a URL whose protocol-stripped form does not
    begin with a slash, the [arm-pack-manager] data directory, a slash
    and the stripped URL; for a URL whose stripped form begins with a
    slash, the stripped URL itself, without the data directory.  Fetching
    the same URL again, in any later state of the object and of the
    network, replaces the content at that same path and touches no other
    file. *)
Theorem cache_file_same_path (xdg_data_home : string) (c1 c2 : Cache) (w : World)
    (curl1 curl2 : Curl) (url : string) (later : Curl -> Response) :
  can_write w (cache_path xdg_data_home url) ->
  let dir := save_data_path xdg_data_home "arm-pack-manager" in
  let dest := cache_path xdg_data_home url in
  let r1 := cache_file xdg_data_home curl1 url (c1, w) in
  let w1 := snd (snd r1) in
  let r2 := cache_file xdg_data_home curl2 url (c2, set_network later w1) in
  let w2 := snd (snd r2) in
  dest = (if starts_with_slash (strip_protocol url) then strip_protocol url
          else dir ++ "/" ++ strip_protocol url)
  /\ (starts_with_slash (strip_protocol url) = false -> startswith (dir ++ "/") dest = true)
  /\ is_ok (fst r1) = true
  /\ fs w1 = <[dest := body (network w (curl_options xdg_data_home c1 curl1 url))]> (fs w)
  /\ is_ok (fst r2) = true
  /\ fs w2 = <[dest := body (later (curl_options xdg_data_home c2 curl2 url))]> (fs w).
Proof.
  intros Hw. cbv zeta.
  assert (Hd : cache_path xdg_data_home url
               = (if starts_with_slash (strip_protocol url) then strip_protocol url
                  else save_data_path xdg_data_home "arm-pack-manager" ++ "/"
                       ++ strip_protocol url)).
  { destruct (data_directory_no_slash xdg_data_home) as [Hs Hne].
    unfold cache_path, join at 1.
    destruct (starts_with_slash (strip_protocol url)); [reflexivity|].
    rewrite Hs, orb_false_r.
    destruct (String.eqb_spec (save_data_path xdg_data_home "arm-pack-manager") "");
      [contradiction|reflexivity]. }
  split; [exact Hd|].
  split.
  { intros Hrel. rewrite Hd, Hrel, <- string_app_assoc. apply startswith_app. }
  rewrite (cache_file_run _ _ _ _ _ Hw). cbn [fst snd].
  rewrite cache_file_run by exact Hw.
  cbn [fst snd fs network set_network]. rewrite insert_insert_eq.
  repeat split.
Qed.

Lemma cache_file_same_path_witness :
  can_write demo_world (cache_path demo_home url_lpc)
  /\ cache_path demo_home url_lpc
     = "/home/user/.local/share/arm-pack-manager" ++ "/" ++ "www.keil.com/pack/Keil.LPC1700_DFP.pdsc"
  /\ fs (snd (snd (cache_file demo_home new_Curl url_lpc
                     (Cache_init true false,
                      set_network (fun _ => mkResponse "<package>v2</package>" None)
                        (snd (snd (cache_file demo_home new_Curl url_lpc
                                     (Cache_init false false, demo_world))))))))
     = {["/home/user/.local/share/arm-pack-manager/www.keil.com/pack/Keil.LPC1700_DFP.pdsc"
         := "<package>v2</package>"]}.
Proof.
  assert (H : can_write demo_world (cache_path demo_home url_lpc)).
  { split; [left|]; reflexivity. }
  split; [exact H|].
  destruct (cache_file_same_path demo_home (Cache_init false false) (Cache_init true false)
              demo_world new_Curl new_Curl url_lpc
              (fun _ => mkResponse "<package>v2</package>" None) H)
    as (D & _ & _ & _ & _ & E).
  split; [rewrite D; reflexivity|].
  rewrite E. vm_compute. reflexivity.
Defined.

(** C1, as stated, fails: the stripped form of a URL with an empty host
    begins with a slash, and [os.path.join] then drops the data
    directory.  The file is written at the path the URL names, which is
    not under the [arm-pack-manager] directory. *)
Lemma cache_file_outside_data_directory :
  let url := "file:///tmp/x.pdsc" in
  let after := cache_file demo_home new_Curl url (Cache_init true false, demo_world) in
  strip_protocol url = "/tmp/x.pdsc"
  /\ can_write demo_world (cache_path demo_home url)
  /\ is_ok (fst after) = true
  /\ fs (snd (snd after)) = {["/tmp/x.pdsc" := ""]}
  /\ startswith (save_data_path demo_home "arm-pack-manager") (cache_path demo_home url) = false.
Proof.
  cbv zeta. split; [reflexivity|]. split; [split; [left|]; reflexivity|].
  vm_compute. repeat split.
Qed.

(** ** [strip_protocol] applied twice (C9) *)

(** C9 (as amended).  On an input in which no separator [://] is directly
    followed by another slash, the output of [strip_protocol] contains no
    separator and a second application changes nothing. *)
Theorem strip_protocol_idempotent (s : string) :
  contains ":///" s = false ->
  contains "://" (strip_protocol s) = false
  /\ strip_protocol (strip_protocol s) = strip_protocol s.
Proof.
  intros H.
  pose proof (sub_protocol_keeps_no_separator _ s (Nat.le_refl _) H) as E.
  split; [exact E|]. apply strip_protocol_twice_iff. exact E.
Qed.

Lemma strip_protocol_idempotent_witness :
  contains ":///" RootPackURL = false
  /\ contains "://" (strip_protocol RootPackURL) = false
  /\ strip_protocol (strip_protocol RootPackURL) = strip_protocol RootPackURL.
Proof.
  split; [reflexivity|]. apply (strip_protocol_idempotent RootPackURL). reflexivity.
Defined.

(** C9, as stated, fails: the text around a removed match can form a new
    separator, which a second application removes. *)
Lemma strip_protocol_not_idempotent :
  strip_protocol "a:b:////c" = "a://c"
  /\ strip_protocol (strip_protocol "a:b:////c") = "c"
  /\ strip_protocol (strip_protocol "a:b:////c") <> strip_protocol "a:b:////c".
Proof.
  assert (E1 : strip_protocol "a:b:////c" = "a://c") by reflexivity.
  assert (E2 : strip_protocol "a://c" = "c") by reflexivity.
  rewrite E1, E2. repeat split. discriminate.
Qed.

(** ** A failed download (C3) *)

Lemma descriptor_devices_none (soup : Tag) (d : string) :
  find_all "device" soup = [] -> descriptor_devices soup d = Ok ∅.
Proof. unfold descriptor_devices. intros ->. reflexivity. Qed.

(** C3 (as amended).  When the download of a URL raises, [cache_file]
    writes the error to stderr, increments the counter and returns, so the
    batch goes on with the next URL.  A file does exist at the URL's cache
    path afterwards: it holds the bytes received before the failure.  When
    no device element parses out of those bytes, the descriptor adds
    nothing to an index built later. *)
Theorem cache_file_failed_download (xdg_data_home : string) (BeautifulSoup : string -> Tag)
    (c : Cache) (w : World) (curl : Curl) (url e : string) :
  can_write w (cache_path xdg_data_home url) ->
  error (network w (curl_options xdg_data_home c curl url)) = Some e ->
  let curl' := curl_options xdg_data_home c curl url in
  let received := body (network w curl') in
  exists c' w',
    cache_file xdg_data_home curl url (c, w) = (Ok curl', (c', w'))
    /\ counter c' = counter c + 1
    /\ stderr w' = stderr w ++ "[ ERROR ] file " ++ url ++ " did not download " ++ e ++ LF
    /\ fs w' !! cache_path xdg_data_home url = Some received
    /\ (forall rest,
          Cacher_run (cache_file xdg_data_home) curl (url :: rest) (c, w)
          = Cacher_run (cache_file xdg_data_home) curl' rest (c', w'))
    /\ (find_all "device" (BeautifulSoup received) = [] ->
        forall c2, exists c3 w3,
          _generate_index_helper xdg_data_home BeautifulSoup url (c2, w') = (Ok tt, (c3, w3))
          /\ _index c3 = _index c2).
Proof.
  intros Hw He. cbv zeta.
  pose proof (cache_file_run xdg_data_home c w curl url Hw) as R. cbv zeta in R.
  do 2 eexists. split; [exact R|].
  split; [destruct c; reflexivity|].
  split; [unfold cache_file_stderr; rewrite He; reflexivity|].
  split; [apply lookup_insert_eq|].
  split.
  - intros rest. cbn [Cacher_run]. unfold bind at 1. rewrite R. reflexivity.
  - intros Hnone c2.
    assert (Hf : fs (mkWorld
                       (<[cache_path xdg_data_home url :=
                            body (network w (curl_options xdg_data_home c curl url))]> (fs w))
                       (makedirs_errno w) (open_wb_errno w) (network w)
                       (stdout w ++ cache_file_stdout c url)
                       (stderr w ++ cache_file_stderr url
                                      (network w (curl_options xdg_data_home c curl url))))
                 !! cache_path xdg_data_home url
                 = Some (body (network w (curl_options xdg_data_home c curl url))))
      by apply lookup_insert_eq.
    rewrite (helper_run _ BeautifulSoup c2 _ _ _ Hf).
    rewrite (descriptor_devices_none _ _ Hnone).
    do 2 eexists. split; [reflexivity|].
    destruct c2; simpl. apply (left_id_L ∅ (∪)).
Qed.

Lemma cache_file_failed_download_witness :
  can_write demo_world (cache_path demo_home url_gone)
  /\ error (network demo_world (curl_options demo_home (Cache_init true false) new_Curl url_gone))
     = Some "(6, 'Could not resolve host')"
  /\ exists c' w',
       cache_file demo_home new_Curl url_gone (Cache_init true false, demo_world)
       = (Ok (curl_options demo_home (Cache_init true false) new_Curl url_gone), (c', w'))
       /\ fs w' !! cache_path demo_home url_gone = Some "".
Proof.
  assert (H : can_write demo_world (cache_path demo_home url_gone)).
  { split; [left|]; reflexivity. }
  split; [exact H|]. split; [reflexivity|].
  destruct (cache_file_failed_download demo_home demo_soup (Cache_init true false) demo_world
              new_Curl url_gone _ H eq_refl) as (c' & w' & R & _ & _ & F & _).
  exists c', w'. split; [exact R|exact F].
Defined.

(** C3, as stated, fails: of three URLs the second does not download, and
    after the batch all three have a file in the cache, the failed one an
    empty file. *)
Lemma failed_download_leaves_file :
  let batch := [url_lpc; url_gone; url_stm] in
  let after := cache_descriptor_list demo_home batch (Cache_init true false, demo_world) in
  fst after = Ok tt
  /\ error (demo_network (curl_options demo_home (Cache_init true false) new_Curl url_gone))
     = Some "(6, 'Could not resolve host')"
  /\ fs (snd (snd after)) !! cache_path demo_home url_gone = Some ""
  /\ size (fs (snd (snd after))) = 3%nat
  /\ stderr (snd (snd after))
     = "[ ERROR ] file " ++ url_gone ++ " did not download (6, 'Could not resolve host')" ++ LF.
Proof. vm_compute. repeat split. Qed.

(** ** Partial device records (C4) *)

(** C4, as stated, fails: a device whose algorithm element has no [name]
    gets a record with [file] and [memory], not [file] alone, since the
    memory regions are stored before the algorithm is read. *)
Lemma missing_algorithm_keeps_memory :
  algorithm_of device_no_algorithm_name = Raise (KeyError "name")
  /\ _extract_dict device_no_algorithm_name url_lpc
     = Ok (<["memory" := FMemory {["IROM1" := {["start" := VStr "0x00000000";
                                                "size" := VStr "0x80000"]}]}]>
           {["file" := FStr url_lpc]})
  /\ (forall r, _extract_dict device_no_algorithm_name url_lpc = Ok r -> dom r <> {["file"]}).
Proof.
  split; [reflexivity|].
  assert (E : _extract_dict device_no_algorithm_name url_lpc
              = Ok (<["memory" := FMemory {["IROM1" := {["start" := VStr "0x00000000";
                                                         "size" := VStr "0x80000"]}]}]>
                    {["file" := FStr url_lpc]})) by (vm_compute; reflexivity).
  split; [exact E|].
  intros r H. rewrite E in H. injection H as <-.
  intros D. apply (f_equal size) in D. vm_compute in D. discriminate D.
Qed.

Lemma extract_dict_partial_record_witness :
  _extract_dict device_no_dname url_lpc
  = Ok (<["algorithm" := FStr "Flash/LPC_IAP_512.FLM"]>
        (<["memory" := FMemory {["IROM1" := {["start" := VStr "0x00000000";
                                              "size" := VStr "0x80000"]}]}]>
         {["file" := FStr url_lpc]}))
  /\ forall r, _extract_dict device_no_dname url_lpc = Ok r ->
       r !! "file" = Some (FStr url_lpc).
Proof.
  split; [vm_compute; reflexivity|].
  intros r H.
  exact (proj1 (proj2 (extract_dict_partial_record device_no_dname url_lpc) r H)).
Defined.

(** ** Failures while the index is built (C6) and uncached entries (C7) *)

(** C6.  The failing input: a cached descriptor whose device element has
    no [Dname].  The record of the device can be built, as
    [_extract_dict] swallows the [KeyError] of a missing attribute; the
    helper reads [dev['dname']] outside that handler and its own handler
    names [AttributeError] only, so that the [KeyError] leaves the helper:
    nothing is caught, nothing is printed and the counter is not
    incremented.  In [Reader.run] the call of [task_done] comes after the
    call of the helper: the worker that took this descriptor ends without
    it, and the [q.join()] of [do_queue] waits for it for ever. *)
Theorem helper_key_error_escapes :
  fs demo_cached !! cache_path demo_home url_nodname = Some "<package>NoDname</package>"
  /\ find_all "device" (demo_soup "<package>NoDname</package>") = [device_no_dname]
  /\ is_ok (_extract_dict device_no_dname url_nodname) = true
  /\ getitem device_no_dname "dname" = Raise (KeyError "dname")
  /\ _generate_index_helper demo_home demo_soup url_nodname (Cache_init true false, demo_cached)
     = (Raise (KeyError "dname"), (Cache_init true false, demo_cached)).
Proof. vm_compute. repeat split. Qed.

(** C7 (as amended).  For a URL with no file at its cache path,
    [pull_from_cache] raises [IOError] and changes nothing: it has no
    handler, and it neither downloads nor returns a default.
    [_generate_index_helper], whose handler names only [AttributeError],
    lets the error through to its caller.  [get_urls] does catch it, for
    the root index: it downloads the root index and goes on with the
    downloaded file. *)
Theorem pull_from_cache_uncached (xdg_data_home : string) (BeautifulSoup : string -> Tag)
    (c : Cache) (w : World) (url : string) :
  fs w !! cache_path xdg_data_home url = None ->
  pull_from_cache xdg_data_home BeautifulSoup url (c, w)
  = (Raise (IOError ENOENT (cache_path xdg_data_home url)), (c, w))
  /\ _generate_index_helper xdg_data_home BeautifulSoup url (c, w)
     = (Raise (IOError ENOENT (cache_path xdg_data_home url)), (c, w))
  /\ (url = RootPackURL ->
      (urls c = None \/ urls c = Some []) ->
      can_write w (cache_path xdg_data_home RootPackURL) ->
      let resp := network w (curl_options xdg_data_home c new_Curl RootPackURL) in
      fst (get_urls xdg_data_home BeautifulSoup (c, w)) = pdsc_urls (BeautifulSoup (body resp))
      /\ fs (snd (snd (get_urls xdg_data_home BeautifulSoup (c, w))))
           !! cache_path xdg_data_home RootPackURL = Some (body resp)).
Proof.
  intros H. split; [|split].
  - exact (pull_from_cache_miss _ _ _ _ _ H).
  - exact (helper_miss _ _ _ _ _ H).
  - intros -> Hu Hw. cbv zeta.
    rewrite (get_urls_fetched _ _ _ _ Hu H Hw). cbv zeta.
    destruct (pdsc_urls _); (split; [reflexivity|apply lookup_insert_eq]).
Qed.

Lemma pull_from_cache_uncached_witness :
  fs demo_cached !! cache_path demo_home url_stm = None
  /\ pull_from_cache demo_home demo_soup url_stm (Cache_init true false, demo_cached)
     = (Raise (IOError ENOENT
                 "/home/user/.local/share/arm-pack-manager/www.keil.com/pack/Keil.STM32F4xx_DFP.pdsc"),
        (Cache_init true false, demo_cached)).
Proof.
  assert (H : fs demo_cached !! cache_path demo_home url_stm = None) by (vm_compute; reflexivity).
  split; [exact H|].
  exact (proj1 (pull_from_cache_uncached demo_home demo_soup (Cache_init true false)
                  demo_cached url_stm H)).
Defined.

(** C7, as stated, fails for the root index: the [IOError] that
    [pull_from_cache] raises for it is caught inside [get_urls], which
    downloads the file and returns the list parsed from it. *)
Lemma get_urls_catches_missing_root :
  fs demo_world !! cache_path demo_home RootPackURL = None
  /\ fst (pull_from_cache demo_home demo_soup RootPackURL (Cache_init true false, demo_world))
     = Raise (IOError ENOENT (cache_path demo_home RootPackURL))
  /\ fst (get_urls demo_home demo_soup (Cache_init true false, demo_world)) = Ok [url_lpc]
  /\ fs (snd (snd (get_urls demo_home demo_soup (Cache_init true false, demo_world))))
       !! cache_path demo_home RootPackURL
     = Some "<index><pdsc Keil.LPC1700_DFP/></index>".
Proof. vm_compute. repeat split. Qed.


(** ** Rebuilding the index (C5) and reading it (C10) *)



Lemma index_missing_snapshot_witness :
  _index (Cache_init true false) = ∅
  /\ fs demo_cached !! index_path demo_home = None
  /\ index demo_home demo_soup demo_dump demo_load (Cache_init true false, demo_cached)
     = match generate_index demo_home demo_soup demo_dump (Cache_init true false, demo_cached) with
       | (Ok _, (c', w')) => (Ok (_index c'), (c', w'))
       | (Raise e, s) => (Raise e, s)
       end.
Proof.
  assert (H : fs demo_cached !! index_path demo_home = None) by (vm_compute; reflexivity).
  split; [reflexivity|]. split; [exact H|].
  exact (proj1 (proj2 (index_missing_snapshot demo_home demo_soup demo_dump demo_load
                         (Cache_init true false) demo_cached eq_refl) H)).
Defined.

(** Reading [index] on a fresh object, with no snapshot and no root index
    on disk: nothing is raised, the root index is downloaded and the
    snapshot is written. *)
Example index_regenerates_silently :
  let after := index demo_home demo_soup demo_dump demo_load (Cache_init true false, demo_cached) in
  match fst after with
  | Ok i => dom i = {["LPC1768"; "LPC1769"]}
  | Raise _ => False
  end
  /\ fs (snd (snd after)) !! cache_path demo_home RootPackURL
     = Some "<index><pdsc Keil.LPC1700_DFP/></index>"
  /\ fs (snd (snd after)) !! index_path demo_home = Some "{LPC1769, LPC1768}".
Proof. vm_compute. repeat split. Qed.

(** ** Looking a device up (C2, C8) *)

Lemma find_device_top_band_witness :
  index demo_home demo_soup demo_dump demo_load (demo_cache, demo_world)
  = (Ok demo_index, (demo_cache, demo_world))
  /\ exists res,
       find_device demo_home demo_soup demo_scorer demo_dump demo_load "LPC176"
         (demo_cache, demo_world) = (Ok res, (demo_cache, demo_world))
       /\ (forall name record,
             (name, record) ∈ res <->
             demo_index !! name = Some record
             /\ forall k, is_Some (demo_index !! k) ->
                  demo_scorer "LPC176" k <= demo_scorer "LPC176" name).
Proof.
  assert (H : index demo_home demo_soup demo_dump demo_load (demo_cache, demo_world)
              = (Ok demo_index, (demo_cache, demo_world))) by (vm_compute; reflexivity).
  split; [exact H|].
  destruct (find_device_top_band demo_home demo_soup demo_scorer demo_dump demo_load
              demo_scorer_range "LPC176" demo_cache demo_cache demo_world demo_world demo_index H H)
    as (res & R & M & _).
  exists res. split; [exact R|exact M].
Defined.

(** Two lists ordered by a strict order that have the same members are
    the same list. *)
Lemma strictly_sorted_unique {A} (R : relation A) (l l' : list A) :
  (forall x, ~ R x x) -> (forall x y, R x y -> R y x -> False) ->
  StronglySorted R l -> StronglySorted R l' ->
  (forall x, x ∈ l <-> x ∈ l') -> l = l'.
Proof.
  intros Hirr Hasym. revert l'.
  induction l as [|x l IH]; intros l' Hl Hl' Hm.
  - destruct l' as [|y l']; [reflexivity|].
    assert (H : y ∈ []) by (apply Hm; left). inversion H.
  - destruct l' as [|y l'].
    { assert (H : x ∈ []) by (apply Hm; left). inversion H. }
    apply StronglySorted_inv in Hl as [Hl Hx].
    apply StronglySorted_inv in Hl' as [Hl' Hy].
    rewrite Forall_forall in Hx, Hy.
    assert (E : x = y).
    { assert (H1 : x ∈ y :: l') by (apply Hm; left).
      assert (H2 : y ∈ x :: l) by (apply Hm; left).
      apply elem_of_cons in H1 as [H1|H1]; [exact H1|].
      apply elem_of_cons in H2 as [H2|H2]; [symmetry; exact H2|].
      destruct (Hasym x y (Hx y H2) (Hy x H1)). }
    subst y. f_equal. apply IH; [exact Hl|exact Hl'|].
    intros z. split; intros Hz.
    + assert (H : z ∈ x :: l') by (apply Hm; right; exact Hz).
      apply elem_of_cons in H as [->|H]; [|exact H].
      destruct (Hirr x (Hx x Hz)).
    + assert (H : z ∈ x :: l) by (apply Hm; right; exact Hz).
      apply elem_of_cons in H as [->|H]; [|exact H].
      destruct (Hirr x (Hy x Hz)).
Qed.

Lemma StronglySorted_fmap_inv {A B} (f : A -> B) (R : relation B) (l : list A) :
  StronglySorted R (f <$> l) -> StronglySorted (fun a b => R (f a) (f b)) l.
Proof.
  induction l as [|x l IH]; intros H; [constructor|].
  simpl in H. apply StronglySorted_inv in H as [H Hx]. constructor; [apply IH, H|].
  rewrite Forall_forall in Hx. apply Forall_forall. intros y Hy. apply Hx.
  apply list_elem_of_fmap. exists y. auto.
Qed.

(** C8.  [find_device] returns the entries that tie at the highest score,
    all of them, in descending order of [(score, name)]: as the scores are
    all equal, the names are in strictly descending order.  The list is
    thereby determined by the index and the query: it is the only list
    with these members in this order, and it is the same whatever order
    the dictionary lists its keys in. *)
Theorem find_device_order (xdg_data_home : string) (BeautifulSoup : string -> Tag)
    (scorer : string -> string -> Z) (dump : gmap string (gmap string Field) -> string)
    (load : string -> result (gmap string (gmap string Field)))
    (scorer_range : forall query choice, 0 <= scorer query choice <= 100)
    (match_ : string) (c c' : Cache) (w w' : World)
    (idx : gmap string (gmap string Field)) :
  index xdg_data_home BeautifulSoup dump load (c, w) = (Ok idx, (c', w')) ->
  index xdg_data_home BeautifulSoup dump load (c', w') = (Ok idx, (c', w')) ->
  exists res,
    find_device xdg_data_home BeautifulSoup scorer dump load match_ (c, w) = (Ok res, (c', w'))
    /\ (forall name record,
          (name, record) ∈ res <->
          idx !! name = Some record
          /\ forall k, is_Some (idx !! k) -> scorer match_ k <= scorer match_ name)
    /\ StronglySorted tuple_ge (map (fun x => (scorer match_ x.1, x.1)) res)
    /\ StronglySorted (fun a b => String_as_OT.lt b a) res.*1
    /\ (forall res' : list (string * gmap string Field),
          (forall x, x ∈ res' <-> x ∈ res) ->
          StronglySorted (fun a b => String_as_OT.lt b a) res'.*1 ->
          res' = res)
    /\ (forall keys, keys ≡ₚ (map_to_list idx).*1 ->
          res.*1 = (best_matches scorer match_ keys).*2).
Proof.
  intros H1 H2.
  destruct (find_device_run xdg_data_home BeautifulSoup scorer dump load scorer_range
              match_ c c' w w' idx H1 H2) as (res & R & Hn & Hf).
  assert (Hs : StronglySorted (fun a b => String_as_OT.lt b a) res.*1).
  { rewrite Hn. apply best_matches_names_sorted; [exact scorer_range|].
    apply NoDup_fst_map_to_list. }
  exists res. split; [exact R|]. split; [|split; [|split; [exact Hs|split]]].
  - rewrite Forall_forall in Hf. intros name record. split.
    + intros Hin. split; [exact (Hf _ Hin)|].
      assert (Hname : name ∈ res.*1) by (apply list_elem_of_fmap; exists (name, record); auto).
      rewrite Hn in Hname. apply list_elem_of_fmap in Hname as (t & -> & Ht).
      destruct (best_matches_scored _ scorer_range _ _ _ Ht) as [Et _].
      apply best_matches_spec in Ht as [_ Ht]; [|exact scorer_range].
      intros k Hk. apply keys_elem_of in Hk. specialize (Ht k Hk).
      rewrite Et in Ht. exact Ht.
    + intros [Hl Hmax].
      assert (Ht : (scorer match_ name, name) ∈ best_matches scorer match_ (map_to_list idx).*1).
      { apply best_matches_spec; [exact scorer_range|]. split.
        - apply list_elem_of_fmap. exists name. split; [reflexivity|].
          apply keys_elem_of. eauto.
        - intros k Hk. apply Hmax, keys_elem_of, Hk. }
      assert (Hname : name ∈ res.*1).
      { rewrite Hn. apply list_elem_of_fmap. eexists. split; [|exact Ht]. reflexivity. }
      apply list_elem_of_fmap in Hname as ([n r] & -> & Hx).
      pose proof (Hf _ Hx) as Hr. simpl in *. rewrite Hl in Hr. injection Hr as <-. exact Hx.
  - assert (E : map (fun x => (scorer match_ x.1, x.1)) res
                = best_matches scorer match_ (map_to_list idx).*1).
    { pose proof (best_matches_scored _ scorer_range match_ (map_to_list idx).*1) as Hb.
      revert Hn Hb. generalize (best_matches scorer match_ (map_to_list idx).*1).
      clear. induction res as [|x res IH]; intros [|t l] Hn Hb; try discriminate; [reflexivity|].
      injection Hn as Hx Hn. simpl. f_equal.
      - rewrite Hx. symmetry. apply Hb. left.
      - apply IH; [exact Hn|]. intros t' Ht'. apply Hb. right. exact Ht'. }
    rewrite E. apply best_matches_sorted. exact scorer_range.
  - intros res' Hm Hs'.
    apply (strictly_sorted_unique (fun a b : string * gmap string Field =>
                                     String_as_OT.lt b.1 a.1)).
    + intros x. exact (StrictOrder_Irreflexive (R := String_as_OT.lt) x.1).
    + intros x y Hxy Hyx.
      exact (StrictOrder_Irreflexive (R := String_as_OT.lt) _
               (StrictOrder_Transitive (R := String_as_OT.lt) _ _ _ Hxy Hyx)).
    + apply (StronglySorted_fmap_inv fst (fun a b => String_as_OT.lt b a)). exact Hs'.
    + apply (StronglySorted_fmap_inv fst (fun a b => String_as_OT.lt b a)). exact Hs.
    + exact Hm.
  - intros keys Hk. rewrite Hn.
    rewrite (best_matches_permutation _ scorer_range _ _ _ Hk). reflexivity.
Qed.

Lemma find_device_order_witness :
  index demo_home demo_soup demo_dump demo_load (demo_cache, demo_world)
  = (Ok demo_index, (demo_cache, demo_world))
  /\ find_device demo_home demo_soup demo_scorer demo_dump demo_load "LPC176"
       (demo_cache, demo_world)
     = (Ok [("LPC1769", {["file" := FStr url_lpc]}); ("LPC1768", lpc1768_record)],
        (demo_cache, demo_world))
  /\ demo_scorer "LPC176" "LPC1769" = demo_scorer "LPC176" "LPC1768"
  /\ StronglySorted (fun a b => String_as_OT.lt b a) ["LPC1769"; "LPC1768"]
  /\ forall res' : list (string * gmap string Field),
       (forall x, x ∈ res' <->
                  x ∈ [("LPC1769", ({["file" := FStr url_lpc]} : gmap string Field));
                       ("LPC1768", lpc1768_record)]) ->
       StronglySorted (fun a b => String_as_OT.lt b a) res'.*1 ->
       res' = [("LPC1769", {["file" := FStr url_lpc]}); ("LPC1768", lpc1768_record)].
Proof.
  assert (H : index demo_home demo_soup demo_dump demo_load (demo_cache, demo_world)
              = (Ok demo_index, (demo_cache, demo_world))) by (vm_compute; reflexivity).
  assert (E : find_device demo_home demo_soup demo_scorer demo_dump demo_load "LPC176"
                (demo_cache, demo_world)
              = (Ok [("LPC1769", {["file" := FStr url_lpc]}); ("LPC1768", lpc1768_record)],
                 (demo_cache, demo_world))) by (vm_compute; reflexivity).
  split; [exact H|]. split; [exact E|]. split; [reflexivity|].
  destruct (find_device_order demo_home demo_soup demo_scorer demo_dump demo_load
              demo_scorer_range "LPC176" demo_cache demo_cache demo_world demo_world demo_index H H)
    as (res & R & _ & _ & S & U & _).
  rewrite E in R. injection R as <-.
  split; [exact S|exact U].
Defined.

(** The two LPC devices tie for the query; both are returned, the greater
    name first.  On an empty index nothing is returned. *)
Example find_device_tie :
  fst (find_device demo_home demo_soup demo_scorer demo_dump demo_load "LPC176"
         (demo_cache, demo_world))
  = Ok [("LPC1769", {["file" := FStr url_lpc]}); ("LPC1768", lpc1768_record)].
Proof. vm_compute. reflexivity. Qed.

Example find_device_empty_index :
  fst (find_device demo_home demo_soup demo_scorer demo_dump demo_load "LPC176"
         (Cache_init true false,
          set_fs {[index_path demo_home := "{}"]} demo_world))
  = Ok [].
Proof. vm_compute. reflexivity. Qed.

(** * Further properties *)

(** ** Further properties of [strip_protocol] *)

Lemma match_protocol_scheme (w rest : string) :
  all_word w = true -> match_protocol (w ++ "://" ++ rest) = Some rest.
Proof.
  induction w as [|c w IH]; intros H.
  - reflexivity.
  - simpl in H. apply andb_true_iff in H as [Hc Hw].
    change (String c w ++ "://" ++ rest) with (String c (w ++ "://" ++ rest)).
    rewrite match_protocol_word by exact Hc. apply IH, Hw.
Qed.

Lemma strip_protocol_scheme (w rest : string) :
  all_word w = true -> strip_protocol (w ++ "://" ++ rest) = strip_protocol rest.
Proof.
  intros H. unfold strip_protocol.
  pose proof (match_protocol_scheme w rest H) as E.
  destruct (w ++ "://" ++ rest) as [|c s] eqn:Es.
  - discriminate E.
  - rewrite sub_protocol_cons, E. reflexivity.
Qed.

(** X1.  [strip_protocol] never lengthens its argument, and it returns
    the argument unchanged exactly when the argument contains no
    separator [://]. *)
Theorem strip_protocol_fixed_point (s : string) :
  (String.length (strip_protocol s) <= String.length s)%nat
  /\ (strip_protocol s = s <-> contains "://" s = false).
Proof.
  unfold strip_protocol. split.
  - apply (sub_protocol_length (String.length s)). lia.
  - split.
    + intros H. destruct (contains "://" s) eqn:E; [|reflexivity].
      apply sub_protocol_separator_shrinks in E. rewrite H in E. lia.
    + apply sub_protocol_no_separator.
Qed.

(** X2.  The scheme of a URL does not reach the cache path: two URLs
    that differ only in the word before [://] are cached at the same
    path, that of the text after the separator. *)
Theorem cache_path_ignores_scheme (xdg_data_home w1 w2 rest : string) :
  all_word w1 = true -> all_word w2 = true ->
  cache_path xdg_data_home (w1 ++ "://" ++ rest) = cache_path xdg_data_home (w2 ++ "://" ++ rest)
  /\ cache_path xdg_data_home (w1 ++ "://" ++ rest) = cache_path xdg_data_home rest.
Proof.
  intros H1 H2. unfold cache_path.
  rewrite !strip_protocol_scheme by assumption. split; reflexivity.
Qed.

Lemma cache_path_ignores_scheme_witness :
  cache_path demo_home "http://www.keil.com/pack/index.idx"
  = cache_path demo_home "https://www.keil.com/pack/index.idx".
Proof.
  apply (cache_path_ignores_scheme demo_home "http" "https" "www.keil.com/pack/index.idx");
    reflexivity.
Defined.

(** ** When [cache_file] raises *)

(** [cache_file] on a destination the operating system refuses. *)
Lemma cache_file_not_writable (xdg_data_home : string) (c : Cache) (w : World)
    (curl : Curl) (url : string) :
  let dest := cache_path xdg_data_home url in
  ~ can_write w dest ->
  exists e out,
    cache_file xdg_data_home curl url (c, w) = (Raise e, (c, set_stdout out w))
    /\ ((exists errno, makedirs_errno w (dirname dest) = Some errno /\ errno <> EEXIST
                       /\ e = OSError errno (dirname dest))
        \/ (exists errno, open_wb_errno w dest = Some errno /\ e = IOError errno dest)).
Proof.
  intros dest Hc. unfold cache_file. fold (cache_path xdg_data_home url). fold dest.
  destruct c as [sil cnt tot idx us nt]; destruct w as [f mk op net out err].
  unfold can_write in Hc. simpl in Hc.
  cbv beta iota delta [bind try_except makedirs open_wb file_write print stdout_write
    stderr_write display_counter update_self update_world self world modify ret raise
    fst snd negb makedirs_errno open_wb_errno fs stdout stderr network set_fs set_stdout
    set_stderr set_counter counter total silent no_timeouts _index urls].
  destruct sil; cbv beta iota.
  all: destruct (mk (dirname dest)) as [errno|] eqn:Emk; cbv beta iota.
  all: try (destruct (errno =? EEXIST) eqn:Ee; cbv beta iota delta [raise]).
  all: try (destruct (op dest) as [errno'|] eqn:Eop; cbv beta iota).
  all: try (apply Z.eqb_eq in Ee; subst errno).
  all: try (exfalso; apply Hc; split; [auto|reflexivity]; fail).
  all: eexists; eexists; split; [reflexivity|].
  all: try (right; eexists; split; [reflexivity|reflexivity]; fail).
  all: left; exists errno; repeat split; try reflexivity; apply Z.eqb_neq, Ee.
Qed.

(** X3.  What the operating system refuses, [cache_file] raises, before
    the transfer: when [makedirs] fails with an errno other than
    [EEXIST], that [OSError]; when the directory is there or was made and
    the file cannot be opened for writing, that [IOError].  Nothing but
    the line on stdout has happened by then: no file, no counter and
    nothing on stderr has changed.  (The call of [save_data_path] is taken
    to have returned.) *)
Theorem cache_file_refused (xdg_data_home : string) (c : Cache) (w : World)
    (curl : Curl) (url : string) :
  let dest := cache_path xdg_data_home url in
  ~ can_write w dest ->
  exists e w',
    cache_file xdg_data_home curl url (c, w) = (Raise e, (c, w'))
    /\ fs w' = fs w /\ stderr w' = stderr w
    /\ ((exists errno, makedirs_errno w (dirname dest) = Some errno /\ errno <> EEXIST
                       /\ e = OSError errno (dirname dest))
        \/ (exists errno, open_wb_errno w dest = Some errno /\ e = IOError errno dest)).
Proof.
  intros dest Hc.
  destruct (cache_file_not_writable xdg_data_home c w curl url Hc) as (e & out & Hr & He).
  exists e, (set_stdout out w). split; [exact Hr|].
  destruct w. repeat split. exact He.
Qed.

Lemma cache_file_refused_witness :
  ~ can_write demo_readonly (cache_path demo_home url_lpc)
  /\ exists w',
       cache_file demo_home new_Curl url_lpc (Cache_init true false, demo_readonly)
       = (Raise (IOError 13 (cache_path demo_home url_lpc)), (Cache_init true false, w'))
       /\ fs w' = fs demo_readonly.
Proof.
  assert (Hc : ~ can_write demo_readonly (cache_path demo_home url_lpc)).
  { intros [_ H]. discriminate H. }
  split; [exact Hc|].
  destruct (cache_file_refused demo_home (Cache_init true false) demo_readonly new_Curl url_lpc Hc)
    as (e & w' & Hr & Hf & _ & [(errno & Hm & _)|(errno & Ho & ->)]).
  - discriminate Hm.
  - injection Ho as <-. exists w'. split; [exact Hr|exact Hf].
Defined.

(** ** Caching and parsing *)

Section Caching.
Variable xdg_data_home : string.
Variable BeautifulSoup : string -> Tag.

(** X4.  When the file can be created, [cache_and_parse] returns the
    parse of exactly the bytes the transfer delivered and changes nothing
    beyond what [cache_file] changes; a failed download is not an error
    for it. *)
Theorem cache_and_parse_round_trip (c : Cache) (w : World) (url : string) :
  can_write w (cache_path xdg_data_home url) ->
  let resp := network w (curl_options xdg_data_home c new_Curl url) in
  cache_and_parse xdg_data_home BeautifulSoup url (c, w)
  = (Ok (BeautifulSoup (body resp)), snd (cache_file xdg_data_home new_Curl url (c, w))).
Proof.
  intros Hw resp. unfold cache_and_parse. unfold bind.
  rewrite (cache_file_run xdg_data_home c w new_Curl url Hw).
  erewrite pull_from_cache_hit by (simpl; apply lookup_insert_eq).
  reflexivity.
Qed.

Lemma can_write_same_env (w w' : World) (dest : string) :
  same_env w w' -> can_write w dest -> can_write w' dest.
Proof. unfold same_env, can_write. intros (<- & <- & _). auto. Qed.

(** A run of one [Cacher] over a batch of URLs with [cache_file]. *)
Lemma Cacher_run_cache_file (l : list string) :
  forall (curl : Curl) (c : Cache) (w : World),
  (forall url, url ∈ l -> can_write w (cache_path xdg_data_home url)) ->
  exists c' w',
    Cacher_run (cache_file xdg_data_home) curl l (c, w) = (Ok tt, (c', w'))
    /\ counter c' = counter c + Z.of_nat (length l)
    /\ total c' = total c /\ _index c' = _index c /\ urls c' = urls c
    /\ same_env w w'
    /\ (forall url, url ∈ l -> is_Some (fs w' !! cache_path xdg_data_home url))
    /\ (forall p, (forall url, url ∈ l -> p <> cache_path xdg_data_home url) ->
          fs w' !! p = fs w !! p).
Proof.
  induction l as [|url l IH]; intros curl c w Hw.
  - exists c, w. simpl. unfold ret. repeat split; try lia.
    intros url H. inversion H.
  - assert (Hu : can_write w (cache_path xdg_data_home url)) by (apply Hw; left).
    simpl. unfold bind at 1. rewrite (cache_file_run xdg_data_home c w curl url Hu).
    set (c1 := set_counter (counter c + 1) c).
    set (w1 := mkWorld _ _ _ _ _ _).
    assert (He : same_env w w1) by (repeat split).
    destruct (IH (curl_options xdg_data_home c curl url) c1 w1) as (c' & w' & Hr & Hc & Ht & Hi & Hus & He' & Hf & Hfr).
    { intros u Hin. apply (can_write_same_env w); [exact He|]. apply Hw. right. exact Hin. }
    exists c', w'. split; [exact Hr|].
    split; [rewrite Hc; destruct c; simpl; lia|].
    split; [rewrite Ht; destruct c; reflexivity|].
    split; [rewrite Hi; destruct c; reflexivity|].
    split; [rewrite Hus; destruct c; reflexivity|].
    split; [exact (same_env_trans _ _ _ He He')|].
    split.
    + intros u Hin. apply elem_of_cons in Hin as [->|Hin]; [|apply Hf, Hin].
      destruct (decide (cache_path xdg_data_home url ∈ map (cache_path xdg_data_home) l)) as [Hd|Hd].
      * apply list_elem_of_fmap in Hd as (u' & Heq & Hin'). rewrite Heq. apply Hf, Hin'.
      * rewrite Hfr.
        -- subst w1. simpl. rewrite lookup_insert_eq. eauto.
        -- intros u' Hin' Heq. apply Hd. apply list_elem_of_fmap. eauto.
    + intros p Hp. rewrite Hfr by (intros u Hin; apply Hp; right; exact Hin).
      subst w1. simpl. apply lookup_insert_ne. intros Heq. apply (Hp url); [left|congruence].
Qed.

(** X5.  One [Cacher] that works through a batch alone with
    [cache_file], on a disk that accepts every file of the batch, gets
    through it whatever the downloads did: the counter has advanced by
    the length of the batch, the total, the index and the list of URLs
    are untouched, every URL of the batch has a file at its cache path,
    and no other file has changed. *)
Theorem Cacher_run_batch (l : list string) (curl : Curl) (c : Cache) (w : World) :
  (forall url, url ∈ l -> can_write w (cache_path xdg_data_home url)) ->
  exists c' w',
    Cacher_run (cache_file xdg_data_home) curl l (c, w) = (Ok tt, (c', w'))
    /\ counter c' = counter c + Z.of_nat (length l)
    /\ total c' = total c /\ _index c' = _index c /\ urls c' = urls c
    /\ (forall url, url ∈ l -> is_Some (fs w' !! cache_path xdg_data_home url))
    /\ (forall p, (forall url, url ∈ l -> p <> cache_path xdg_data_home url) ->
          fs w' !! p = fs w !! p).
Proof.
  intros Hw.
  destruct (Cacher_run_cache_file l curl c w Hw)
    as (c' & w' & Hr & Hc & Ht & Hi & Hu & _ & Hf & Hfr).
  exists c', w'. auto 10.
Qed.

End Caching.

Lemma cache_and_parse_round_trip_witness :
  can_write demo_world (cache_path demo_home url_gone)
  /\ fst (cache_and_parse demo_home demo_soup url_gone (Cache_init true false, demo_world))
     = Ok (mkTag "[document]" ∅ []).
Proof.
  assert (H : can_write demo_world (cache_path demo_home url_gone)).
  { split; [left|]; reflexivity. }
  split; [exact H|].
  rewrite (cache_and_parse_round_trip demo_home demo_soup (Cache_init true false) demo_world
             url_gone H).
  reflexivity.
Defined.

Lemma Cacher_run_batch_witness :
  (forall url, url ∈ [url_lpc; url_gone] -> can_write demo_world (cache_path demo_home url))
  /\ exists c' w',
       Cacher_run (cache_file demo_home) new_Curl [url_lpc; url_gone]
         (Cache_init true false, demo_world) = (Ok tt, (c', w'))
       /\ counter c' = 2 /\ total c' = 1
       /\ is_Some (fs w' !! cache_path demo_home url_gone).
Proof.
  assert (H : forall url, url ∈ [url_lpc; url_gone] ->
                can_write demo_world (cache_path demo_home url)).
  { intros url _. split; [left|]; reflexivity. }
  split; [exact H|].
  destruct (Cacher_run_batch demo_home [url_lpc; url_gone] new_Curl (Cache_init true false)
              demo_world H) as (c' & w' & Hr & Hc & Ht & _ & _ & Hf & _).
  exists c', w'. split; [exact Hr|]. split; [exact Hc|]. split; [exact Ht|].
  apply Hf. right. left.
Defined.

(** ** The list of descriptor URLs *)

Section GetUrls.
Variable xdg_data_home : string.
Variable BeautifulSoup : string -> Tag.

(** X6.  [get_urls] remembers a non-empty list: once it has returned one,
    the same object returns it again in any world, without reading a file
    or using the network, so that a root index that changed meanwhile is
    not noticed.  An empty list is not remembered: the root index is read
    again on every call. *)
Theorem get_urls_remembered (c : Cache) (w : World) (l : list string) (c1 : Cache) (w1 : World) :
  get_urls xdg_data_home BeautifulSoup (c, w) = (Ok l, (c1, w1)) ->
  (l <> [] -> forall w', get_urls xdg_data_home BeautifulSoup (c1, w') = (Ok l, (c1, w')))
  /\ (l = [] -> forall w' data,
        fs w' !! cache_path xdg_data_home RootPackURL = Some data ->
        fst (get_urls xdg_data_home BeautifulSoup (c1, w')) = pdsc_urls (BeautifulSoup data)).
Proof.
  intros H. destruct (get_urls_post xdg_data_home BeautifulSoup c w l c1 w1 H)
    as (_ & _ & _ & Hu & _).
  split.
  - intros Hl w'. destruct l as [|u us]; [congruence|].
    apply get_urls_known. exact Hu.
  - intros -> w' data Hf.
    rewrite (get_urls_cached xdg_data_home BeautifulSoup c1 w' data (or_intror Hu) Hf).
    destruct (pdsc_urls (BeautifulSoup data)); reflexivity.
Qed.

(** X7.  The root index is downloaded at most once.  When it is not in
    the cache, [get_urls] stores whatever the transfer delivered, the
    partial bytes of a failed transfer included; any later object finds
    that file, returns what parses out of it and leaves the world as it
    is, whatever the network would answer by then. *)
Theorem root_index_fetched_once (c : Cache) (w : World) :
  (urls c = None \/ urls c = Some []) ->
  fs w !! cache_path xdg_data_home RootPackURL = None ->
  can_write w (cache_path xdg_data_home RootPackURL) ->
  let received := body (network w (curl_options xdg_data_home c new_Curl RootPackURL)) in
  let after := get_urls xdg_data_home BeautifulSoup (c, w) in
  fst after = pdsc_urls (BeautifulSoup received)
  /\ fs (snd (snd after)) !! cache_path xdg_data_home RootPackURL = Some received
  /\ forall (c2 : Cache) (later : Curl -> Response),
       (urls c2 = None \/ urls c2 = Some []) ->
       let again := get_urls xdg_data_home BeautifulSoup (c2, set_network later (snd (snd after))) in
       fst again = pdsc_urls (BeautifulSoup received)
       /\ snd (snd again) = set_network later (snd (snd after)).
Proof.
  intros Hu Hf Hw received after.
  assert (Ha : fs (snd (snd after)) !! cache_path xdg_data_home RootPackURL = Some received).
  { subst after. rewrite (get_urls_fetched xdg_data_home BeautifulSoup c w Hu Hf Hw).
    fold received. destruct (pdsc_urls _); simpl; apply lookup_insert_eq. }
  split; [|split; [exact Ha|]].
  - subst after. rewrite (get_urls_fetched xdg_data_home BeautifulSoup c w Hu Hf Hw).
    fold received. destruct (pdsc_urls _); reflexivity.
  - intros c2 later Hu2 again. subst again.
    rewrite (get_urls_cached xdg_data_home BeautifulSoup c2 _ received Hu2)
      by (destruct (snd (snd after)); exact Ha).
    destruct (pdsc_urls _); split; reflexivity.
Qed.

Lemma join_attrs_exn (a b : option AttrVal) (e : Exn) :
  join_attrs a b = Raise e -> is_AttributeError e = true.
Proof.
  unfold join_attrs. destruct b as [[b|lb]|]; try (intros [= <-]; reflexivity).
  destruct (starts_with_slash b); [discriminate|].
  destruct a as [[a|la]|]; try discriminate; intros [= <-]; reflexivity.
Qed.

Lemma map_result_fails {A B} (f : A -> result B) (l : list A) (x : A) :
  x ∈ l -> is_ok (f x) = false -> is_ok (map_result f l) = false.
Proof.
  induction l as [|y l IH]; intros Hin Hx; [inversion Hin|].
  simpl. apply elem_of_cons in Hin as [<-|Hin].
  - destruct (f x); [discriminate|reflexivity].
  - destruct (f y); [|reflexivity]. specialize (IH Hin Hx).
    destruct (map_result f l); [discriminate|reflexivity].
Qed.

(** X8.  One malformed entry spoils the list: when the cached root index
    has a [pdsc] element without a [name], or with a relative [name] and
    no [url], [get_urls] raises [AttributeError], returns no URL of the
    other entries and leaves the object and the world unchanged. *)
Theorem get_urls_malformed_entry (c : Cache) (w : World) (data : string) (pdsc : Tag) :
  (urls c = None \/ urls c = Some []) ->
  fs w !! cache_path xdg_data_home RootPackURL = Some data ->
  pdsc ∈ find_all "pdsc" (BeautifulSoup data) ->
  (get_attr pdsc "name" = None
   \/ (exists n, get_attr pdsc "name" = Some (VStr n) /\ starts_with_slash n = false
                 /\ get_attr pdsc "url" = None)) ->
  exists msg,
    get_urls xdg_data_home BeautifulSoup (c, w) = (Raise (AttributeError msg), (c, w)).
Proof.
  intros Hu Hf Hin Hbad.
  rewrite (get_urls_cached xdg_data_home BeautifulSoup c w data Hu Hf).
  destruct (pdsc_urls (BeautifulSoup data)) as [l|e] eqn:Ep.
  - exfalso. unfold pdsc_urls in Ep.
    assert (Hx : is_ok (join_attrs (get_attr pdsc "url") (get_attr pdsc "name")) = false).
    { destruct Hbad as [->|(n & -> & Hn & ->)]; [reflexivity|].
      unfold join_attrs. rewrite Hn. reflexivity. }
    pose proof (map_result_fails
                  (fun pdsc => join_attrs (get_attr pdsc "url") (get_attr pdsc "name"))
                  _ _ Hin Hx) as Hm.
    rewrite Ep in Hm. discriminate.
  - assert (He : is_AttributeError e = true).
    { revert Ep. unfold pdsc_urls.
      apply (map_result_exn _ (fun e => is_AttributeError e = true)).
      intros x e'. apply join_attrs_exn. }
    destruct e; try discriminate. eauto.
Qed.

End GetUrls.

(** ** Device records *)

Lemma replace_char_gone (a b : ascii) (s : string) :
  a <> b -> contains (String a "") (replace_char a b s) = false.
Proof.
  intros Hab. induction s as [|c s IH]; [reflexivity|].
  cbn [replace_char contains startswith]. rewrite IH.
  destruct (Ascii.eqb_spec c a) as [->|Hc].
  - destruct (Ascii.eqb_spec a b); [contradiction|reflexivity].
  - destruct (Ascii.eqb_spec a c); [congruence|reflexivity].
Qed.

Lemma extract_dict_file (device : Tag) (filename : string) (r : gmap string Field) :
  _extract_dict device filename = Ok r -> r !! "file" = Some (FStr filename).
Proof.
  rewrite extract_dict_stages. cbv zeta.
  repeat match goal with
         | |- context [match ?x with Ok _ => _ | Raise _ => _ end] => destruct x
         | |- context [if ?b then _ else _] => destruct b
         end; try discriminate; intros [= <-]; reflexivity.
Qed.

(** X9.  The [algorithm] entry of a device record is a string, the
    [name] of the algorithm element with every backslash turned into a
    slash: no record holds an algorithm path with a backslash. *)
Theorem extract_dict_algorithm_slashes (device : Tag) (filename : string)
    (r : gmap string Field) (v : Field) :
  _extract_dict device filename = Ok r ->
  r !! "algorithm" = Some v ->
  exists name,
    getitem_opt (find "algorithm" device) "name" = Ok (VStr name)
    /\ v = FStr (replace_char "\" "/" name)
    /\ contains "\" (replace_char "\" "/" name) = false.
Proof.
  rewrite extract_dict_stages. cbv zeta.
  destruct (memory_of device) as [m|e].
  2:{ destruct (is_KeyError_or_TypeError e); [|discriminate]. intros [= <-]. discriminate. }
  destruct (algorithm_of device) as [a|e] eqn:Ea.
  2:{ destruct (is_KeyError_or_TypeError e); [|discriminate]. intros [= <-]. discriminate. }
  assert (Hv : forall r' : gmap string Field,
             r' !! "algorithm" = Some (FStr a) -> r' !! "algorithm" = Some v ->
             exists name,
               getitem_opt (find "algorithm" device) "name" = Ok (VStr name)
               /\ v = FStr (replace_char "\" "/" name)
               /\ contains "\" (replace_char "\" "/" name) = false).
  { intros r' H1 H2. rewrite H1 in H2. injection H2 as <-.
    unfold algorithm_of, rbind in Ea.
    destruct (getitem_opt (find "algorithm" device) "name") as [[name|l]|] eqn:En;
      try discriminate.
    simpl in Ea. injection Ea as <-. exists name.
    repeat split. apply replace_char_gone. discriminate. }
  repeat match goal with
         | |- context [match ?x with Ok _ => _ | Raise _ => _ end] => destruct x
         | |- context [if ?b then _ else _] => destruct b
         end; try discriminate; intros [= <-]; apply Hv; reflexivity.
Qed.

Lemma extract_dict_algorithm_slashes_witness :
  exists name,
    getitem_opt (find "algorithm" device_full) "name" = Ok (VStr name)
    /\ FStr "Flash/LPC_IAP_512.FLM" = FStr (replace_char "\" "/" name)
    /\ contains "\" (replace_char "\" "/" name) = false.
Proof.
  apply (extract_dict_algorithm_slashes device_full url_lpc lpc1768_record).
  - vm_compute. reflexivity.
  - reflexivity.
Defined.

(** ** Building the index *)

Lemma map_result_Forall2 {A B} (f : A -> result B) (l : list A) (ys : list B) :
  map_result f l = Ok ys -> Forall2 (fun x y => f x = Ok y) l ys.
Proof.
  revert ys. induction l as [|x l IH]; intros ys; simpl.
  - intros [= <-]. constructor.
  - destruct (f x) as [y|] eqn:Ef; [|discriminate].
    destruct (map_result f l) as [ys'|]; [|discriminate].
    intros [= <-]. constructor; [exact Ef|apply IH; reflexivity].
Qed.

Lemma dict_from_values {V} (P : V -> Prop) (pairs : list (AttrVal * V)) :
  forall (acc r : gmap string V),
  dict_from acc pairs = Ok r ->
  (forall k v, acc !! k = Some v -> P v) ->
  Forall (fun p => P p.2) pairs ->
  forall k v, r !! k = Some v -> P v.
Proof.
  induction pairs as [|[[k0|l0] v0] pairs IH]; intros acc r; simpl.
  - intros [= <-] Ha _. exact Ha.
  - intros Hr Ha Hp. inversion Hp as [|? ? Hv Hp']; subst.
    apply (IH _ _ Hr); [|exact Hp'].
    intros k v. rewrite lookup_insert. case_decide; [intros [= <-]; exact Hv|apply Ha].
  - discriminate.
Qed.

Lemma descriptor_devices_file (soup : Tag) (d : string) (new : gmap string (gmap string Field)) :
  descriptor_devices soup d = Ok new ->
  forall name rec, new !! name = Some rec -> rec !! "file" = Some (FStr d).
Proof.
  unfold descriptor_devices, rbind.
  destruct (map_result _ (find_all "device" soup)) as [pairs|] eqn:Em; [|discriminate].
  intros Hd. apply map_result_Forall2 in Em.
  apply (dict_from_values (fun rec => rec !! "file" = Some (FStr d)) pairs ∅ new Hd).
  - intros k v. rewrite lookup_empty. discriminate.
  - clear Hd. induction Em as [|dev p devs pairs Hp _ IH]; constructor; [|exact IH].
    destruct (getitem dev "dname") as [dname|]; [|discriminate].
    destruct (_extract_dict dev d) as [record|] eqn:Er; [|discriminate].
    injection Hp as <-. simpl. apply (extract_dict_file _ _ _ Er).
Qed.

Lemma foldl_union_lookup {V} (g : string -> gmap string V) (l : list string) :
  forall (m : gmap string V) (k : string) (v : V),
  foldl (fun m d => g d ∪ m) m l !! k = Some v ->
  m !! k = Some v \/ exists d, d ∈ l /\ g d !! k = Some v.
Proof.
  induction l as [|d l IH]; intros m k v; simpl; [auto|].
  intros H. apply IH in H as [H|(d' & Hin & H)].
  - apply lookup_union_Some_raw in H as [H|[_ H]]; [right; exists d; split; [left|exact H]|auto].
  - right. exists d'. split; [right; exact Hin|exact H].
Qed.

Lemma foldl_union_last {V} (g : string -> gmap string V) (l : list string) (k : string) (v : V) :
  forall m : gmap string V,
  m !! k = Some v ->
  (forall d, d ∈ l -> g d !! k = None) ->
  foldl (fun m d => g d ∪ m) m l !! k = Some v.
Proof.
  induction l as [|d l IH]; intros m Hm Hl; simpl; [exact Hm|].
  apply IH; [|intros d' Hin; apply Hl; right; exact Hin].
  apply lookup_union_Some_raw. right. split; [apply Hl; left|exact Hm].
Qed.

Section IndexBuild.
Variable xdg_data_home : string.
Variable BeautifulSoup : string -> Tag.
Variable dump : gmap string (gmap string Field) -> string.

Lemma contribution_file (files : gmap string string) (d : string)
    (new : gmap string (gmap string Field)) :
  contribution xdg_data_home BeautifulSoup files d = Some new ->
  forall name rec, new !! name = Some rec -> rec !! "file" = Some (FStr d).
Proof.
  unfold contribution. destruct (files !! cache_path xdg_data_home d) as [data|]; [|discriminate].
  destruct (descriptor_devices (BeautifulSoup data) d) as [new'|e] eqn:Ed.
  - intros [= <-]. apply (descriptor_devices_file _ _ _ Ed).
  - destruct (is_AttributeError e); [|discriminate]. intros [= <-] name rec.
    rewrite lookup_empty. discriminate.
Qed.

(** The helpers read files and write none. *)
Lemma for_each_helper_frame (l : list string) (c : Cache) (w : World) (r : result unit)
    (c1 : Cache) (w1 : World) :
  for_each (_generate_index_helper xdg_data_home BeautifulSoup) l (c, w) = (r, (c1, w1)) ->
  fs w1 = fs w /\ same_env w w1 /\ urls c1 = urls c.
Proof.
  intros H.
  destruct (for_each_helper_sim xdg_data_home BeautifulSoup l c w r c1 w1 H c w eq_refl)
    as (c1' & w1' & H' & _ & Hf & He & Hu); [reflexivity|].
  rewrite H in H'. injection H' as <- <-. auto.
Qed.

(** X10.  Every record of a freshly generated index names, under [file],
    the descriptor it was read from, and that descriptor is one of the
    URLs [get_urls] returned. *)
Theorem generate_index_provenance (c : Cache) (w : World) (c1 : Cache) (w1 : World) :
  generate_index xdg_data_home BeautifulSoup dump (c, w) = (Ok tt, (c1, w1)) ->
  forall name rec, _index c1 !! name = Some rec ->
  exists l d, urls c1 = Some l /\ d ∈ l /\ rec !! "file" = Some (FStr d)
              /\ is_Some (fs w1 !! cache_path xdg_data_home d).
Proof.
  rewrite generate_index_steps.
  destruct (get_urls _ _ _) as [[l|e] [c0 w0]] eqn:Eg; [|discriminate].
  destruct (for_each (_generate_index_helper xdg_data_home BeautifulSoup) l (c0, w0))
    as [[[]|e] [ch wh]] eqn:Ef; [|discriminate].
  destruct (open_wb_errno wh (index_path xdg_data_home)) eqn:Eo; [discriminate|].
  intros [= <- <-] name rec Hrec.
  apply get_urls_post in Eg as (Hi & _ & _ & Hu & _).
  destruct (for_each_helper_frame _ _ _ _ _ _ Ef) as (Hfs & _ & Hus).
  pose proof (for_each_helper_index xdg_data_home BeautifulSoup l c0 w0) as Hx.
  rewrite Ef in Hx. destruct Hx as [Hall Hx].
  rewrite Hx, Hi in Hrec. destruct c; simpl in Hrec.
  apply foldl_union_lookup in Hrec as [Hrec|(d & Hin & Hrec)].
  { rewrite lookup_empty in Hrec. discriminate. }
  exists l, d. split; [congruence|]. split; [exact Hin|].
  destruct (contribution xdg_data_home BeautifulSoup (fs w0) d) as [new|] eqn:Ec.
  2:{ simpl in Hrec. rewrite lookup_empty in Hrec. discriminate. }
  split; [exact (contribution_file _ _ _ Ec _ _ Hrec)|].
  simpl. rewrite Hfs.
  assert (Hp : cache_path xdg_data_home d <> index_path xdg_data_home \/
               cache_path xdg_data_home d = index_path xdg_data_home) by
    (destruct (decide (cache_path xdg_data_home d = index_path xdg_data_home)); auto).
  destruct Hp as [Hp|Hp].
  - rewrite lookup_insert_ne by congruence.
    unfold contribution in Ec. destruct (fs w0 !! cache_path xdg_data_home d); [eauto|discriminate].
  - rewrite Hp, lookup_insert_eq. eauto.
Qed.

End IndexBuild.

Section IndexFiles.
Variable xdg_data_home : string.
Variable BeautifulSoup : string -> Tag.
Variable dump : gmap string (gmap string Field) -> string.
Variable load : string -> result (gmap string (gmap string Field)).

(** Whatever [get_urls] does, it writes no file but the root index. *)
Lemma get_urls_frame (c : Cache) (w : World) (r : result (list string)) (c1 : Cache) (w1 : World) :
  get_urls xdg_data_home BeautifulSoup (c, w) = (r, (c1, w1)) ->
  (forall p, p <> cache_path xdg_data_home RootPackURL -> fs w1 !! p = fs w !! p)
  /\ same_env w w1.
Proof.
  intros H.
  destruct (urls c) as [[|u us]|] eqn:Eu.
  2:{ rewrite (get_urls_known _ _ _ _ _ _ Eu) in H. injection H as <- <- <-.
      split; [reflexivity|apply same_env_refl]. }
  all: assert (Hu : urls c = None \/ urls c = Some []) by (rewrite Eu; auto).
  all: destruct (fs w !! cache_path xdg_data_home RootPackURL) as [data|] eqn:Ef.
  all: try (rewrite (get_urls_cached _ _ _ _ _ Hu Ef) in H;
            destruct (pdsc_urls (BeautifulSoup data)); injection H as <- <- <-;
            (split; [reflexivity|apply same_env_refl])).
  all: destruct (decide (can_write w (cache_path xdg_data_home RootPackURL))) as [Hw|Hw].
  all: try (rewrite (get_urls_fetched _ _ _ _ Hu Ef Hw) in H;
            destruct (pdsc_urls _); injection H as <- <- <-;
            (split; [intros p Hp; simpl; apply lookup_insert_ne; congruence|repeat split])).
  all: destruct (cache_file_not_writable xdg_data_home c w new_Curl RootPackURL Hw)
         as (e & out & Hr & _).
  all: revert H; unfold get_urls; unfold bind at 1; unfold self; simpl; rewrite Eu;
       unfold bind at 1; unfold try_except;
       rewrite (pull_from_cache_miss _ _ _ _ _ Ef); simpl;
       unfold cache_and_parse; unfold bind at 1; rewrite Hr.
  all: intros [= <- <- <-]; destruct w; (split; [reflexivity|repeat split]).
Qed.

(** X11.  Generating the index writes [index.json] and, when it had to be
    downloaded, the root index, and no other file: the cached descriptors
    are read and never modified, also when the run ends in an
    exception. *)
Theorem generate_index_frame (c : Cache) (w : World) (p : string) :
  p <> index_path xdg_data_home ->
  p <> cache_path xdg_data_home RootPackURL ->
  fs (snd (snd (generate_index xdg_data_home BeautifulSoup dump (c, w)))) !! p = fs w !! p.
Proof.
  intros Hi Hr. rewrite generate_index_steps.
  destruct (get_urls _ _ _) as [r [c0 w0]] eqn:Eg.
  apply get_urls_frame in Eg as [Hg _].
  destruct r as [l|e]; [|simpl; apply Hg, Hr].
  destruct (for_each (_generate_index_helper xdg_data_home BeautifulSoup) l (c0, w0))
    as [r [ch wh]] eqn:Ef.
  apply for_each_helper_frame in Ef as (Hf & _ & _).
  destruct r as [[]|e]; [|simpl; rewrite Hf; apply Hg, Hr].
  destruct (open_wb_errno wh (index_path xdg_data_home)); simpl.
  - rewrite Hf. apply Hg, Hr.
  - rewrite lookup_insert_ne by congruence. rewrite Hf. apply Hg, Hr.
Qed.

(** X12.  With the helper run on the queue in order, a device that
    several descriptors define gets the record of the one processed last:
    a record a descriptor contributes is in the index unless a descriptor
    later in the queue defines the same name. *)
Theorem helper_last_writer (l1 l2 : list string) (d : string) (c c1 : Cache) (w w1 : World)
    (new : gmap string (gmap string Field)) (name : string) (rec : gmap string Field) :
  do_queue_Reader (_generate_index_helper xdg_data_home BeautifulSoup) (l1 ++ d :: l2) (c, w)
  = (Ok tt, (c1, w1)) ->
  contribution xdg_data_home BeautifulSoup (fs w) d = Some new ->
  new !! name = Some rec ->
  (forall d2 new2, d2 ∈ l2 ->
     contribution xdg_data_home BeautifulSoup (fs w) d2 = Some new2 -> new2 !! name = None) ->
  _index c1 !! name = Some rec.
Proof.
  unfold do_queue_Reader. intros H Hc Hn Hlater.
  pose proof (for_each_helper_index xdg_data_home BeautifulSoup (l1 ++ d :: l2) c w) as Hx.
  rewrite H in Hx. destruct Hx as [_ ->].
  rewrite foldl_app. cbn [foldl].
  apply (foldl_union_last
           (fun d => default ∅ (contribution xdg_data_home BeautifulSoup (fs w) d))).
  - rewrite Hc. simpl. apply lookup_union_Some_raw. left. exact Hn.
  - intros d2 Hin.
    destruct (contribution xdg_data_home BeautifulSoup (fs w) d2) as [new2|] eqn:E2; simpl.
    + apply (Hlater d2 new2 Hin E2).
    + apply lookup_empty.
Qed.

Lemma generate_index_snapshot (c : Cache) (w : World) (c1 : Cache) (w1 : World) :
  generate_index xdg_data_home BeautifulSoup dump (c, w) = (Ok tt, (c1, w1)) ->
  fs w1 !! index_path xdg_data_home = Some (dump (_index c1)).
Proof.
  rewrite generate_index_steps.
  destruct (get_urls _ _ _) as [[l|e] [c0 w0]]; [|discriminate].
  destruct (for_each (_generate_index_helper xdg_data_home BeautifulSoup) l (c0, w0))
    as [[[]|e] [ch wh]]; [|discriminate].
  destruct (open_wb_errno wh (index_path xdg_data_home)); [discriminate|].
  intros [= <- <-]. simpl. apply lookup_insert_eq.
Qed.

(** With no index in memory, an exception of [load] other than [IOError]
    leaves the [index] property. *)
Lemma index_load_raises (c : Cache) (w : World) (data : string) (e : Exn) :
  _index c = ∅ ->
  fs w !! index_path xdg_data_home = Some data ->
  load data = Raise e ->
  is_IOError e = false ->
  index xdg_data_home BeautifulSoup dump load (c, w) = (Raise e, (c, w)).
Proof.
  intros H Hf Hl He.
  unfold index. unfold bind at 1. unfold self at 1. cbn [fst snd].
  destruct (decide (_index c = ∅)) as [Hd|Hd]; [|contradiction].
  destruct c, w; simpl in *. run_methods. rewrite Hf. cbv beta iota. rewrite Hl.
  cbv beta iota. rewrite He. reflexivity.
Qed.

(** X13.  A snapshot that is there but does not load is not replaced:
    with no index in memory, the exception [load] raises, unless it is an
    [IOError], leaves the [index] property, and [find_device] with it;
    nothing is regenerated and nothing changes. *)
Theorem index_corrupt_snapshot (scorer : string -> string -> Z) (c : Cache) (w : World)
    (data : string) (e : Exn) (match_ : string) :
  _index c = ∅ ->
  fs w !! index_path xdg_data_home = Some data ->
  load data = Raise e ->
  is_IOError e = false ->
  index xdg_data_home BeautifulSoup dump load (c, w) = (Raise e, (c, w))
  /\ find_device xdg_data_home BeautifulSoup scorer dump load match_ (c, w) = (Raise e, (c, w)).
Proof.
  intros H Hf Hl He.
  pose proof (index_load_raises c w data e H Hf Hl He) as Hi.
  split; [exact Hi|].
  unfold find_device. unfold bind at 1. unfold bind at 1. rewrite Hi. reflexivity.
Qed.

(** X14.  The snapshot round trip: when [load] reads back what [dump]
    wrote, an object with no index in memory gets, from the world a
    successful [generate_index] left, exactly the index that was
    generated, and changes nothing in that world. *)
Theorem index_reads_generated (c : Cache) (w : World) (c1 : Cache) (w1 : World) (c2 : Cache) :
  generate_index xdg_data_home BeautifulSoup dump (c, w) = (Ok tt, (c1, w1)) ->
  load (dump (_index c1)) = Ok (_index c1) ->
  _index c2 = ∅ ->
  index xdg_data_home BeautifulSoup dump load (c2, w1)
  = (Ok (_index c1), (set_index (_index c1) c2, w1)).
Proof.
  intros Hg Hl H2. apply generate_index_snapshot in Hg.
  apply (index_from_snapshot _ _ _ _ _ _ _ _ H2 Hg Hl).
Qed.

(** X15.  [dump_index_to_file] empties its target before it reads the
    index.  Aimed at [index.json] itself by an object with no index in
    memory, it destroys the snapshot: the index is then read from the
    emptied file, and when [load] rejects an empty file the call raises
    and leaves the snapshot empty. *)
Theorem dump_index_to_file_onto_snapshot (c : Cache) (w : World) (e : Exn) :
  _index c = ∅ ->
  open_wb_errno w (index_path xdg_data_home) = None ->
  load "" = Raise e ->
  is_IOError e = false ->
  dump_index_to_file xdg_data_home BeautifulSoup dump load (index_path xdg_data_home) (c, w)
  = (Raise e, (c, set_fs (<[index_path xdg_data_home := ""]> (fs w)) w)).
Proof.
  intros H Ho Hl He. unfold dump_index_to_file.
  unfold bind at 1.
  assert (E : open_wb (index_path xdg_data_home) (c, w)
              = (Ok tt, (c, set_fs (<[index_path xdg_data_home := ""]> (fs w)) w))).
  { unfold open_wb, bind, world, update_world, modify. cbn [fst snd]. rewrite Ho. reflexivity. }
  rewrite E. unfold bind at 1.
  assert (Hf : fs (set_fs (<[index_path xdg_data_home := ""]> (fs w)) w)
               !! index_path xdg_data_home = Some "") by apply lookup_insert_eq.
  rewrite (index_load_raises c _ "" e H Hf Hl He).
  reflexivity.
Qed.

End IndexFiles.

(** ** More on [find_device] *)

Lemma NoDup_all_same {A} (a : A) (l : list A) :
  NoDup l -> (forall x, x ∈ l -> x = a) -> l <> [] -> l = [a].
Proof.
  intros Hnd Hall Hne. destruct l as [|x [|y l]]; [congruence| |].
  - f_equal. apply Hall. left.
  - exfalso. assert (x = a) by (apply Hall; left).
    assert (y = a) by (apply Hall; right; left). subst.
    apply NoDup_cons in Hnd as [Hnd _]. apply Hnd. left.
Qed.

Section FindDeviceMore.
Variable xdg_data_home : string.
Variable BeautifulSoup : string -> Tag.
Variable scorer : string -> string -> Z.
Variable dump : gmap string (gmap string Field) -> string.
Variable load : string -> result (gmap string (gmap string Field)).
Hypothesis scorer_range : forall query choice, 0 <= scorer query choice <= 100.

Lemma best_matches_nonempty (query : string) (keys : list string) :
  keys <> [] -> best_matches scorer query keys <> [].
Proof.
  intros Hk.
  destruct (best_matches_filter scorer scorer_range query keys) as (l & _ & Hp & Hl).
  destruct l as [|top l].
  - apply Permutation_nil_l in Hp. destruct keys; [congruence|discriminate].
  - destruct Hl as [_ ->]. simpl. rewrite Z.eqb_refl. discriminate.
Qed.

(** X16.  [find_device] has no threshold: on an index that is not empty
    it returns at least one device, however poorly the best one matches
    the query. *)
Theorem find_device_never_empty (match_ : string) (c c' : Cache) (w w' : World)
    (idx : gmap string (gmap string Field)) :
  index xdg_data_home BeautifulSoup dump load (c, w) = (Ok idx, (c', w')) ->
  index xdg_data_home BeautifulSoup dump load (c', w') = (Ok idx, (c', w')) ->
  idx <> ∅ ->
  exists res,
    find_device xdg_data_home BeautifulSoup scorer dump load match_ (c, w) = (Ok res, (c', w'))
    /\ res <> [].
Proof.
  intros H1 H2 Hne.
  destruct (find_device_run xdg_data_home BeautifulSoup scorer dump load scorer_range
              match_ c c' w w' idx H1 H2) as (res & Hr & Hn & _).
  exists res. split; [exact Hr|].
  intros ->. simpl in Hn. symmetry in Hn. apply fmap_nil_inv in Hn.
  revert Hn. apply best_matches_nonempty.
  intros Hk. apply fmap_nil_inv in Hk. apply map_to_list_empty_iff in Hk. contradiction.
Qed.

(** X17.  A device whose name scores strictly higher than every other
    name of the index is returned alone, with its record. *)
Theorem find_device_unique_best (match_ : string) (c c' : Cache) (w w' : World)
    (idx : gmap string (gmap string Field)) (name : string) (record : gmap string Field) :
  index xdg_data_home BeautifulSoup dump load (c, w) = (Ok idx, (c', w')) ->
  index xdg_data_home BeautifulSoup dump load (c', w') = (Ok idx, (c', w')) ->
  idx !! name = Some record ->
  (forall k, is_Some (idx !! k) -> k <> name -> scorer match_ k < scorer match_ name) ->
  find_device xdg_data_home BeautifulSoup scorer dump load match_ (c, w)
  = (Ok [(name, record)], (c', w')).
Proof.
  intros H1 H2 Hrec Hbest.
  destruct (find_device_run xdg_data_home BeautifulSoup scorer dump load scorer_range
              match_ c c' w w' idx H1 H2) as (res & Hr & Hn & Hl).
  rewrite Hr. do 2 f_equal.
  set (keys := (map_to_list idx).*1) in *.
  assert (Hnames : (best_matches scorer match_ keys).*2 = [name]).
  { apply NoDup_all_same.
    - apply (best_matches_names_NoDup scorer scorer_range). apply NoDup_fst_map_to_list.
    - intros k Hk. apply list_elem_of_fmap in Hk as (t & -> & Ht).
      pose proof (best_matches_scored scorer scorer_range _ _ _ Ht) as [Et Hin].
      apply (best_matches_spec scorer scorer_range) in Ht as [_ Hmax].
      destruct (decide (t.2 = name)) as [E|E]; [exact E|exfalso].
      assert (Hname : name ∈ keys) by (apply keys_elem_of; eauto).
      specialize (Hmax name Hname).
      assert (Hlt : scorer match_ t.2 < scorer match_ name).
      { apply Hbest; [|exact E]. apply keys_elem_of. exact Hin. }
      rewrite Et in Hmax. simpl in Hmax. lia.
    - intros Hnil. apply fmap_nil_inv in Hnil. revert Hnil. apply best_matches_nonempty.
      intros Hk. assert (Hname : name ∈ keys) by (apply keys_elem_of; eauto).
      rewrite Hk in Hname. inversion Hname. }
  rewrite Hnames in Hn.
  destruct res as [|[n r] [|x res]]; try discriminate.
  injection Hn as ->. apply Forall_cons in Hl as [Hl _]. simpl in Hl.
  rewrite Hrec in Hl. injection Hl as ->. reflexivity.
Qed.

End FindDeviceMore.

(** ** When the helper raises *)

Section HelperRaises.
Variable xdg_data_home : string.
Variable BeautifulSoup : string -> Tag.

(** X18.  A call of [_generate_index_helper] that raises has changed
    nothing: the update of the index comes after every device of the
    descriptor has been read, so that no device of the descriptor has
    reached the index, not even those before the faulty one; the counter
    has not moved and nothing was printed.  The exception is never an
    [AttributeError]: those are caught. *)
Theorem helper_all_or_nothing (d : string) (c : Cache) (w : World) (e : Exn) (s : St) :
  _generate_index_helper xdg_data_home BeautifulSoup d (c, w) = (Raise e, s) ->
  s = (c, w) /\ is_AttributeError e = false.
Proof.
  destruct (fs w !! cache_path xdg_data_home d) as [data|] eqn:E.
  - rewrite (helper_run xdg_data_home BeautifulSoup c w d data E).
    destruct (descriptor_devices (BeautifulSoup data) d) as [new|e0]; [discriminate|].
    destruct (is_AttributeError e0) eqn:Ea; [discriminate|].
    intros [= <- <-]. split; [reflexivity|exact Ea].
  - rewrite (helper_miss xdg_data_home BeautifulSoup c w d E).
    intros [= <- <-]. split; reflexivity.
Qed.

End HelperRaises.

(** ** The order on attribute values *)

Lemma string_lt_irrefl (a : string) : ~ String_as_OT.lt a a.
Proof. exact (StrictOrder_Irreflexive (R := String_as_OT.lt) a). Qed.

Lemma string_lt_trans (a b c : string) :
  String_as_OT.lt a b -> String_as_OT.lt b c -> String_as_OT.lt a c.
Proof. exact (StrictOrder_Transitive (R := String_as_OT.lt) a b c). Qed.

Lemma cmp_list_spec (a b : list string) : CompSpec eq list_lt a b (cmp_list a b).
Proof.
  revert b. induction a as [|x a IH]; intros [|y b]; simpl; try (constructor; simpl; auto; fail).
  destruct (String_as_OT.compare_spec x y) as [->|H|H].
  - destruct (IH b) as [->|H|H]; constructor; simpl; auto.
  - constructor. simpl. auto.
  - constructor. simpl. auto.
Qed.

Lemma list_lt_irrefl (a : list string) : ~ list_lt a a.
Proof.
  induction a as [|x a IH]; simpl; [tauto|].
  intros [H|[_ H]]; [exact (string_lt_irrefl _ H)|exact (IH H)].
Qed.

Lemma list_lt_trans (a b c : list string) : list_lt a b -> list_lt b c -> list_lt a c.
Proof.
  revert b c. induction a as [|x a IH]; intros [|y b] [|z c]; simpl; try tauto.
  intros [H1|[-> H1]] [H2|[-> H2]]; auto.
  - left. exact (string_lt_trans _ _ _ H1 H2).
  - right. split; [reflexivity|]. exact (IH _ _ H1 H2).
Qed.

Lemma cmp_attr_spec (a b : AttrVal) : CompSpec eq attr_lt a b (cmp_attr a b).
Proof.
  destruct a as [a|a], b as [b|b]; simpl; try (constructor; simpl; auto; fail).
  - destruct (String_as_OT.compare_spec a b) as [->|H|H]; constructor; simpl; auto.
  - destruct (cmp_list_spec a b) as [->|H|H]; constructor; simpl; auto.
Qed.

Lemma attr_lt_irrefl (a : AttrVal) : ~ attr_lt a a.
Proof. destruct a; simpl; [apply string_lt_irrefl|apply list_lt_irrefl]. Qed.

Lemma attr_lt_trans (a b c : AttrVal) : attr_lt a b -> attr_lt b c -> attr_lt a c.
Proof.
  destruct a, b, c; simpl; try tauto; [apply string_lt_trans|apply list_lt_trans].
Qed.

Lemma attr_ge_iff (a b : AttrVal) : attr_ge a b <-> a = b \/ attr_lt b a.
Proof.
  unfold attr_ge. destruct (cmp_attr_spec a b) as [E|L|G]; split; intros H;
    try congruence; auto.
  exfalso. destruct H as [->|H].
  - exact (attr_lt_irrefl _ L).
  - exact (attr_lt_irrefl _ (attr_lt_trans _ _ _ L H)).
Qed.

#[global] Instance attr_ge_total : Total attr_ge.
Proof.
  intros a b. rewrite !attr_ge_iff.
  destruct (cmp_attr_spec a b); auto.
Qed.

#[global] Instance attr_ge_trans : Transitive attr_ge.
Proof.
  intros a b c. rewrite !attr_ge_iff.
  intros [->|H1] [->|H2]; auto. right. exact (attr_lt_trans _ _ _ H2 H1).
Qed.

(** ** [largest_version] *)

(** X19.  When [largest_version] returns, its result is the [version] of
    one of the releases, and no release has a version that is greater in
    Python's order of strings; it is the greatest as text, whether or not
    it is the latest release. *)
Theorem largest_version_greatest (content : Tag) (v : AttrVal) :
  largest_version content = Returned v ->
  exists versions,
    release_versions content = Returned versions
    /\ v ∈ versions
    /\ forall v', v' ∈ versions -> attr_ge v v'.
Proof.
  unfold largest_version, obind.
  destruct (release_versions content) as [versions|e]; [|discriminate].
  pose proof (StronglySorted_merge_sort attr_ge versions) as Hs.
  pose proof (merge_sort_Permutation attr_ge versions) as Hp.
  destruct (merge_sort attr_ge versions) as [|top l]; [discriminate|].
  intros [= <-]. exists versions. split; [reflexivity|]. split.
  - rewrite <- Hp. left.
  - intros v' Hin. rewrite <- Hp in Hin.
    apply elem_of_cons in Hin as [->|Hin].
    + apply attr_ge_iff. left. reflexivity.
    + apply StronglySorted_inv in Hs as [_ Hs].
      rewrite Forall_forall in Hs. apply Hs. exact Hin.
Qed.

(** ** [pdsc_to_pack] *)

Lemma ends_with_slash_app (s : string) : ends_with_slash (s ++ "/") = true.
Proof.
  induction s as [|c s IH]; [reflexivity|].
  change (String c s ++ "/") with (String c (s ++ "/")).
  cbn [ends_with_slash]. destruct (s ++ "/") eqn:E; [|exact IH].
  destruct s; discriminate E.
Qed.

(** X20.  The descriptors [pdsc_to_pack] turns into [AttributeError],
    the only exception its caller catches, are exactly those without a
    [package] element or whose package lacks a [url], a [vendor] or a
    [name] element.  Every other defect (no [releases] element, no
    release, a release without [version]) raises an exception of another
    class. *)
Theorem pack_url_attribute_error (content : Tag) :
  (exists e, pack_url content = Raised e /\ is_AttributeError_p e = true)
  <-> match find "package" content with
      | None => True
      | Some package =>
          find "url" package = None \/ find "vendor" package = None
          \/ find "name" package = None
      end.
Proof.
  unfold pack_url, largest_version, release_versions, obind.
  destruct (find "package" content) as [package|]; simpl.
  2:{ split; [trivial|]. intros _. eexists. split; reflexivity. }
  destruct (find "url" package) as [url|]; simpl.
  2:{ split; [auto|]. intros _. eexists. split; reflexivity. }
  destruct (find "vendor" package) as [vendor|]; simpl.
  2:{ split; [auto|]. intros _. eexists. split; reflexivity. }
  destruct (find "name" package) as [name|]; simpl.
  2:{ split; [auto|]. intros _. eexists. split; reflexivity. }
  split; [|intros [H|[H|H]]; discriminate H].
  intros (e & H & He). exfalso. revert H.
  destruct (find "releases" package) as [releases|]; simpl.
  2:{ intros [= <-]. discriminate He. }
  destruct (map_result _ (find_all "release" releases)) as [versions|e0] eqn:Em; simpl.
  2:{ intros [= <-]. simpl in He.
      assert (Hk : is_KeyError e0 = true).
      { revert Em. apply (map_result_exn _ (fun e => is_KeyError e = true)).
        intros t e1. apply getitem_exn. }
      destruct e0; discriminate. }
  destruct (merge_sort attr_ge versions) as [|[v|lv] ?]; simpl.
  - intros [= <-]. discriminate He.
  - discriminate.
  - intros [= <-]. discriminate He.
Qed.

(** The URL read out of a descriptor that has every element. *)
Lemma pack_url_shape (content : Tag) (s : string) :
  pack_url content = Returned s ->
  exists package url vendor name version,
    find "package" content = Some package
    /\ find "url" package = Some url
    /\ find "vendor" package = Some vendor
    /\ find "name" package = Some name
    /\ largest_version content = Returned (VStr version)
    /\ let base := if ends_with_slash (get_text url) then get_text url
                   else get_text url ++ "/" in
       ends_with_slash base = true
       /\ s = base ++ get_text vendor ++ "." ++ get_text name ++ "." ++ version ++ ".pack".
Proof.
  unfold pack_url, obind.
  destruct (find "package" content) as [package|]; simpl; [|discriminate].
  destruct (find "url" package) as [url|] eqn:Eu; simpl; [|discriminate].
  destruct (find "vendor" package) as [vendor|] eqn:Ev; simpl; [|discriminate].
  destruct (find "name" package) as [name|] eqn:En; simpl; [|discriminate].
  destruct (largest_version content) as [[version|lv]|e]; simpl; try discriminate.
  intros [= <-]. exists package, url, vendor, name, version.
  split; [reflexivity|]. split; [exact Eu|]. split; [exact Ev|]. split; [exact En|].
  split; [reflexivity|].
  split.
  - destruct (ends_with_slash (get_text url)) eqn:E; [exact E|apply ends_with_slash_app].
  - destruct (ends_with_slash (get_text url)); simpl;
      rewrite ?string_app_assoc; reflexivity.
Qed.

(** ** [cache_pdsc_and_pack] and the batch *)

Section PackProperties.
Variable xdg_data_home : string.
Variable BeautifulSoup : string -> Tag.
Variable dump : gmap string (gmap string Field) -> string.

Lemma pdsc_to_pack_hit (c : Cache) (w : World) (url data : string) :
  fs w !! cache_path xdg_data_home url = Some data ->
  pdsc_to_pack xdg_data_home BeautifulSoup url (c, w) = (pack_url (BeautifulSoup data), (c, w)).
Proof.
  intros H. unfold pdsc_to_pack, bind_p, lift_p.
  rewrite (pull_from_cache_hit xdg_data_home BeautifulSoup c w url data H). reflexivity.
Qed.

Lemma pdsc_to_pack_miss (c : Cache) (w : World) (url : string) :
  fs w !! cache_path xdg_data_home url = None ->
  pdsc_to_pack xdg_data_home BeautifulSoup url (c, w)
  = (Raised (Builtin (IOError ENOENT (cache_path xdg_data_home url))), (c, w)).
Proof.
  intros H. unfold pdsc_to_pack, bind_p, lift_p.
  rewrite (pull_from_cache_miss xdg_data_home BeautifulSoup c w url H). reflexivity.
Qed.

(** X21.  [pdsc_to_pack] only reads: it returns for a cached descriptor
    alone and leaves the object and the world as they are.  The URL it
    returns is the text of the [url] element, with a slash appended only
    when it does not end in one, followed by the vendor, the name and the
    largest version, separated by dots, and [.pack]. *)
Theorem pdsc_to_pack_shape (c : Cache) (w : World) (url s : string) (st : St) :
  pdsc_to_pack xdg_data_home BeautifulSoup url (c, w) = (Returned s, st) ->
  st = (c, w)
  /\ exists data package url_tag vendor name version,
       fs w !! cache_path xdg_data_home url = Some data
       /\ find "package" (BeautifulSoup data) = Some package
       /\ find "url" package = Some url_tag
       /\ find "vendor" package = Some vendor
       /\ find "name" package = Some name
       /\ largest_version (BeautifulSoup data) = Returned (VStr version)
       /\ let base := if ends_with_slash (get_text url_tag) then get_text url_tag
                      else get_text url_tag ++ "/" in
          ends_with_slash base = true
          /\ s = base ++ get_text vendor ++ "." ++ get_text name ++ "." ++ version ++ ".pack".
Proof.
  destruct (fs w !! cache_path xdg_data_home url) as [data|] eqn:E.
  - rewrite (pdsc_to_pack_hit c w url data E). intros [= Hp <-].
    split; [reflexivity|].
    destruct (pack_url_shape _ _ Hp) as (package & u & v & n & ver & H).
    exists data, package, u, v, n, ver. split; [reflexivity|exact H].
  - rewrite (pdsc_to_pack_miss c w url E). discriminate.
Qed.

(** One call of [cache_pdsc_and_pack], when the descriptor's file can be
    created. *)
Lemma cache_pdsc_and_pack_run (c : Cache) (w : World) (curl : Curl) (url : string) :
  can_write w (cache_path xdg_data_home url) ->
  let curl1 := curl_options xdg_data_home c curl url in
  let s1 := snd (cache_file xdg_data_home curl url (c, w)) in
  cache_pdsc_and_pack xdg_data_home BeautifulSoup curl url (c, w) =
  match pack_url (BeautifulSoup (body (network w curl1))) with
  | Returned pack => lift_p (cache_file xdg_data_home curl1 pack) s1
  | Raised e =>
      if is_AttributeError_p e
      then (Returned curl1,
            (set_counter (counter (fst s1) + 1) (fst s1),
             set_stderr (stderr (snd s1) ++ "[ ERROR ] " ++ url
                         ++ " does not appear to be a conforming .pdsc file" ++ LF) (snd s1)))
      else (Raised e, s1)
  end.
Proof.
  intros Hw curl1 s1. unfold cache_pdsc_and_pack. unfold bind_p at 1. unfold lift_p at 1.
  subst s1. rewrite (cache_file_run xdg_data_home c w curl url Hw). fold curl1.
  cbn [outcome_of snd fst]. unfold try_except_p. unfold bind_p at 1.
  erewrite pdsc_to_pack_hit by (simpl; apply lookup_insert_eq).
  destruct (pack_url _) as [pack|e].
  - unfold lift_p.
    match goal with
    | |- context [cache_file xdg_data_home curl1 pack (?c1, ?w1)] =>
        destruct (decide (can_write w1 (cache_path xdg_data_home pack))) as [Hp|Hp];
        [rewrite (cache_file_run xdg_data_home c1 w1 curl1 pack Hp); reflexivity
        |destruct (cache_file_not_writable xdg_data_home c1 w1 curl1 pack Hp)
           as (e & out & -> & [(errno & _ & _ & ->)|(errno & _ & ->)]); reflexivity]
    end.
  - destruct (is_AttributeError_p e); reflexivity.
Qed.

(** X22.  A descriptor that does not conform costs no more than a line
    on stderr: when the bytes received for a URL have no [package]
    element, as the empty file of a failed download has none,
    [cache_pdsc_and_pack] returns, requests no pack, and has counted two,
    the share of the URL in the total. *)
Theorem cache_pdsc_and_pack_nonconforming (c : Cache) (w : World) (curl : Curl) (url : string) :
  can_write w (cache_path xdg_data_home url) ->
  let curl1 := curl_options xdg_data_home c curl url in
  let resp := network w curl1 in
  find "package" (BeautifulSoup (body resp)) = None ->
  exists c' w',
    cache_pdsc_and_pack xdg_data_home BeautifulSoup curl url (c, w) = (Returned curl1, (c', w'))
    /\ counter c' = counter c + 2
    /\ fs w' = <[cache_path xdg_data_home url := body resp]> (fs w)
    /\ stderr w' = (stderr w ++ cache_file_stderr url resp)
                   ++ "[ ERROR ] " ++ url ++ " does not appear to be a conforming .pdsc file" ++ LF.
Proof.
  intros Hw curl1 resp Hp.
  rewrite (cache_pdsc_and_pack_run c w curl url Hw). fold curl1. fold resp.
  assert (E : pack_url (BeautifulSoup (body resp))
              = Raised (Builtin (AttributeError "'NoneType' object has no attribute 'url'"))).
  { unfold pack_url. rewrite Hp. reflexivity. }
  rewrite E. cbn [is_AttributeError_p is_AttributeError].
  rewrite (cache_file_run xdg_data_home c w curl url Hw). fold curl1. fold resp.
  do 2 eexists. split; [reflexivity|].
  destruct c; simpl. repeat split. lia.
Qed.

(** X23.  A defect of another kind is not caught: when reading the pack
    URL out of the bytes received raises anything but [AttributeError]
    (no [releases] element, no release, a release without [version]),
    [cache_pdsc_and_pack] raises it, with the descriptor cached and
    counted once, and the worker that took the URL ends with that
    exception. *)
Theorem cache_pdsc_and_pack_fatal (c : Cache) (w : World) (curl : Curl) (url : string)
    (e : PackExn) (rest : list string) :
  can_write w (cache_path xdg_data_home url) ->
  let resp := network w (curl_options xdg_data_home c curl url) in
  pack_url (BeautifulSoup (body resp)) = Raised e ->
  is_AttributeError_p e = false ->
  exists c' w',
    cache_pdsc_and_pack xdg_data_home BeautifulSoup curl url (c, w) = (Raised e, (c', w'))
    /\ counter c' = counter c + 1
    /\ fs w' = <[cache_path xdg_data_home url := body resp]> (fs w)
    /\ Cacher_run_p (cache_pdsc_and_pack xdg_data_home BeautifulSoup) curl (url :: rest) (c, w)
       = (Raised e, (c', w')).
Proof.
  intros Hw resp Hp He.
  assert (Hr := cache_pdsc_and_pack_run c w curl url Hw). cbv zeta in Hr.
  fold resp in Hr. rewrite Hp, He in Hr.
  rewrite (cache_file_run xdg_data_home c w curl url Hw) in Hr. fold resp in Hr.
  do 2 eexists. split; [exact Hr|].
  split; [destruct c; reflexivity|]. split; [reflexivity|].
  cbn [Cacher_run_p]. unfold bind_p. rewrite Hr. reflexivity.
Qed.

(** One call that returns has counted two. *)
Lemma cache_pdsc_and_pack_counts (c c' : Cache) (w w' : World) (curl curl' : Curl) (url : string) :
  cache_pdsc_and_pack xdg_data_home BeautifulSoup curl url (c, w) = (Returned curl', (c', w')) ->
  counter c' = counter c + 2 /\ total c' = total c /\ urls c' = urls c /\ same_env w w'.
Proof.
  intros H.
  assert (Hw : can_write w (cache_path xdg_data_home url)).
  { revert H. unfold cache_pdsc_and_pack. unfold bind_p at 1. unfold lift_p at 1.
    destruct (cache_file xdg_data_home curl url (c, w)) as [[k|e] s] eqn:Ec.
    - intros _. exact (cache_file_ok_inv _ _ _ _ _ _ _ Ec).
    - discriminate. }
  rewrite (cache_pdsc_and_pack_run c w curl url Hw) in H.
  rewrite (cache_file_run xdg_data_home c w curl url Hw) in H. cbn [fst snd] in H.
  destruct (pack_url _) as [pack|e].
  - unfold lift_p in H.
    destruct (cache_file xdg_data_home _ pack _) as [[k|e] s] eqn:Ec; [|discriminate].
    pose proof (cache_file_ok_inv _ _ _ _ _ _ _ Ec) as Hw2.
    rewrite (cache_file_run _ _ _ _ _ Hw2) in Ec.
    injection Ec as _ <-. injection H as _ <- <-.
    destruct c; simpl. repeat split. lia.
  - destruct (is_AttributeError_p e); [|discriminate].
    injection H as _ <- <-. destruct c; simpl. repeat split. lia.
Qed.

Lemma Cacher_run_p_counts (l : list string) :
  forall (curl : Curl) (c c' : Cache) (w w' : World),
  Cacher_run_p (cache_pdsc_and_pack xdg_data_home BeautifulSoup) curl l (c, w)
  = (Returned tt, (c', w')) ->
  counter c' = counter c + 2 * Z.of_nat (length l) /\ total c' = total c
  /\ urls c' = urls c /\ same_env w w' /\ (l = [] -> fs w' = fs w).
Proof.
  induction l as [|url l IH]; intros curl c c' w w' H.
  - injection H as <- <-. split; [simpl; lia|]. repeat split.
  - cbn [Cacher_run_p] in H. unfold bind_p in H.
    destruct (cache_pdsc_and_pack xdg_data_home BeautifulSoup curl url (c, w))
      as [[curl1|e] [c1 w1]] eqn:E; [|discriminate].
    apply cache_pdsc_and_pack_counts in E as (Hc & Ht & Hu & He).
    apply IH in H as (Hc' & Ht' & Hu' & He' & _).
    split; [rewrite Hc', Hc; cbn [length]; lia|].
    split; [congruence|]. split; [congruence|].
    split; [exact (same_env_trans _ _ _ He He')|discriminate].
Qed.

Lemma cache_pack_list_returns (list : list string) (c c' : Cache) (w w' : World) :
  cache_pack_list xdg_data_home BeautifulSoup list (c, w) = (Returned tt, (c', w')) ->
  total c' = 2 * Z.of_nat (length list)
  /\ counter c' = counter c + 2 * Z.of_nat (length list)
  /\ urls c' = urls c /\ same_env w w' /\ (list = [] -> fs w' = fs w).
Proof.
  unfold cache_pack_list, do_queue_Cacher_p.
  unfold bind_p at 1. unfold lift_p at 1. unfold update_self, modify. cbn [outcome_of fst snd].
  unfold bind_p at 1. unfold lift_p at 1. unfold display_counter, bind, self, stdout_write,
    update_world, modify. cbn [outcome_of fst snd].
  unfold bind_p at 1.
  destruct (Cacher_run_p _ _ list _) as [[[]|e] [c1 w1]] eqn:E; [|discriminate].
  apply Cacher_run_p_counts in E as (Hc & Ht & Hu & He & Hf).
  unfold lift_p, stdout_write, update_world, modify. cbn [outcome_of fst snd].
  intros [= <- <-]. rewrite Hc, Ht, Hu. destruct c, w, w1; simpl in *.
  split; [lia|]. split; [lia|]. split; [reflexivity|]. split; [exact He|exact Hf].
Qed.

(** X24.  One [Cacher] that works through a batch alone with
    [cache_pdsc_and_pack]: when it has got through the batch, the counter
    has advanced by two for every URL, whether the pack was fetched or
    the descriptor given up on, and the total is untouched. *)
Theorem Cacher_run_counts_two (l : list string) (curl : Curl) (c c' : Cache) (w w' : World) :
  Cacher_run_p (cache_pdsc_and_pack xdg_data_home BeautifulSoup) curl l (c, w)
  = (Returned tt, (c', w')) ->
  counter c' = counter c + 2 * Z.of_nat (length l) /\ total c' = total c.
Proof.
  intros H.
  apply Cacher_run_p_counts in H as (Hc & Ht & _). auto.
Qed.

(** One helper call that returns has counted one. *)
Lemma helper_counts (d : string) (c c1 : Cache) (w w1 : World) :
  _generate_index_helper xdg_data_home BeautifulSoup d (c, w) = (Ok tt, (c1, w1)) ->
  counter c1 = counter c + 1 /\ total c1 = total c.
Proof.
  destruct (fs w !! cache_path xdg_data_home d) as [data|] eqn:E.
  - rewrite (helper_run _ _ _ _ _ _ E).
    destruct (descriptor_devices (BeautifulSoup data) d) as [new|e].
    + intros [= <- <-]. destruct c; split; reflexivity.
    + destruct (is_AttributeError e); [|discriminate].
      intros [= <- <-]. destruct c; split; reflexivity.
  - rewrite (helper_miss _ _ _ _ _ E). discriminate.
Qed.

Lemma for_each_helper_counts (l : list string) :
  forall (c c1 : Cache) (w w1 : World),
  for_each (_generate_index_helper xdg_data_home BeautifulSoup) l (c, w) = (Ok tt, (c1, w1)) ->
  counter c1 = counter c + Z.of_nat (length l) /\ total c1 = total c.
Proof.
  induction l as [|d l IH]; intros c c1 w w1 H.
  - injection H as <- <-. split; [simpl; lia|reflexivity].
  - cbn [for_each] in H. unfold bind in H.
    destruct (_generate_index_helper xdg_data_home BeautifulSoup d (c, w))
      as [[[]|e] [c0 w0]] eqn:E; [|discriminate].
    apply helper_counts in E as [Hc Ht]. apply IH in H as [Hc' Ht'].
    split; [rewrite Hc', Hc; cbn [length]; lia|congruence].
Qed.

(** [generate_index] when the list of URLs is known: the counter ends at
    the length of the list and the total is left alone. *)
Lemma generate_index_counts (c c' : Cache) (w w' : World) (l : list string) :
  urls c = Some l ->
  (l <> [] \/ exists data, fs w !! cache_path xdg_data_home RootPackURL = Some data
                          /\ pdsc_urls (BeautifulSoup data) = Ok l) ->
  generate_index xdg_data_home BeautifulSoup dump (c, w) = (Ok tt, (c', w')) ->
  urls c' = Some l /\ counter c' = Z.of_nat (length l) /\ total c' = total c.
Proof.
  intros Hu Hl. rewrite generate_index_steps.
  set (c0 := set_counter 0 (set_index ∅ c)).
  assert (Hg : exists c1, get_urls xdg_data_home BeautifulSoup (c0, w) = (Ok l, (c1, w))
                          /\ urls c1 = Some l /\ counter c1 = 0 /\ total c1 = total c).
  { destruct l as [|u us].
    - destruct Hl as [Hl|(data & Hd & Hp)]; [congruence|].
      exists (set_urls [] c0).
      rewrite (get_urls_cached xdg_data_home BeautifulSoup c0 w data) by
        (try right; subst c0; destruct c; simpl in *; assumption).
      rewrite Hp. subst c0. destruct c. repeat split.
    - exists c0. rewrite (get_urls_known xdg_data_home BeautifulSoup c0 w u us) by
        (subst c0; destruct c; simpl in *; assumption).
      subst c0. destruct c. repeat split. exact Hu. }
  destruct Hg as (c1 & -> & Hu1 & Hc1 & Ht1).
  destruct (for_each (_generate_index_helper xdg_data_home BeautifulSoup) l (c1, w))
    as [[[]|e] [ch wh]] eqn:Ef; [|discriminate].
  destruct (open_wb_errno wh (index_path xdg_data_home)); [discriminate|].
  intros [= <- <-].
  destruct (for_each_helper_frame _ _ _ _ _ _ _ _ Ef) as (_ & _ & Hus).
  apply for_each_helper_counts in Ef as [Hc Ht].
  split; [congruence|]. split; [lia|congruence].
Qed.

(** X25.  When [cache_everything] returns, the total stands at twice the
    number of descriptor URLs the object remembers: [cache_pack_list]
    sets it and [generate_index] leaves it alone, so that the progress of
    the index build is shown against the total of the pack batch. *)
Theorem cache_everything_total (c c' : Cache) (w w' : World) :
  cache_everything xdg_data_home BeautifulSoup dump (c, w) = (Returned tt, (c', w')) ->
  exists l, urls c' = Some l /\ total c' = 2 * Z.of_nat (length l).
Proof.
  unfold cache_everything. unfold bind_p at 1. unfold lift_p at 1.
  destruct (get_urls xdg_data_home BeautifulSoup (c, w)) as [[l|e] [c0 w0]] eqn:Eg;
    [|discriminate].
  cbn [outcome_of]. unfold bind_p at 1.
  destruct (cache_pack_list xdg_data_home BeautifulSoup l (c0, w0)) as [[[]|e] [c2 w2]] eqn:Ep;
    [|discriminate].
  unfold lift_p.
  destruct (generate_index xdg_data_home BeautifulSoup dump (c2, w2)) as [[[]|e] [c3 w3]] eqn:Ei;
    [|discriminate].
  intros [= <- <-]. exists l.
  destruct (get_urls_post _ _ _ _ _ _ _ Eg) as (_ & _ & _ & Hu0 & Hroot).
  apply cache_pack_list_returns in Ep as (Ht & _ & Hu2 & _ & Hf).
  apply (generate_index_counts c2 c3 w2 w3 l) in Ei
    as (Hu3 & _ & Ht3).
  - split; [exact Hu3|congruence].
  - congruence.
  - destruct Hroot as [Hne|(data & Hd & Hp)]; [left; exact Hne|].
    destruct l as [|u us]; [|left; discriminate].
    right. exists data. rewrite (Hf eq_refl). auto.
Qed.

End PackProperties.

Section DescriptorsProgress.
Variable xdg_data_home : string.
Variable BeautifulSoup : string -> Tag.
Variable dump : gmap string (gmap string Field) -> string.

Lemma Cacher_run_returns (l : list string) :
  forall (curl : Curl) (c c' : Cache) (w w' : World),
  Cacher_run (cache_file xdg_data_home) curl l (c, w) = (Ok tt, (c', w')) ->
  counter c' = counter c + Z.of_nat (length l) /\ total c' = total c
  /\ urls c' = urls c /\ (l = [] -> fs w' = fs w).
Proof.
  induction l as [|url l IH]; intros curl c c' w w' H.
  - injection H as <- <-. split; [simpl; lia|]. repeat split.
  - cbn [Cacher_run] in H. unfold bind in H.
    destruct (cache_file xdg_data_home curl url (c, w)) as [[curl1|e] [c1 w1]] eqn:E;
      [|discriminate].
    pose proof (cache_file_ok_inv _ _ _ _ _ _ _ E) as Hw.
    rewrite (cache_file_run _ _ _ _ _ Hw) in E. injection E as _ <- <-.
    apply IH in H as (Hc & Ht & Hu & _).
    split; [rewrite Hc; destruct c; cbn [length]; simpl; lia|].
    split; [rewrite Ht; destruct c; reflexivity|].
    split; [rewrite Hu; destruct c; reflexivity|discriminate].
Qed.

Lemma cache_descriptor_list_returns (list : list string) (c c' : Cache) (w w' : World) :
  cache_descriptor_list xdg_data_home list (c, w) = (Ok tt, (c', w')) ->
  total c' = Z.of_nat (length list) /\ urls c' = urls c /\ (list = [] -> fs w' = fs w).
Proof.
  unfold cache_descriptor_list, do_queue_Cacher.
  unfold bind at 1. unfold update_self, modify. cbn [fst snd].
  unfold bind at 1. unfold display_counter. unfold bind at 1. unfold self. cbn [fst snd].
  unfold stdout_write, update_world, modify. cbn [fst snd].
  unfold bind at 1.
  destruct (Cacher_run _ _ list _) as [[[]|e] [c1 w1]] eqn:E; [|discriminate].
  apply Cacher_run_returns in E as (_ & Ht & Hu & Hf).
  intros [= <- <-]. rewrite Ht, Hu. destruct c, w, w1; simpl in *. auto.
Qed.

(** X26.  When [cache_descriptors] returns, the total stands at the
    number of descriptor URLs the object remembers. *)
Theorem cache_descriptors_total (c c' : Cache) (w w' : World) :
  cache_descriptors xdg_data_home BeautifulSoup dump (c, w) = (Ok tt, (c', w')) ->
  exists l, urls c' = Some l /\ total c' = Z.of_nat (length l).
Proof.
  unfold cache_descriptors. unfold bind at 1.
  destruct (get_urls xdg_data_home BeautifulSoup (c, w)) as [[l|e] [c0 w0]] eqn:Eg;
    [|discriminate].
  unfold bind at 1.
  destruct (cache_descriptor_list xdg_data_home l (c0, w0)) as [[[]|e] [c2 w2]] eqn:Ep;
    [|discriminate].
  intros Ei. exists l.
  destruct (get_urls_post _ _ _ _ _ _ _ Eg) as (_ & _ & _ & Hu0 & Hroot).
  apply cache_descriptor_list_returns in Ep as (Ht & Hu2 & Hf).
  apply (generate_index_counts xdg_data_home BeautifulSoup dump c2 c' w2 w' l) in Ei
    as (Hu3 & _ & Ht3).
  - split; [exact Hu3|congruence].
  - congruence.
  - destruct Hroot as [Hne|(data & Hd & Hp)]; [left; exact Hne|].
    destruct l as [|u us]; [|left; discriminate].
    right. exists data. rewrite (Hf eq_refl). auto.
Qed.

End DescriptorsProgress.

(** ** The properties on the concrete environment *)

Lemma get_urls_remembered_witness :
  exists c1 w1,
    get_urls demo_home demo_soup (Cache_init true false, demo_world) = (Ok [url_lpc], (c1, w1))
    /\ get_urls demo_home demo_soup (c1, demo_offline) = (Ok [url_lpc], (c1, demo_offline)).
Proof.
  set (r := get_urls demo_home demo_soup (Cache_init true false, demo_world)).
  assert (H : r = (Ok [url_lpc], (fst (snd r), snd (snd r)))) by (vm_compute; reflexivity).
  exists (fst (snd r)), (snd (snd r)). split; [exact H|].
  apply (proj1 (get_urls_remembered demo_home demo_soup _ _ _ _ _ H)). discriminate.
Defined.

Lemma root_index_fetched_once_witness :
  (urls (Cache_init true false) = None \/ urls (Cache_init true false) = Some [])
  /\ fs demo_offline !! cache_path demo_home RootPackURL = None
  /\ can_write demo_offline (cache_path demo_home RootPackURL)
  /\ fst (get_urls demo_home demo_soup (Cache_init true false, demo_offline)) = Ok []
  /\ fst (get_urls demo_home demo_soup
            (Cache_init true false,
             set_network demo_network
               (snd (snd (get_urls demo_home demo_soup (Cache_init true false, demo_offline))))))
     = Ok [].
Proof.
  assert (Hu : urls (Cache_init true false) = None \/ urls (Cache_init true false) = Some [])
    by (left; reflexivity).
  assert (Hf : fs demo_offline !! cache_path demo_home RootPackURL = None) by reflexivity.
  assert (Hw : can_write demo_offline (cache_path demo_home RootPackURL))
    by (split; [left|]; reflexivity).
  split; [exact Hu|]. split; [exact Hf|]. split; [exact Hw|].
  destruct (root_index_fetched_once demo_home demo_soup (Cache_init true false) demo_offline
              Hu Hf Hw) as (H1 & _ & H2).
  split; [exact H1|].
  exact (proj1 (H2 (Cache_init true false) demo_network Hu)).
Defined.

Lemma get_urls_malformed_entry_witness :
  let w := set_fs {[cache_path demo_home RootPackURL := "<index/>"]} demo_world in
  exists msg,
    get_urls demo_home (fun _ => root_document_no_name) (Cache_init true false, w)
    = (Raise (AttributeError msg), (Cache_init true false, w)).
Proof.
  intros w.
  apply (get_urls_malformed_entry demo_home (fun _ => root_document_no_name)
           (Cache_init true false) w "<index/>"
           (mkTag "pdsc" {["url" := VStr "http://www.keil.com/pack/"]} [])).
  - left. reflexivity.
  - reflexivity.
  - vm_compute. right. left.
  - left. reflexivity.
Defined.

Lemma generate_index_provenance_witness :
  exists c1 w1,
    generate_index demo_home demo_soup demo_dump (Cache_init true false, demo_cached)
    = (Ok tt, (c1, w1))
    /\ _index c1 !! "LPC1769" = Some (<["memory" := FMemory {["IROM1" :=
                                          {["start" := VStr "0x00000000";
                                            "size" := VStr "0x80000"]}]}]>
                                      {["file" := FStr url_lpc]})
    /\ exists l d, urls c1 = Some l /\ d ∈ l
                   /\ (<["memory" := FMemory {["IROM1" := {["start" := VStr "0x00000000";
                                                            "size" := VStr "0x80000"]}]}]>
                       ({["file" := FStr url_lpc]} : gmap string Field)) !! "file"
                      = Some (FStr d)
                   /\ is_Some (fs w1 !! cache_path demo_home d).
Proof.
  set (r := generate_index demo_home demo_soup demo_dump (Cache_init true false, demo_cached)).
  assert (H : r = (Ok tt, (fst (snd r), snd (snd r)))) by (vm_compute; reflexivity).
  assert (Hl : _index (fst (snd r)) !! "LPC1769"
               = Some (<["memory" := FMemory {["IROM1" := {["start" := VStr "0x00000000";
                                                            "size" := VStr "0x80000"]}]}]>
                       {["file" := FStr url_lpc]})) by (vm_compute; reflexivity).
  exists (fst (snd r)), (snd (snd r)). split; [exact H|]. split; [exact Hl|].
  exact (generate_index_provenance demo_home demo_soup demo_dump _ _ _ _ H _ _ Hl).
Defined.

Lemma generate_index_frame_witness :
  cache_path demo_home url_lpc <> index_path demo_home
  /\ cache_path demo_home url_lpc <> cache_path demo_home RootPackURL
  /\ fs (snd (snd (generate_index demo_home demo_soup demo_dump
                     (Cache_init true false, demo_cached)))) !! cache_path demo_home url_lpc
     = Some "<package>LPC1700</package>".
Proof.
  assert (H1 : cache_path demo_home url_lpc <> index_path demo_home) by (vm_compute; discriminate).
  assert (H2 : cache_path demo_home url_lpc <> cache_path demo_home RootPackURL)
    by (vm_compute; discriminate).
  split; [exact H1|]. split; [exact H2|].
  rewrite (generate_index_frame demo_home demo_soup demo_dump (Cache_init true false)
             demo_cached _ H1 H2).
  reflexivity.
Defined.

Lemma helper_last_writer_witness :
  exists c1 w1,
    do_queue_Reader (_generate_index_helper demo_home demo_pack_soup) [url_lpc; url_lpc_old]
      (Cache_init true false, demo_cached_twice) = (Ok tt, (c1, w1))
    /\ _index c1 !! "LPC1768"
       = Some (<["memory" := FMemory {["IROM1" := {["start" := VStr "0x00000000";
                                                    "size" := VStr "0x80000"]}]}]>
               {["file" := FStr url_lpc_old]}).
Proof.
  set (r := do_queue_Reader (_generate_index_helper demo_home demo_pack_soup)
              [url_lpc; url_lpc_old] (Cache_init true false, demo_cached_twice)).
  assert (H : r = (Ok tt, (fst (snd r), snd (snd r)))) by (vm_compute; reflexivity).
  exists (fst (snd r)), (snd (snd r)). split; [exact H|].
  apply (helper_last_writer demo_home demo_pack_soup [url_lpc] [] url_lpc_old
           (Cache_init true false) _ demo_cached_twice _
           {["LPC1768" := <["memory" := FMemory {["IROM1" := {["start" := VStr "0x00000000";
                                                                "size" := VStr "0x80000"]}]}]>
                           {["file" := FStr url_lpc_old]}]}
           "LPC1768" _ H).
  - vm_compute. reflexivity.
  - reflexivity.
  - intros d2 new2 Hin. inversion Hin.
Defined.

Lemma index_corrupt_snapshot_witness :
  let w := set_fs {[index_path demo_home := "{LPC17"]} demo_world in
  index demo_home demo_soup demo_dump demo_load (Cache_init true false, w)
  = (Raise (ValueError "No JSON object could be decoded"), (Cache_init true false, w)).
Proof.
  intros w.
  apply (index_corrupt_snapshot demo_home demo_soup demo_dump demo_load demo_scorer
           (Cache_init true false) w "{LPC17" _ "LPC1768"); reflexivity.
Defined.

Lemma index_reads_generated_witness :
  exists c1 w1,
    generate_index demo_home demo_soup demo_dump (Cache_init true false, demo_cached)
    = (Ok tt, (c1, w1))
    /\ _index c1 = demo_lpc_index
    /\ index demo_home demo_soup demo_dump demo_load_lpc (Cache_init false true, w1)
       = (Ok (_index c1), (set_index (_index c1) (Cache_init false true), w1)).
Proof.
  set (r := generate_index demo_home demo_soup demo_dump (Cache_init true false, demo_cached)).
  assert (H : r = (Ok tt, (fst (snd r), snd (snd r)))) by (vm_compute; reflexivity).
  assert (Hi : _index (fst (snd r)) = demo_lpc_index) by (vm_compute; reflexivity).
  exists (fst (snd r)), (snd (snd r)). split; [exact H|]. split; [exact Hi|].
  apply (index_reads_generated demo_home demo_soup demo_dump demo_load_lpc _ _ _ _
           (Cache_init false true) H).
  - rewrite Hi. vm_compute. reflexivity.
  - reflexivity.
Defined.

Lemma dump_index_to_file_onto_snapshot_witness :
  let w := set_fs {[index_path demo_home := "{}"]} demo_world in
  dump_index_to_file demo_home demo_soup demo_dump demo_load (index_path demo_home)
    (Cache_init true false, w)
  = (Raise (ValueError "No JSON object could be decoded"),
     (Cache_init true false, set_fs (<[index_path demo_home := ""]> (fs w)) w)).
Proof.
  intros w.
  apply (dump_index_to_file_onto_snapshot demo_home demo_soup demo_dump demo_load
           (Cache_init true false) w); reflexivity.
Defined.

Lemma demo_index_loaded :
  index demo_home demo_soup demo_dump demo_load (demo_cache, demo_world)
  = (Ok demo_index, (demo_cache, demo_world)).
Proof. vm_compute. reflexivity. Qed.

Lemma find_device_never_empty_witness :
  exists res,
    find_device demo_home demo_soup demo_scorer demo_dump demo_load "nothing like it"
      (demo_cache, demo_world) = (Ok res, (demo_cache, demo_world))
    /\ res <> [].
Proof.
  apply (find_device_never_empty demo_home demo_soup demo_scorer demo_dump demo_load
           demo_scorer_range "nothing like it" demo_cache demo_cache demo_world demo_world
           demo_index demo_index_loaded demo_index_loaded).
  intros H. apply (f_equal (fun m => m !! "LPC1768")) in H. discriminate H.
Defined.

Lemma find_device_unique_best_witness :
  find_device demo_home demo_soup demo_scorer demo_dump demo_load "LPC1768"
    (demo_cache, demo_world)
  = (Ok [("LPC1768", lpc1768_record)], (demo_cache, demo_world)).
Proof.
  apply (find_device_unique_best demo_home demo_soup demo_scorer demo_dump demo_load
           demo_scorer_range "LPC1768" demo_cache demo_cache demo_world demo_world
           demo_index "LPC1768" lpc1768_record demo_index_loaded demo_index_loaded).
  - reflexivity.
  - intros k Hk Hne. apply keys_elem_of in Hk.
    change ((map_to_list demo_index).*1) with ["LPC1768"; "LPC1769"; "STM32F407"] in Hk
      || (vm_compute in Hk).
    repeat (apply elem_of_cons in Hk as [->|Hk]); try (inversion Hk; fail);
      try congruence; vm_compute; reflexivity.
Defined.

Lemma helper_all_or_nothing_witness :
  _generate_index_helper demo_home demo_soup url_nodname (Cache_init true false, demo_cached)
  = (Raise (KeyError "dname"), (Cache_init true false, demo_cached))
  /\ is_AttributeError (KeyError "dname") = false.
Proof.
  set (r := _generate_index_helper demo_home demo_soup url_nodname
              (Cache_init true false, demo_cached)).
  assert (H : r = (Raise (KeyError "dname"), snd r)) by (vm_compute; reflexivity).
  destruct (helper_all_or_nothing demo_home demo_soup _ _ _ _ _ H) as [Hs Ha].
  split; [rewrite H, Hs; reflexivity|exact Ha].
Defined.

(** The three releases of the demo descriptor: the largest version is
    the greatest as text, here not the latest release. *)
Example largest_version_textual :
  largest_version (pack_document demo_releases) = Returned (VStr "9.0.0")
  /\ pack_url (pack_document demo_releases) = Returned url_lpc_pack.
Proof. vm_compute. split; reflexivity. Qed.

Lemma largest_version_greatest_witness :
  largest_version (pack_document demo_releases) = Returned (VStr "9.0.0")
  /\ exists versions,
       release_versions (pack_document demo_releases) = Returned versions
       /\ VStr "9.0.0" ∈ versions
       /\ forall v', v' ∈ versions -> attr_ge (VStr "9.0.0") v'.
Proof.
  assert (H : largest_version (pack_document demo_releases) = Returned (VStr "9.0.0"))
    by (vm_compute; reflexivity).
  split; [exact H|].
  exact (largest_version_greatest _ _ H).
Defined.

Lemma pdsc_to_pack_shape_witness :
  let w := set_fs {[cache_path demo_home url_lpc := "<package>Keil.LPC1700_DFP</package>"]}
             demo_world in
  pdsc_to_pack demo_home demo_pack_soup url_lpc (Cache_init true false, w)
  = (Returned url_lpc_pack, (Cache_init true false, w))
  /\ exists data package url_tag vendor name version,
       fs w !! cache_path demo_home url_lpc = Some data
       /\ find "package" (demo_pack_soup data) = Some package
       /\ find "url" package = Some url_tag
       /\ find "vendor" package = Some vendor
       /\ find "name" package = Some name
       /\ largest_version (demo_pack_soup data) = Returned (VStr version)
       /\ let base := if ends_with_slash (get_text url_tag) then get_text url_tag
                      else get_text url_tag ++ "/" in
          ends_with_slash base = true
          /\ url_lpc_pack
             = base ++ get_text vendor ++ "." ++ get_text name ++ "." ++ version ++ ".pack".
Proof.
  intros w.
  assert (H : pdsc_to_pack demo_home demo_pack_soup url_lpc (Cache_init true false, w)
              = (Returned url_lpc_pack, (Cache_init true false, w)))
    by (vm_compute; reflexivity).
  split; [exact H|].
  exact (proj2 (pdsc_to_pack_shape demo_home demo_pack_soup _ _ _ _ _ H)).
Defined.

Lemma cache_pdsc_and_pack_nonconforming_witness :
  can_write demo_world (cache_path demo_home url_gone)
  /\ exists c' w',
       cache_pdsc_and_pack demo_home demo_soup new_Curl url_gone (Cache_init true false, demo_world)
       = (Returned (curl_options demo_home (Cache_init true false) new_Curl url_gone), (c', w'))
       /\ counter c' = 2
       /\ fs w' = {[cache_path demo_home url_gone := ""]}.
Proof.
  assert (Hw : can_write demo_world (cache_path demo_home url_gone))
    by (split; [left|]; reflexivity).
  split; [exact Hw|].
  destruct (cache_pdsc_and_pack_nonconforming demo_home demo_soup (Cache_init true false)
              demo_world new_Curl url_gone Hw eq_refl) as (c' & w' & Hr & Hc & Hf & _).
  exists c', w'. split; [exact Hr|]. split; [exact Hc|]. rewrite Hf. reflexivity.
Defined.

Lemma cache_pdsc_and_pack_fatal_witness :
  can_write demo_pack_world (cache_path demo_home url_stm)
  /\ exists c' w',
       cache_pdsc_and_pack demo_home demo_pack_soup new_Curl url_stm
         (Cache_init true false, demo_pack_world)
       = (Raised (IndexError "list index out of range"), (c', w'))
       /\ counter c' = 1.
Proof.
  assert (Hw : can_write demo_pack_world (cache_path demo_home url_stm))
    by (split; [left|]; reflexivity).
  split; [exact Hw|].
  destruct (cache_pdsc_and_pack_fatal demo_home demo_pack_soup (Cache_init true false)
              demo_pack_world new_Curl url_stm (IndexError "list index out of range") []
              Hw) as (c' & w' & Hr & Hc & _).
  - vm_compute. reflexivity.
  - reflexivity.
  - exists c', w'. split; [exact Hr|exact Hc].
Defined.

Lemma Cacher_run_counts_two_witness :
  exists c' w',
    Cacher_run_p (cache_pdsc_and_pack demo_home demo_pack_soup) new_Curl [url_lpc; url_gone]
      (Cache_init true false, demo_pack_world) = (Returned tt, (c', w'))
    /\ fs w' !! cache_path demo_home url_lpc_pack = Some "PK"
    /\ counter c' = 4 /\ total c' = 1.
Proof.
  set (r := Cacher_run_p (cache_pdsc_and_pack demo_home demo_pack_soup) new_Curl
              [url_lpc; url_gone] (Cache_init true false, demo_pack_world)).
  assert (H : r = (Returned tt, (fst (snd r), snd (snd r)))) by (vm_compute; reflexivity).
  exists (fst (snd r)), (snd (snd r)). split; [exact H|].
  split; [vm_compute; reflexivity|].
  exact (Cacher_run_counts_two demo_home demo_pack_soup _ _ _ _ _ _ H).
Defined.

Lemma cache_everything_total_witness :
  exists c' w',
    cache_everything demo_home demo_pack_soup demo_dump (Cache_init true false, demo_pack_world)
    = (Returned tt, (c', w'))
    /\ urls c' = Some [url_lpc] /\ total c' = 2.
Proof.
  set (r := cache_everything demo_home demo_pack_soup demo_dump
              (Cache_init true false, demo_pack_world)).
  assert (H : r = (Returned tt, (fst (snd r), snd (snd r)))) by (vm_compute; reflexivity).
  assert (U : urls (fst (snd r)) = Some [url_lpc]) by (vm_compute; reflexivity).
  exists (fst (snd r)), (snd (snd r)). split; [exact H|].
  destruct (cache_everything_total demo_home demo_pack_soup demo_dump _ _ _ _ H)
    as (l & Hu & Ht).
  rewrite U in Hu. injection Hu as <-. split; [exact U|exact Ht].
Defined.

Lemma cache_descriptors_total_witness :
  exists c' w',
    cache_descriptors demo_home demo_soup demo_dump (Cache_init true false, demo_world)
    = (Ok tt, (c', w'))
    /\ urls c' = Some [url_lpc] /\ total c' = 1.
Proof.
  set (r := cache_descriptors demo_home demo_soup demo_dump (Cache_init true false, demo_world)).
  assert (H : r = (Ok tt, (fst (snd r), snd (snd r)))) by (vm_compute; reflexivity).
  assert (U : urls (fst (snd r)) = Some [url_lpc]) by (vm_compute; reflexivity).
  exists (fst (snd r)), (snd (snd r)). split; [exact H|].
  destruct (cache_descriptors_total demo_home demo_soup demo_dump _ _ _ _ H)
    as (l & Hu & Ht).
  rewrite U in Hu. injection Hu as <-. split; [exact U|exact Ht].
Defined.
